(** * SLATE tiled distributed matrix: the Matrix class of slate_Matrix.hh

    A shallow embedding of [slate::Matrix<FloatType>]: the tile registry
    ([tiles_]), the life table ([lives_]), tile motion between the host and
    the devices, the broadcast of a tile with its life, the gather to rank 0,
    submatrix views and the constructor with its default 2-D block-cyclic
    distribution.

    Conventions.  Values of the C++ types [int] and [int64_t] are integers
    of [Z]; ranks, device numbers and element counts are taken to fit in an
    [int], where the conversions between the two widths preserve the value.
    The C++ operators [/] and [%] truncate towards zero: they are [Z.quot]
    and [Z.rem].  A [Tile*] is an [option Tile], [None] being [nullptr].
    Memory is a sequence of bytes. *)

From Stdlib Require Import ZArith Lia Init.Byte Sorted.
From stdpp Require Import base option list gmap.

Local Open Scope Z_scope.

(** ** Scalar types and MPI datatypes *)

(** The element types the class template is instantiated with. *)
Inductive scalar_t := Float | Double | ComplexFloat | ComplexDouble.

(** [sizeof(FloatType)], in bytes. *)
Definition sizeof (t : scalar_t) : Z :=
  match t with
  | Float => 4
  | Double => 8
  | ComplexFloat => 8
  | ComplexDouble => 16
  end.

Inductive MPI_Datatype :=
  MPI_FLOAT | MPI_DOUBLE | MPI_C_FLOAT_COMPLEX | MPI_C_DOUBLE_COMPLEX.

(** Size in bytes of one element of an MPI datatype. *)
Definition MPI_Type_size (d : MPI_Datatype) : Z :=
  match d with
  | MPI_FLOAT => 4
  | MPI_DOUBLE => 8
  | MPI_C_FLOAT_COMPLEX => 8
  | MPI_C_DOUBLE_COMPLEX => 16
  end.

(** The MPI datatype that describes one element of a scalar type. *)
Definition mpi_type (t : scalar_t) : MPI_Datatype :=
  match t with
  | Float => MPI_FLOAT
  | Double => MPI_DOUBLE
  | ComplexFloat => MPI_C_FLOAT_COMPLEX
  | ComplexDouble => MPI_C_DOUBLE_COMPLEX
  end.

(** ** Tiles *)

(** Modelled from the spec: the Tile class (slate_ColMajorTile.hh is not
    part of the sources).  A tile has its extents [mb_] and [nb_], a column
    stride, the memory its [data_] pointer addresses, a residency tag (the
    host number or a device number) and the origin flag of tiles that wrap
    caller memory. *)
Record Tile := mkTile {
  mb_ : Z;
  nb_ : Z;
  stride_ : Z;
  data_ : list byte;
  device_num_ : Z;
  origin_ : bool
}.

Inductive Target := Host | Devices.

(** ** The transport *)

(** The calls a rank makes to the MPI library, as the wrapper sees them. *)
Inductive mpi_call :=
  | MPI_Send (payload : list byte) (count : Z) (dtype : MPI_Datatype) (dest : Z)
  | MPI_Recv (count : Z) (dtype : MPI_Datatype) (src : Z)
  | MPI_Group_incl (ranks : list Z)
  | MPI_Comm_create_group (ranks : list Z)
  | MPI_Comm_rank
  | MPI_Group_translate_ranks (rank : Z)
  | MPI_Bcast (count : Z) (dtype : MPI_Datatype) (root : Z)
  | MPI_Group_free
  | MPI_Comm_free.

(** ** The state of one rank *)

(** [tile_maps] and [life_maps] are the [Map] objects allocated by the
    constructors, addressed by the pointers a [Matrix] handle keeps in
    [tiles_] and [lives_]; [allocs] counts the blocks handed out by the
    memory pools; [mpi_log] lists the transport calls made so far, oldest
    first; [p2p_in] holds, per source rank, the messages that were sent to
    this rank and not yet received; [bcast_in] holds the payloads of the
    collectives this rank has yet to take part in as a receiver. *)
Record State := mkState {
  tile_maps : gmap nat (gmap (Z * Z * Z) (option Tile));
  life_maps : gmap nat (gmap (Z * Z) Z);
  allocs : nat;
  mpi_log : list mpi_call;
  p2p_in : gmap Z (list (list byte));
  bcast_in : list (list byte)
}.

Definition set_tile_maps (f : gmap nat (gmap (Z * Z * Z) (option Tile)) →
                              gmap nat (gmap (Z * Z * Z) (option Tile)))
    (s : State) : State :=
  mkState (f (tile_maps s)) (life_maps s) (allocs s) (mpi_log s) (p2p_in s)
          (bcast_in s).

Definition set_life_maps (f : gmap nat (gmap (Z * Z) Z) →
                              gmap nat (gmap (Z * Z) Z))
    (s : State) : State :=
  mkState (tile_maps s) (f (life_maps s)) (allocs s) (mpi_log s) (p2p_in s)
          (bcast_in s).

Definition incr_allocs (s : State) : State :=
  mkState (tile_maps s) (life_maps s) (S (allocs s)) (mpi_log s) (p2p_in s)
          (bcast_in s).

Definition log_call (c : mpi_call) (s : State) : State :=
  mkState (tile_maps s) (life_maps s) (allocs s) (mpi_log s ++ [c]) (p2p_in s)
          (bcast_in s).

Definition log_calls (cs : list mpi_call) (s : State) : State :=
  mkState (tile_maps s) (life_maps s) (allocs s) (mpi_log s ++ cs) (p2p_in s)
          (bcast_in s).

Definition set_p2p_in (f : gmap Z (list (list byte)) →
                           gmap Z (list (list byte)))
    (s : State) : State :=
  mkState (tile_maps s) (life_maps s) (allocs s) (mpi_log s) (f (p2p_in s))
          (bcast_in s).

Definition set_bcast_in (q : list (list byte)) (s : State) : State :=
  mkState (tile_maps s) (life_maps s) (allocs s) (mpi_log s) (p2p_in s) q.

(** What ends an operation before its last statement: the dereference of a
    null tile pointer, an index outside a vector, an access past the end of
    a buffer, a failed [assert], a receive that no message will ever
    match, and an integer division by zero. *)
Inductive fault :=
  | NullDeref
  | OutOfRange
  | BufferOverrun
  | AssertFailed
  | Blocked
  | DivideByZero.

Inductive outcome :=
  | Ok (s : State)
  | Fault (e : fault) (s : State).

Definition bind (o : outcome) (k : State → outcome) : outcome :=
  match o with
  | Ok s => k s
  | Fault e s => Fault e s
  end.

Notation "o >>= k" := (bind o k) (at level 50, left associativity).

(** The state an operation ends in, however it ends. *)
Definition final (o : outcome) : State :=
  match o with
  | Ok s => s
  | Fault _ s => s
  end.

(** Whether an operation ran to its last statement. *)
Definition returns (o : outcome) : bool :=
  match o with
  | Ok _ => true
  | Fault _ _ => false
  end.

(** A [for] loop over the indices of [l], in order. *)
Fixpoint for_each {A : Type} (l : list A) (body : A → State → outcome)
    (s : State) : outcome :=
  match l with
  | [] => Ok s
  | x :: l' => body x s >>= for_each l' body
  end.

(** The same for a body that cannot fail. *)
Definition for_each_pure {A : Type} (l : list A) (body : A → State → State)
    (s : State) : State :=
  foldl (fun acc x => body x acc) s l.

(** ** The Matrix handle *)

(** The [Memory] object behind the pointer [memory_]: its address and the
    size in bytes of the blocks it hands out, the argument of its
    constructor. *)
Record Memory := mkMemory {
  pool_ : nat;
  block_size_ : Z
}.

Record Matrix := mkMatrix {
  it_ : Z;
  jt_ : Z;
  mt_ : Z;
  nt_ : Z;
  tileRankFunc : Z → Z → Z;
  tileDeviceFunc : Z → Z → Z;
  tileMbFunc : Z → Z;
  tileNbFunc : Z → Z;
  tiles_ : nat;
  lives_ : nat;
  mpi_comm_ : nat;
  mpi_group_ : nat;
  mpi_size_ : Z;
  mpi_rank_ : Z;
  num_devices_ : Z;
  memory_ : Memory;
  gemm_stream_ : list nat;
  comm_stream_ : list nat;
  cublas_handle_ : list nat;
  a_array_h_ : list nat;
  b_array_h_ : list nat;
  c_array_h_ : list nat;
  a_array_d_ : list nat;
  b_array_d_ : list nat;
  c_array_d_ : list nat
}.

(** ** Containers of the source *)

(** A [std::set<int>]: its elements in ascending order, each once. *)
Fixpoint set_insert (x : Z) (l : list Z) : list Z :=
  match l with
  | [] => [x]
  | y :: l' =>
      if x <? y then x :: l
      else if x =? y then l
      else y :: set_insert x l'
  end.

(** [set.find(x) != set.end()]. *)
Definition set_mem (x : Z) (l : list Z) : bool := existsb (Z.eqb x) l.

Definition MPI_UNDEFINED : Z := -32766.

(** The rank of process [r] within the group made of the processes [g], in
    that order; [MPI_UNDEFINED] when it is not a member. *)
Fixpoint group_rank (r : Z) (g : list Z) : Z :=
  match g with
  | [] => MPI_UNDEFINED
  | x :: g' =>
      if r =? x then 0
      else let k := group_rank r g' in
           if k =? MPI_UNDEFINED then MPI_UNDEFINED else k + 1
  end.

(** ** Buffers *)

(** The [count] elements of datatype [dtype] that start at a buffer: the
    bytes the transport reads; nothing when they reach past its end. *)
Definition read_buffer (buf : list byte) (count : Z) (dtype : MPI_Datatype)
    : option (list byte) :=
  let n := Z.to_nat (count * MPI_Type_size dtype) in
  if (n <=? length buf)%nat then Some (take n buf) else None.

(** The buffer after [msg] was stored at its start; nothing when the
    message is longer than the buffer. *)
Definition write_buffer (buf : list byte) (msg : list byte)
    : option (list byte) :=
  if (length msg <=? length buf)%nat
  then Some (msg ++ drop (length msg) buf)
  else None.

Section MatrixClass.

(** The template parameter of the class. *)
Variable FloatType : scalar_t.

(** The static member [host_num_]: the number of the host among the
    locations, as [omp_get_initial_device()] gave it. *)
Variable host_num_ : Z.

(** The bytes found in the [k]-th block that the memory pools hand out. *)
Variable uninit : nat → list byte.

(** [lapack::larnv(1, iseed, n, x)]: the bytes of the [n] elements it
    generates from the seed. *)
Variable larnv : Z → Z → Z → Z → Z → list byte.

(** [x[k] += v] on a buffer of elements of [FloatType]. *)
Variable add_at : Z → Z → list byte → list byte.

(** *** Tiles *)

(** Modelled from the spec: [ColMajorTile(mb, nb, memory)] of
    slate_ColMajorTile.hh, absent from the sources.  The tile takes a block
    of the pool at the host; its stride is [mb] and it is no origin tile.
    The block holds what the pool left in it.  Of the block, [data_] is
    the part that the [mb] x [nb] elements of the tile occupy, its first
    [mb * nb] elements. *)
Definition ColMajorTile_new (mb nb : Z) (s : State) : Tile * State :=
  (mkTile mb nb mb
     (resize (Z.to_nat (sizeof FloatType * (mb * nb))) x00 (uninit (allocs s)))
     host_num_ false,
   incr_allocs s).

(** Modelled from the spec: [ColMajorTile(mb, nb, a, lda, memory)], absent
    from the sources.  The tile wraps the caller's memory from [a] on; its
    stride is [lda] and it is an origin tile. *)
Definition ColMajorTile_wrap (mb nb : Z) (a : list byte) (lda : Z) : Tile :=
  mkTile mb nb lda a host_num_ true.

(** The elements of a tile, column after column, without the padding that
    a stride larger than [mb_] leaves between columns. *)
Definition element_block (t : Tile) : list byte :=
  flat_map
    (fun c => take (Z.to_nat (sizeof FloatType * mb_ t))
                (drop (Z.to_nat (sizeof FloatType * (stride_ t * c)))
                   (data_ t)))
    (seqZ 0 (nb_ t)).

(** Modelled from the spec: [Tile::copyToDevice(device, stream)] and
    [Tile::copyToHost(stream)], absent from the sources: a new tile at the
    target location with the same extents and elements, the stride
    compacted to [mb]; the source tile is left as it is. *)
Definition Tile_copyTo (t : Tile) (location : Z) : Tile :=
  mkTile (mb_ t) (nb_ t) (mb_ t) (element_block t) location false.

(** *** The registry and the life table behind a handle *)

Definition tiles (A : Matrix) (s : State) : gmap (Z * Z * Z) (option Tile) :=
  tile_maps s !!! tiles_ A.

Definition lives (A : Matrix) (s : State) : gmap (Z * Z) Z :=
  life_maps s !!! lives_ A.

Definition update_tiles (A : Matrix)
    (f : gmap (Z * Z * Z) (option Tile) → gmap (Z * Z * Z) (option Tile))
    (s : State) : State :=
  set_tile_maps (fun h => <[tiles_ A := f (tiles A s)]> h) s.

Definition update_lives (A : Matrix)
    (f : gmap (Z * Z) Z → gmap (Z * Z) Z) (s : State) : State :=
  set_life_maps (fun h => <[lives_ A := f (lives A s)]> h) s.

(** [tiles_->find({it_+i, jt_+j, device}) != tiles_->end()]. *)
Definition tile_found (A : Matrix) (i j device : Z) (s : State) : bool :=
  bool_decide (is_Some (tiles A s !! (it_ A + i, jt_ A + j, device))).

(** [operator()(i, j, device)] read: the pointer stored under the key; as with
    [std::map::operator[]], a key that is absent is first entered with a
    null pointer. *)
Definition tile_at (A : Matrix) (i j device : Z) (s : State)
    : option Tile * State :=
  match tiles A s !! (it_ A + i, jt_ A + j, device) with
  | Some p => (p, s)
  | None =>
      (None, update_tiles A (<[(it_ A + i, jt_ A + j, device) := None]>) s)
  end.

(** [operator()(i, j, device) = p]. *)
Definition tile_assign (A : Matrix) (i j device : Z) (p : option Tile)
    (s : State) : State :=
  update_tiles A (<[(it_ A + i, jt_ A + j, device) := p]>) s.

(** [tiles_->erase({it_+i, jt_+j, device})]. *)
Definition tiles_erase (A : Matrix) (i j device : Z) (s : State) : State :=
  update_tiles A (delete (it_ A + i, jt_ A + j, device)) s.

(** [lives_->operator[]({it_+i, jt_+j})] read, the key entered with 0 when absent. *)
Definition life_at (A : Matrix) (i j : Z) (s : State) : Z * State :=
  match lives A s !! (it_ A + i, jt_ A + j) with
  | Some v => (v, s)
  | None => (0, update_lives A (<[(it_ A + i, jt_ A + j) := 0]>) s)
  end.

(** [lives_->operator[]({it_+i, jt_+j}) = v]. *)
Definition life_assign (A : Matrix) (i j : Z) (v : Z) (s : State) : State :=
  update_lives A (<[(it_ A + i, jt_ A + j) := v]>) s.

(** [lives_->erase({it_+i, jt_+j})]. *)
Definition lives_erase (A : Matrix) (i j : Z) (s : State) : State :=
  update_lives A (delete (it_ A + i, jt_ A + j)) s.

(** *** The distribution seen through a handle *)

Definition tileRank (A : Matrix) (i j : Z) : Z :=
  tileRankFunc A (it_ A + i) (jt_ A + j).

Definition tileDevice (A : Matrix) (i j : Z) : Z :=
  tileDeviceFunc A (it_ A + i) (jt_ A + j).

Definition tileMb (A : Matrix) (i : Z) : Z := tileMbFunc A (it_ A + i).

Definition tileNb (A : Matrix) (j : Z) : Z := tileNbFunc A (jt_ A + j).

Definition tileIsLocal (A : Matrix) (i j : Z) : bool :=
  tileRank A i j =? mpi_rank_ A.

(** *** Tile motion *)

(** [comm_stream_[device]] is an element of the vector.  The source reads
    the vector without a test; a read outside of it is where the model
    ends the call. *)
Definition stream_index_ok (A : Matrix) (device : Z) : bool :=
  (0 <=? device) && (device <? Z.of_nat (length (comm_stream_ A))).

Definition tileCopyToDevice (A : Matrix) (i j dst_device : Z) (s : State)
    : outcome :=
  if tile_found A i j dst_device s then Ok s
  else
    let '(src_tile, s1) := tile_at A i j host_num_ s in
    if stream_index_ok A dst_device then
      match src_tile with
      | None => Fault NullDeref s1
      | Some t =>
          Ok (tile_assign A i j dst_device
                (Some (Tile_copyTo t dst_device)) s1)
      end
    else Fault OutOfRange s1.

Definition tileMoveToDevice (A : Matrix) (i j dst_device : Z) (s : State)
    : outcome :=
  if tile_found A i j dst_device s then Ok s
  else
    let '(src_tile, s1) := tile_at A i j host_num_ s in
    if stream_index_ok A dst_device then
      match src_tile with
      | None => Fault NullDeref s1
      | Some t =>
          let s2 := tile_assign A i j dst_device
                      (Some (Tile_copyTo t dst_device)) s1 in
          let '(_, s3) := tile_at A i j host_num_ s2 in
          Ok (tiles_erase A i j host_num_ s3)
      end
    else Fault OutOfRange s1.

Definition tileMoveToHost (A : Matrix) (i j src_device : Z) (s : State)
    : outcome :=
  if tile_found A i j host_num_ s then Ok s
  else
    let '(src_tile, s1) := tile_at A i j src_device s in
    if stream_index_ok A src_device then
      match src_tile with
      | None => Fault NullDeref s1
      | Some t =>
          let s2 := tile_assign A i j host_num_
                      (Some (Tile_copyTo t host_num_)) s1 in
          let '(_, s3) := tile_at A i j src_device s2 in
          Ok (tiles_erase A i j src_device s3)
      end
    else Fault OutOfRange s1.

Definition tileErase (A : Matrix) (i j device : Z) (s : State) : State :=
  if tile_found A i j device s then
    let '(_, s1) := tile_at A i j device s in
    tiles_erase A i j device s1
  else s.

Definition tileTick (A : Matrix) (i j : Z) (s : State) : State :=
  if negb (tileIsLocal A i j) then
    let '(v, s1) := life_at A i j s in
    let life := v - 1 in
    let s2 := life_assign A i j life s1 in
    if life =? 0 then
      let s3 := tileErase A i j host_num_ s2 in
      let s4 :=
        for_each_pure (seqZ 0 (num_devices_ A))
          (fun device => tileErase A i j device) s3 in
      lives_erase A i j s4
    else s2
  else s.

(** [checkLife()]: its body is commented out in the source. *)
Definition checkLife (A : Matrix) (s : State) : State := s.

(** [n] calls of [tileTick(i, j)], one after the other. *)
Definition ticks (n : nat) (A : Matrix) (i j : Z) (s : State) : State :=
  Nat.iter n (tileTick A i j) s.

(** *** Counting local tiles *)

Definition getMaxHostTiles (A : Matrix) : Z :=
  foldl
    (fun max_batch_size i =>
       foldl
         (fun max_batch_size j =>
            if tileIsLocal A i j then max_batch_size + 1
            else max_batch_size)
         max_batch_size (seqZ 0 (i + 1)))
    0 (seqZ 0 (mt_ A)).

Definition getMaxDeviceTiles (A : Matrix) (device : Z) : Z :=
  foldl
    (fun max_batch_size i =>
       foldl
         (fun max_batch_size j =>
            if tileIsLocal A i j && (tileDevice A i j =? device)
            then max_batch_size + 1
            else max_batch_size)
         max_batch_size (seqZ 0 (i + 1)))
    0 (seqZ 0 (mt_ A)).

(** *** Filling the matrix *)

(** The body of the loops of [random()] for a local tile.  [larnv] writes
    [nb * nb] elements from the start of the block of the tile, whatever
    the extents of the tile: that is past the end of the block when the
    blocks of the pool are smaller; otherwise the elements of the tile,
    the first of the block, are the first that [larnv] wrote.  Likewise
    the element [k * nb + k] that the loop over the diagonal adds to is one
    of the tile when it is among the first [mb_ * nb_] of the block. *)
Definition random_tile (A : Matrix) (i j : Z) (s : State) : outcome :=
  let '(tile, s1) := ColMajorTile_new (tileMb A i) (tileNb A j) s in
  let nb := tileNb A 0 in
  let x :=
    larnv (Z.land i 4095) (Z.land j 4095)
      (Z.land (Z.shiftr i 12 + Z.shiftr j 12) 4095) 1 (nb * nb) in
  if (Z.to_nat (block_size_ (memory_ A)) <? length x)%nat
  then Fault BufferOverrun s1
  else
    let d :=
      take (length (data_ tile)) (x ++ drop (length x) (data_ tile)) in
    let d' :=
      if i =? j then
        foldl
          (fun d k =>
             if k * nb + k <? mb_ tile * nb_ tile
             then add_at (k * nb + k) (nb * nt_ A) d
             else d)
          d (seqZ 0 nb)
      else d in
    Ok (tile_assign A i j host_num_
          (Some (mkTile (mb_ tile) (nb_ tile) (stride_ tile) d'
                   (device_num_ tile) (origin_ tile)))
          s1).

Definition random (A : Matrix) (s : State) : outcome :=
  for_each (seqZ 0 (mt_ A))
    (fun i =>
       for_each (seqZ 0 (i + 1))
         (fun j s => if tileIsLocal A i j then random_tile A i j s else Ok s))
    s.

(** [a] is the caller's array, as bytes; [&a[lda*n+m]] is what is left of it
    from that element on. *)
Definition copyTo (A : Matrix) (a : list byte) (lda : Z) (s : State) : State :=
  snd
    (foldl
       (fun '(m, s) i =>
          let '(_, s') :=
            foldl
              (fun '(n, s) j =>
                 (n + tileNb A j,
                  if tileIsLocal A i j then
                    tile_assign A i j host_num_
                      (Some
                         (ColMajorTile_wrap (tileMb A i) (tileNb A j)
                            (drop (Z.to_nat (sizeof FloatType * (lda * n + m)))
                               a)
                            lda))
                      s
                  else s))
              (0, s) (seqZ 0 (i + 1)) in
          (m + tileMb A i, s'))
       (0, s) (seqZ 0 (mt_ A))).

(** *** Constructors *)

(** The handles [initCudaStreams], [initCublasHandles] and
    [initBatchArrays] obtain for the devices 0 .. [num_devices]-1: the
    [k]-th of the [n] objects each device gets. *)
Definition device_handles (num_devices : Z) (n k : nat) : list nat :=
  (fun device => (n * device + k)%nat) <$> seq 0 (Z.to_nat num_devices).

(** [Matrix(m, n, a, lda, nb, mpi_comm, p, q)].  The rank and the size of
    the communicator and the number of devices ([omp_get_num_devices()]
    with CUDA, 0 without) come from the environment; [a] is [None] for a
    null pointer.  The two [Map] objects are allocated at addresses not in
    use; the pool hands out blocks of [nb * nb] elements.  The constructor
    divides by [nb] when it computes [mt_], and by [p] and [q] in the
    first call of [tileRankFunc], which [getMaxDeviceTiles] or
    [getMaxHostTiles] makes for the tile (0, 0) when there is a row of
    tiles. *)
Definition Matrix_new (m n : Z) (a : option (list byte)) (lda nb : Z)
    (mpi_comm : nat) (comm_rank comm_size : Z) (p q : Z) (num_devices : Z)
    (s : State) : Matrix * outcome :=
  let tp := fresh (dom (tile_maps s)) in
  let lp := fresh (dom (life_maps s)) in
  let s1 :=
    set_life_maps (<[lp := ∅]>) (set_tile_maps (<[tp := ∅]>) s) in
  let A :=
    {| it_ := 0;
       jt_ := 0;
       mt_ := if Z.rem m nb =? 0 then Z.quot m nb else Z.quot m nb + 1;
       nt_ := if Z.rem n nb =? 0 then Z.quot n nb else Z.quot n nb + 1;
       tileRankFunc := fun i j => Z.rem i p + Z.rem j q * p;
       tileDeviceFunc :=
         if 0 <? num_devices
         then fun i j => Z.rem (Z.quot j q) num_devices
         else fun i j => host_num_;
       tileMbFunc := fun i => if i * nb >? m then Z.rem m nb else nb;
       tileNbFunc := fun j => if j * nb >? n then Z.rem n nb else nb;
       tiles_ := tp;
       lives_ := lp;
       mpi_comm_ := mpi_comm;
       mpi_group_ := mpi_comm;
       mpi_size_ := comm_size;
       mpi_rank_ := comm_rank;
       num_devices_ := num_devices;
       memory_ := mkMemory tp (sizeof FloatType * nb * nb);
       gemm_stream_ := device_handles num_devices 2 0;
       comm_stream_ := device_handles num_devices 2 1;
       cublas_handle_ := device_handles num_devices 1 0;
       a_array_h_ := device_handles num_devices 6 0;
       b_array_h_ := device_handles num_devices 6 1;
       c_array_h_ := device_handles num_devices 6 2;
       a_array_d_ := device_handles num_devices 6 3;
       b_array_d_ := device_handles num_devices 6 4;
       c_array_d_ := device_handles num_devices 6 5 |} in
  (A,
   if nb =? 0 then Fault DivideByZero s1
   else if (0 <? mt_ A) && ((p =? 0) || (q =? 0)) then Fault DivideByZero s1
   else
     match a with
     | Some a => Ok (copyTo A a lda s1)
     | None => random A s1
     end).

(** [Matrix(a, m1, m2, n1, n2)], which [operator()(i1, i2, j1, j2)] calls:
    nothing when one of its assertions fails. *)
Definition Matrix_sub (a : Matrix) (m1 m2 n1 n2 : Z) : option Matrix :=
  if (m1 <=? m2) && (n1 <=? n2) && (m2 <? mt_ a) && (n2 <? nt_ a) then
    Some
      {| it_ := it_ a + m1;
         jt_ := jt_ a + n1;
         mt_ := m2 - m1 + 1;
         nt_ := n2 - n1 + 1;
         tileRankFunc := tileRankFunc a;
         tileDeviceFunc := tileDeviceFunc a;
         tileMbFunc := tileMbFunc a;
         tileNbFunc := tileNbFunc a;
         tiles_ := tiles_ a;
         lives_ := lives_ a;
         mpi_comm_ := mpi_comm_ a;
         mpi_group_ := mpi_group_ a;
         mpi_size_ := mpi_size_ a;
         mpi_rank_ := mpi_rank_ a;
         num_devices_ := num_devices_ a;
         memory_ := memory_ a;
         gemm_stream_ := gemm_stream_ a;
         comm_stream_ := comm_stream_ a;
         cublas_handle_ := cublas_handle_ a;
         a_array_h_ := a_array_h_ a;
         b_array_h_ := b_array_h_ a;
         c_array_h_ := c_array_h_ a;
         a_array_d_ := a_array_d_ a;
         b_array_d_ := b_array_d_ a;
         c_array_d_ := c_array_d_ a |}
  else None.

(** *** Point-to-point transport *)

Definition tileSend (A : Matrix) (i j dest : Z) (s : State) : outcome :=
  let '(tile, s1) := tile_at A i j host_num_ s in
  match tile with
  | None => Fault NullDeref s1
  | Some t =>
      let count := mb_ t * nb_ t in
      if count <? 0 then Fault AssertFailed s1
      else
        match read_buffer (data_ t) count MPI_DOUBLE with
        | None => Fault BufferOverrun s1
        | Some payload =>
            Ok (log_call (MPI_Send payload count MPI_DOUBLE dest) s1)
        end
  end.

(** The message taken is the oldest one that [src] sent to this rank; a
    message longer than the [count] elements announced is a truncation
    error. *)
Definition tileRecv (A : Matrix) (i j src : Z) (s : State) : outcome :=
  let '(tile, s1) := ColMajorTile_new (tileMb A i) (tileNb A j) s in
  let s2 := tile_assign A i j host_num_ (Some tile) s1 in
  let count := mb_ tile * nb_ tile in
  if count <? 0 then Fault AssertFailed s2
  else
    match p2p_in s2 !! src with
    | Some (msg :: rest) =>
        let s3 :=
          log_call (MPI_Recv count MPI_DOUBLE src)
            (set_p2p_in (<[src := rest]>) s2) in
        if (Z.to_nat (count * MPI_Type_size MPI_DOUBLE) <? length msg)%nat
        then Fault AssertFailed s3
        else
          match write_buffer (data_ tile) msg with
          | None => Fault BufferOverrun s3
          | Some d =>
              Ok (tile_assign A i j host_num_
                    (Some (mkTile (mb_ tile) (nb_ tile) (stride_ tile) d
                             (device_num_ tile) (origin_ tile)))
                    s3)
          end
    | _ => Fault Blocked s2
    end.

(** The body of the loops of [gather()]. *)
Definition gather_tile (A : Matrix) (i j : Z) (s : State) : outcome :=
  if mpi_rank_ A =? 0 then
    if negb (tileIsLocal A i j)
    then tileRecv A i j (tileRank A i j) s
    else Ok s
  else
    if tileIsLocal A i j then tileSend A i j 0 s else Ok s.

Definition gather (A : Matrix) (s : State) : outcome :=
  for_each (seqZ 0 (mt_ A))
    (fun i =>
       for_each (seqZ 0 (Z.min (i + 1) (nt_ A)))
         (fun j => gather_tile A i j))
    s.

(** *** Broadcast with a life *)

Definition tileSendFindRanks (A : Matrix) (i j : Z) (range : Z * Z * Z * Z)
    (bcast_set : list Z) : list Z :=
  let '(i1, i2, j1, j2) := range in
  foldl
    (fun bcast_set i =>
       foldl (fun bcast_set j => set_insert (tileRank A i j) bcast_set)
         bcast_set (seqZ j1 (j2 - j1 + 1)))
    bcast_set (seqZ i1 (i2 - i1 + 1)).

Definition tileSendFindLife (A : Matrix) (i j : Z) (range : Z * Z * Z * Z)
    : Z :=
  let '(i1, i2, j1, j2) := range in
  foldl
    (fun life i =>
       foldl (fun life j => if tileIsLocal A i j then life + 1 else life)
         life (seqZ j1 (j2 - j1 + 1)))
    0 (seqZ i1 (i2 - i1 + 1)).

(** [MPI_Bcast(tile->data_, count, MPI_DOUBLE, bcast_root, bcast_comm)] on
    the tile at [(i, j)] of the host.  The root reads its buffer; the other
    members store the payload of the collective in theirs. *)
Definition tile_MPI_Bcast (A : Matrix) (i j : Z) (t : Tile) (count : Z)
    (bcast_rank bcast_root : Z) (s : State) : outcome :=
  if (count <? 0) || (bcast_root =? MPI_UNDEFINED) then Fault AssertFailed s
  else if bcast_rank =? bcast_root then
    match read_buffer (data_ t) count MPI_DOUBLE with
    | None => Fault BufferOverrun s
    | Some _ => Ok (log_call (MPI_Bcast count MPI_DOUBLE bcast_root) s)
    end
  else
    match bcast_in s with
    | [] => Fault Blocked s
    | wire :: rest =>
        let s1 :=
          log_call (MPI_Bcast count MPI_DOUBLE bcast_root)
            (set_bcast_in rest s) in
        if negb (length wire =? Z.to_nat (count * MPI_Type_size MPI_DOUBLE))%nat
        then Fault AssertFailed s1
        else
          match write_buffer (data_ t) wire with
          | None => Fault BufferOverrun s1
          | Some d =>
              Ok (tile_assign A i j host_num_
                    (Some (mkTile (mb_ t) (nb_ t) (stride_ t) d
                             (device_num_ t) (origin_ t)))
                    s1)
          end
    end.

(** [tileSend(i, j, bcast_set)]. *)
Definition tileSend_bcast (A : Matrix) (i j : Z) (bcast_set : list Z)
    (s : State) : outcome :=
  if Z.of_nat (length bcast_set) =? 1 then Ok s
  else
    let bcast_vec := bcast_set in
    let s1 := log_call (MPI_Group_incl bcast_vec) s in
    let s2 := log_call (MPI_Comm_create_group bcast_vec) s1 in
    if negb (set_mem (mpi_rank_ A) bcast_vec) then Fault AssertFailed s2
    else
      let s3 := log_call MPI_Comm_rank s2 in
      let bcast_rank := group_rank (mpi_rank_ A) bcast_vec in
      let root_rank := tileRank A i j in
      let s4 := log_call (MPI_Group_translate_ranks root_rank) s3 in
      let bcast_root := group_rank root_rank bcast_vec in
      let '(tile, s5) := tile_at A i j host_num_ s4 in
      match tile with
      | None => Fault NullDeref s5
      | Some t =>
          tile_MPI_Bcast A i j t (mb_ t * nb_ t) bcast_rank bcast_root s5
          >>= fun s6 =>
          Ok (log_call MPI_Comm_free (log_call MPI_Group_free s6))
      end.

(** The part of the range overloads of [tileSend] that follows the
    computation of the life. *)
Definition tileSend_finish (target : Target) (A : Matrix) (i j : Z)
    (bcast_set : list Z) (s : State) : outcome :=
  tileSend_bcast A i j bcast_set s >>= fun s1 =>
  match target with
  | Devices =>
      for_each (seqZ 0 (num_devices_ A))
        (fun device => tileCopyToDevice A i j device) s1
  | Host => Ok s1
  end.

(** [tileSend<target>(i, j, range)]. *)
Definition tileSend_range (target : Target) (A : Matrix) (i j : Z)
    (range : Z * Z * Z * Z) (s : State) : outcome :=
  let bcast_set :=
    tileSendFindRanks A i j range (set_insert (tileRank A i j) []) in
  if set_mem (mpi_rank_ A) bcast_set then
    let s1 :=
      if negb (tileIsLocal A i j) then
        let '(tile, s') := ColMajorTile_new (tileMb A i) (tileNb A j) s in
        life_assign A i j (tileSendFindLife A i j range)
          (tile_assign A i j host_num_ (Some tile) s')
      else s in
    tileSend_finish target A i j bcast_set s1
  else Ok s.

(** [tileSend<target>(i, j, range1, range2)]. *)
Definition tileSend_range2 (target : Target) (A : Matrix) (i j : Z)
    (range1 range2 : Z * Z * Z * Z) (s : State) : outcome :=
  let bcast_set :=
    tileSendFindRanks A i j range2
      (tileSendFindRanks A i j range1 (set_insert (tileRank A i j) [])) in
  if set_mem (mpi_rank_ A) bcast_set then
    let s1 :=
      if negb (tileIsLocal A i j) then
        let '(tile, s') := ColMajorTile_new (tileMb A i) (tileNb A j) s in
        let s2 :=
          life_assign A i j (tileSendFindLife A i j range1)
            (tile_assign A i j host_num_ (Some tile) s') in
        let '(v, s3) := life_at A i j s2 in
        life_assign A i j (v + tileSendFindLife A i j range2) s3
      else s in
    tileSend_finish target A i j bcast_set s1
  else Ok s.

(** *** All the ranks of a communicator *)

(** A world gives every rank its handle on the matrix and its state.
    The transport is the MPI library, outside this repository: messages
    between two ranks are received in the order they were sent, a
    standard-mode send may complete before the matching receive is posted,
    and a broadcast hands the bytes of the buffer of its root to every
    other member. *)

(** The payloads of the messages for [dest] among the calls of a log. *)
Definition sent_to (dest : Z) (log : list mpi_call) : list (list byte) :=
  flat_map
    (fun c =>
       match c with
       | MPI_Send payload _ _ d => if d =? dest then [payload] else []
       | _ => []
       end)
    log.

(** [gather()] called on the [size] ranks of the communicator: the ranks
    other than 0 make their sends, rank 0 finds them in its queues. *)
Definition gather_world (A : Z → Matrix) (size : Z) (w : Z → State)
    : Z → outcome :=
  let senders := fun r => gather (A r) (w r) in
  let inbox :=
    foldr
      (fun r q =>
         <[r := default [] (q !! r) ++
                sent_to 0
                  (drop (length (mpi_log (w r)))
                     (mpi_log (final (senders r))))]> q)
      (p2p_in (w 0)) (seqZ 1 (size - 1)) in
  fun r =>
    if r =? 0 then gather (A 0) (set_p2p_in (fun _ => inbox) (w 0))
    else senders r.

(** The bytes the transport reads from the host tile [(i, j)] of its
    owner: [count] doubles from the start of its buffer. *)
Definition tile_payload (A : Matrix) (i j : Z) (s : State)
    : option (list byte) :=
  match tiles A s !! (it_ A + i, jt_ A + j, host_num_) with
  | Some (Some t) => read_buffer (data_ t) (mb_ t * nb_ t) MPI_DOUBLE
  | _ => None
  end.

(** [tileSend<target>(i, j, range)] called on every rank: the members of
    the broadcast set other than the owner find the payload of the owner
    in their queue. *)
Definition tile_bcast_world (target : Target) (A : Z → Matrix) (i j : Z)
    (range : Z * Z * Z * Z) (w : Z → State) : Z → outcome :=
  fun r =>
    let root := tileRank (A r) i j in
    let bcast_set :=
      tileSendFindRanks (A r) i j range (set_insert root []) in
    let receives :=
      set_mem r bcast_set && negb (r =? root) &&
      negb (Z.of_nat (length bcast_set) =? 1) in
    tileSend_range target (A r) i j range
      (match tile_payload (A root) i j (w root) with
       | Some wire =>
           if receives then set_bcast_in (bcast_in (w r) ++ [wire]) (w r)
           else w r
       | None => w r
       end).

(** *** Reading the matrix back *)

(** Modelled from the spec: [Tile::copyFrom(a, lda)] of slate_Tile.hh,
    absent from the sources, the elementwise copy from external storage
    into the tile.  Column [c] of the tile, the [mb_] elements from element
    [stride_ * c] of its buffer on, takes the [mb_] elements of [a] from
    element [lda * c] on; nothing when [a] or the buffer is too short for
    a column. *)
Definition Tile_copyFrom (t : Tile) (a : list byte) (lda : Z) : option Tile :=
  let column := Z.to_nat (sizeof FloatType * mb_ t) in
  match
    foldl
      (fun data c =>
         match data with
         | None => None
         | Some d =>
             let src :=
               take column
                 (drop (Z.to_nat (sizeof FloatType * (lda * c))) a) in
             let pos := Z.to_nat (sizeof FloatType * (stride_ t * c)) in
             if (length src =? column)%nat && (pos + column <=? length d)%nat
             then Some (take pos d ++ src ++ drop (pos + column) d)
             else None
         end)
      (Some (data_ t)) (seqZ 0 (nb_ t))
  with
  | Some d =>
      Some (mkTile (mb_ t) (nb_ t) (stride_ t) d (device_num_ t) (origin_ t))
  | None => None
  end.

(** [operator()(i, j)->copyFrom(&a[k], lda)]. *)
Definition tile_copyFrom (A : Matrix) (i j : Z) (a : list byte) (k lda : Z)
    (s : State) : outcome :=
  let '(tile, s1) := tile_at A i j host_num_ s in
  match tile with
  | None => Fault NullDeref s1
  | Some t =>
      match
        Tile_copyFrom t (drop (Z.to_nat (sizeof FloatType * k)) a) lda
      with
      | None => Fault BufferOverrun s1
      | Some t' => Ok (tile_assign A i j host_num_ (Some t') s1)
      end
  end.

Definition copyFrom (A : Matrix) (a : list byte) (lda : Z) (s : State)
    : outcome :=
  snd
    (foldl
       (fun '(m, o) i =>
          let '(_, o') :=
            foldl
              (fun '(n, o) j =>
                 (n + tileNb A j,
                  o >>= fun s =>
                  if tileIsLocal A i j
                  then tile_copyFrom A i j a (lda * m + n) lda s
                  else Ok s))
              (0, o) (seqZ 0 (i + 1)) in
          (m + tileMb A i, o'))
       (0, Ok s) (seqZ 0 (mt_ A))).

Definition copyFromFull (A : Matrix) (a : list byte) (lda : Z) (s : State)
    : outcome :=
  snd
    (foldl
       (fun '(m, o) i =>
          let '(_, o') :=
            foldl
              (fun '(n, o) j =>
                 (n + tileNb A j,
                  o >>= fun s => tile_copyFrom A i j a (lda * n + m) lda s))
              (0, o) (seqZ 0 (i + 1)) in
          (m + tileMb A i, o'))
       (0, Ok s) (seqZ 0 (mt_ A))).

(** *** Printing the lives *)

(** [printLife()].  What is printed is returned row by row: nothing for
    ["  ."], the counter for ["%3ld"].  The host entry is looked for under
    the key [{i, j, host_num_}], without the offsets of the view; the
    counter is read with [lives_->operator[]]. *)
Definition printLife (A : Matrix) (s : State)
    : list (list (option Z)) * State :=
  if mpi_rank_ A =? 0 then
    foldl
      (fun '(out, s) i =>
         let '(row, s') :=
           foldl
             (fun '(row, s) j =>
                if bool_decide (tiles A s !! (i, j, host_num_) = None)
                then (row ++ [None], s)
                else
                  let '(v, s') := life_at A i j s in
                  (row ++ [Some v], s'))
             ([], s) (seqZ 0 (nt_ A)) in
         (out ++ [row], s'))
      ([], s) (seqZ 0 (mt_ A))
  else ([], s).

(** *** Entries made when a matrix is filled *)

(** Between [s] and [s'] the registry of [A] changed at most at host
    entries of local tiles [(i, j)] of [A] with [j <= i]. *)
Definition lower_local_entries (A : Matrix) (s s' : State) : Prop :=
  ∀ k,
    tiles A s' !! k = tiles A s !! k ∨
    ∃ i j,
      k = (it_ A + i, jt_ A + j, host_num_) ∧
      0 ≤ j ≤ i ∧ i < mt_ A ∧ tileIsLocal A i j = true.

End MatrixClass.

(** ** Positions and scenarios used in the statements *)

(** The positions [(i, j)] with [0 <= j <= i < mt], row after row. *)
Definition lower_triangle (mt : Z) : list (Z * Z) :=
  flat_map (fun i => (fun j => (i, j)) <$> seqZ 0 (i + 1)) (seqZ 0 mt).

(** The positions [gather()] visits, in its order: those with
    [0 <= j <= i < mt] and [j < nt]. *)
Definition gather_cells (mt nt : Z) : list (Z * Z) :=
  flat_map (fun i => (fun j => (i, j)) <$> seqZ 0 (Z.min (i + 1) nt))
    (seqZ 0 mt).

(** The cells of a range [i1..i2] x [j1..j2], row after row. *)
Definition range_cells (range : Z * Z * Z * Z) : list (Z * Z) :=
  let '(i1, i2, j1, j2) := range in
  flat_map (fun i => (fun j => (i, j)) <$> seqZ j1 (j2 - j1 + 1))
    (seqZ i1 (i2 - i1 + 1)).

(** Two handles describe the same matrix: same view, same distribution. *)
Definition same_matrix (A B : Matrix) : Prop :=
  it_ A = it_ B ∧ jt_ A = jt_ B ∧ mt_ A = mt_ B ∧ nt_ A = nt_ B ∧
  tileRankFunc A = tileRankFunc B ∧ tileMbFunc A = tileMbFunc B ∧
  tileNbFunc A = tileNbFunc B.

(** The registry entry [p] is a tile of [mb] x [nb] elements whose buffer
    holds exactly [mb * nb] doubles. *)
Definition whole_double_tile (mb nb : Z) (p : option (option Tile)) : bool :=
  match p with
  | Some (Some t) =>
      (mb_ t =? mb) && (nb_ t =? nb) && (0 <=? mb_ t * nb_ t) &&
      (Z.of_nat (length (data_ t)) =? 8 * (mb_ t * nb_ t))
  | _ => false
  end.

(** The state of a rank before anything was allocated or sent. *)
Definition empty_state : State := mkState ∅ ∅ 0 [] ∅ [].

(** The locations at which the registry of [A] has an entry for the tile
    [(I, J)]. *)
Definition tile_locations (A : Matrix) (I J : Z) (s : State) : list Z :=
  omap
    (fun kv : Z * Z * Z * option Tile =>
       if bool_decide (kv.1.1 = (I, J)) then Some kv.1.2 else None)
    (map_to_list (tile_maps s !!! tiles_ A)).

(** Values for the parameters of the class in the scenarios: the host is
    location -1, fresh blocks are zeroed, the random elements of a tile are
    copies of one byte chosen by the seed, and adding to an element sets
    its first byte. *)
Definition sc_host : Z := -1.

Definition sc_uninit (k : nat) : list byte := [].

Definition sc_larnv (size : Z) (s0 s1 s2 s3 n : Z) : list byte :=
  replicate (Z.to_nat (size * n))
    (if s0 + s1 =? 0 then x01 else if s1 =? 0 then x02 else x03).

Definition sc_add_at (size : Z) (k v : Z) (d : list byte) : list byte :=
  <[Z.to_nat (size * k) := xff]> d.

(** A matrix of doubles, 4 x 4 in tiles of 2 x 2, on one rank with two
    devices. *)
Definition S4 : Matrix * outcome :=
  Matrix_new Double sc_host sc_uninit (sc_larnv 8) (sc_add_at 8) 4 4 None 4 2
    0%nat 0 1 1 1 2 empty_state.

(** A matrix of doubles, 16 x 16 in tiles of 4 x 4, on a 2 x 2 grid of
    ranks without devices, as rank [r] builds it. *)
Definition S2 (r : Z) : Matrix * outcome :=
  Matrix_new Double sc_host sc_uninit (sc_larnv 8) (sc_add_at 8) 16 16 None 16
    4 0%nat r 4 2 2 0 empty_state.

(** A matrix of doubles, 6 x 6 in tiles of 2 x 2, on a 2 x 2 grid of ranks
    without devices, as rank [r] builds it. *)
Definition S5 (r : Z) : Matrix * outcome :=
  Matrix_new Double sc_host sc_uninit (sc_larnv 8) (sc_add_at 8) 6 6 None 6 2
    0%nat r 4 2 2 0 empty_state.

(** A matrix of complex doubles, 2 x 2 in tiles of 1 x 1, on a 2 x 1 grid
    of ranks without devices, as rank [r] builds it. *)
Definition Z2 (r : Z) : Matrix * outcome :=
  Matrix_new ComplexDouble sc_host sc_uninit (sc_larnv 16) (sc_add_at 16) 2 2
    None 2 1 0%nat r 2 2 1 0 empty_state.

(** A matrix of doubles, 6 x 3 in tiles of 2 x 2, on one rank without
    devices: its tiles (i, 2) are one column wide. *)
Definition Tall : Matrix * outcome :=
  Matrix_new Double sc_host sc_uninit (sc_larnv 8) (sc_add_at 8) 6 3 None 6 2
    0%nat 0 1 1 1 0 empty_state.

(** The rows of elements above row [i] of tiles and the columns of elements
    left of column [j] of tiles: the sums of the heights and of the widths
    of the tiles before. *)
Definition row_offset (A : Matrix) (i : Z) : Z :=
  foldl (fun m k => m + tileMb A k) 0 (seqZ 0 i).

Definition col_offset (A : Matrix) (j : Z) : Z :=
  foldl (fun n k => n + tileNb A k) 0 (seqZ 0 j).

(** The host entry of the tile [(i, j)] of [A] is a tile the matrix
    allocated itself: [tileMb(i)] x [tileNb(j)] elements, the columns one
    after another, no origin tile. *)
Definition own_host_tile (host : Z) (A : Matrix) (i j : Z) (s : State)
    : Prop :=
  ∃ t,
    tiles A s !! (it_ A + i, jt_ A + j, host) = Some (Some t) ∧
    mb_ t = tileMb A i ∧ nb_ t = tileNb A j ∧ stride_ t = tileMb A i ∧
    device_num_ t = host ∧ origin_ t = false.

(** Between [s] and [s'] nothing changed but the life table of [A], which
    at most gained counters at 0. *)
Definition zero_counters_entered (A : Matrix) (s s' : State) : Prop :=
  tile_maps s' = tile_maps s ∧ mpi_log s' = mpi_log s ∧
  allocs s' = allocs s ∧
  ∀ k, lives A s' !! k = lives A s !! k ∨
       (lives A s !! k = None ∧ lives A s' !! k = Some 0).

(** * Properties *)

Section Properties.

Variable FloatType : scalar_t.
Variable host_num_ : Z.
Variable uninit : nat → list byte.
Variable larnv : Z → Z → Z → Z → Z → list byte.
Variable add_at : Z → Z → list byte → list byte.

(** ** The state behind a handle *)

Lemma tiles_update_tiles A f s : tiles A (update_tiles A f s) = f (tiles A s).
Proof. unfold tiles, update_tiles; simpl. by rewrite lookup_total_insert_eq. Qed.

Lemma tiles_update_tiles_shared A B f s :
  tiles_ A = tiles_ B → tiles A (update_tiles B f s) = f (tiles B s).
Proof.
  intros E. unfold tiles, update_tiles; simpl.
  by rewrite E, lookup_total_insert_eq.
Qed.

Lemma tiles_update_tiles_other A B f s :
  tiles_ A ≠ tiles_ B → tiles A (update_tiles B f s) = tiles A s.
Proof.
  intros E. unfold tiles, update_tiles; simpl.
  by rewrite lookup_total_insert_ne.
Qed.

Lemma lives_update_lives A f s : lives A (update_lives A f s) = f (lives A s).
Proof. unfold lives, update_lives; simpl. by rewrite lookup_total_insert_eq. Qed.

Lemma lives_update_tiles A B f s : lives A (update_tiles B f s) = lives A s.
Proof. reflexivity. Qed.

Lemma tiles_update_lives A B f s : tiles A (update_lives B f s) = tiles A s.
Proof. reflexivity. Qed.

(** ** The default distribution *)

Lemma Z_quot_rem_pos m nb :
  0 ≤ m → 0 < nb →
  m = nb * Z.quot m nb + Z.rem m nb ∧ 0 ≤ Z.rem m nb < nb ∧ 0 ≤ Z.quot m nb.
Proof.
  intros Hm Hnb. split; [apply Z.quot_rem'|]. split.
  - apply Z.rem_bound_pos; lia.
  - apply Z.quot_pos; lia.
Qed.

(** The number of tile rows the constructor computes is the ceiling of
    [m / nb]. *)
Lemma Matrix_new_mt m n a lda nb comm r sz p q D s :
  0 ≤ m → 0 < nb →
  let A :=
    (Matrix_new FloatType host_num_ uninit larnv add_at m n a lda nb comm r sz
       p q D s).1 in
  (mt_ A - 1) * nb < m ≤ mt_ A * nb ∨ (m = 0 ∧ mt_ A = 0).
Proof.
  intros Hm Hnb. simpl.
  destruct (Z_quot_rem_pos m nb Hm Hnb) as (E & Hr & Hq).
  destruct (Z.eqb_spec (Z.rem m nb) 0) as [H0|H0]; nia.
Qed.

(** With the functions the constructor installs, every row of tiles of the
    matrix is given the height [nb], the last one too: the test
    [i*nb > m] holds for no row below [mt_]. *)
Lemma tileMb_default_in_range m n a lda nb comm r sz p q D s I :
  0 ≤ m → 0 < nb →
  let A :=
    (Matrix_new FloatType host_num_ uninit larnv add_at m n a lda nb comm r sz
       p q D s).1 in
  0 ≤ I < mt_ A → tileMb A I = nb.
Proof.
  intros Hm Hnb A HI.
  pose proof (Matrix_new_mt m n a lda nb comm r sz p q D s Hm Hnb) as Hmt.
  fold A in Hmt. unfold tileMb. subst A. simpl in *.
  set (mt := if Z.rem m nb =? 0 then Z.quot m nb else Z.quot m nb + 1) in *.
  destruct (Z.gtb_spec ((0 + I) * nb) m) as [Hgt|Hle]; [nia | done].
Qed.

Lemma tileNb_default_in_range m n a lda nb comm r sz p q D s J :
  0 ≤ n → 0 < nb →
  let A :=
    (Matrix_new FloatType host_num_ uninit larnv add_at m n a lda nb comm r sz
       p q D s).1 in
  0 ≤ J < nt_ A → tileNb A J = nb.
Proof.
  intros Hn Hnb A HJ. unfold tileNb. subst A. simpl in *.
  destruct (Z_quot_rem_pos n nb Hn Hnb) as (E & Hr & Hq).
  destruct (Z.gtb_spec ((0 + J) * nb) n) as [Hgt|Hle]; [|done].
  destruct (Z.eqb_spec (Z.rem n nb) 0); nia.
Qed.

(** C6: a matrix of 5 x 5 elements in tiles of 2 x 2 has 3 rows and 3
    columns of tiles; its last row of tiles should be 5 - 2*2 = 1 element
    high and its last column 1 element wide, but [tileMb(2)] and
    [tileNb(2)] are both 2. *)
Theorem tileMb_last_row_is_nb :
  let A :=
    (Matrix_new FloatType host_num_ uninit larnv add_at 5 5 None 5 2 0%nat 0 1
       1 1 0 empty_state).1 in
  mt_ A = 3 ∧ nt_ A = 3 ∧
  5 - (mt_ A - 1) * 2 = 1 ∧ tileMb A (mt_ A - 1) = 2 ∧
  5 - (nt_ A - 1) * 2 = 1 ∧ tileNb A (nt_ A - 1) = 2.
Proof. repeat split; reflexivity. Qed.

(** ** Erasing tiles *)

Lemma tiles_tileErase A i j d s :
  tiles A (tileErase A i j d s) = delete (it_ A + i, jt_ A + j, d) (tiles A s).
Proof.
  unfold tileErase, tile_found. case_bool_decide as H.
  - destruct H as [p Hp]. unfold tile_at. rewrite Hp.
    unfold tiles_erase. by rewrite tiles_update_tiles.
  - rewrite delete_id; [done|]. by apply eq_None_not_Some.
Qed.

Lemma tileErase_frame A i j d s :
  life_maps (tileErase A i j d s) = life_maps s ∧
  mpi_log (tileErase A i j d s) = mpi_log s.
Proof.
  unfold tileErase, tile_found, tile_at. case_bool_decide as H; [|done].
  destruct H as [p Hp]. by rewrite Hp.
Qed.

Lemma erase_loop_tiles A i j l s :
  tiles A (for_each_pure l (fun device => tileErase A i j device) s) =
  foldl (fun m device => delete (it_ A + i, jt_ A + j, device) m) (tiles A s) l.
Proof.
  unfold for_each_pure. revert s.
  induction l as [|d l IH]; intros s; simpl; [done|].
  by rewrite IH, tiles_tileErase.
Qed.

Lemma erase_loop_frame A i j l s :
  life_maps (for_each_pure l (fun device => tileErase A i j device) s) =
    life_maps s ∧
  mpi_log (for_each_pure l (fun device => tileErase A i j device) s) =
    mpi_log s.
Proof.
  unfold for_each_pure. revert s.
  induction l as [|d l IH]; intros s; simpl; [done|].
  destruct (IH (tileErase A i j d s)) as [-> ->]. apply tileErase_frame.
Qed.

Lemma lookup_foldl_delete_in (m : gmap (Z * Z * Z) (option Tile)) I J l d :
  d ∈ l → foldl (fun m d => delete (I, J, d) m) m l !! (I, J, d) = None.
Proof.
  revert m. induction l as [|x l IH]; intros m Hd; [by inversion Hd|].
  simpl. destruct (decide (d ∈ l)) as [Hl|Hl]; [by apply IH|].
  assert (d = x) as -> by (inversion Hd; by subst).
  clear. revert m. induction l as [|y l IH]; intros m; simpl.
  - apply lookup_delete_eq.
  - destruct (decide (y = x)) as [->|Hne].
    + specialize (IH m). by rewrite delete_delete_eq.
    + rewrite delete_delete. apply IH.
Qed.

Lemma lookup_foldl_delete_None (m : gmap (Z * Z * Z) (option Tile)) I J l k :
  m !! k = None → foldl (fun m d => delete (I, J, d) m) m l !! k = None.
Proof.
  revert m. induction l as [|x l IH]; intros m Hk; simpl; [done|].
  apply IH. rewrite lookup_delete. by case_decide.
Qed.

Lemma lookup_foldl_delete_other (m : gmap (Z * Z * Z) (option Tile)) I J l k :
  (k.1.1, k.1.2) ≠ (I, J) →
  foldl (fun m d => delete (I, J, d) m) m l !! k = m !! k.
Proof.
  revert m. induction l as [|x l IH]; intros m Hk; simpl; [done|].
  rewrite IH by done. apply lookup_delete_ne. intros <-. by apply Hk.
Qed.

(** ** Ticking lives *)

Lemma tileTick_local A i j s :
  tileIsLocal A i j = true → tileTick host_num_ A i j s = s.
Proof. intros H. unfold tileTick. by rewrite H. Qed.

(** A tick that does not reach zero only stores the decremented counter. *)
Lemma tileTick_decrement A i j v s :
  tileIsLocal A i j = false →
  lives A s !! (it_ A + i, jt_ A + j) = Some v → v ≠ 1 →
  tileTick host_num_ A i j s = life_assign A i j (v - 1) s.
Proof.
  intros Hl Hv Hne. unfold tileTick, life_at. rewrite Hl, Hv. simpl.
  destruct (Z.eqb_spec (v - 1) 0); [lia | done].
Qed.

(** When no counter is stored, the tick enters one at 0 and decrements it. *)
Lemma tileTick_absent A i j s :
  tileIsLocal A i j = false →
  lives A s !! (it_ A + i, jt_ A + j) = None →
  tileTick host_num_ A i j s =
  life_assign A i j (-1)
    (update_lives A (<[(it_ A + i, jt_ A + j) := 0]>) s).
Proof. intros Hl Hv. unfold tileTick, life_at. by rewrite Hl, Hv. Qed.

(** The tick that reaches zero erases the tile everywhere and the counter. *)
Lemma tileTick_last A i j s :
  tileIsLocal A i j = false →
  lives A s !! (it_ A + i, jt_ A + j) = Some 1 →
  tileTick host_num_ A i j s =
  lives_erase A i j
    (for_each_pure (seqZ 0 (num_devices_ A))
       (fun device => tileErase A i j device)
       (tileErase A i j host_num_ (life_assign A i j 0 s))).
Proof. intros Hl Hv. unfold tileTick, life_at. by rewrite Hl, Hv. Qed.

Lemma lives_life_assign A i j v s :
  lives A (life_assign A i j v s) = <[(it_ A + i, jt_ A + j) := v]> (lives A s).
Proof. apply lives_update_lives. Qed.

Lemma lives_erase_loop A i j l s :
  lives A (for_each_pure l (fun device => tileErase A i j device) s) =
  lives A s.
Proof. unfold lives. by destruct (erase_loop_frame A i j l s) as [-> _]. Qed.

Lemma lives_tileErase A i j d s : lives A (tileErase A i j d s) = lives A s.
Proof. unfold lives. by destruct (tileErase_frame A i j d s) as [-> _]. Qed.

(** The state after the last tick of a life. *)
Lemma tileTick_last_state A i j s :
  tileIsLocal A i j = false →
  lives A s !! (it_ A + i, jt_ A + j) = Some 1 →
  let s' := tileTick host_num_ A i j s in
  tiles A s' =
    foldl (fun m device => delete (it_ A + i, jt_ A + j, device) m)
      (delete (it_ A + i, jt_ A + j, host_num_) (tiles A s))
      (seqZ 0 (num_devices_ A)) ∧
  lives A s' = delete (it_ A + i, jt_ A + j) (lives A s) ∧
  mpi_log s' = mpi_log s.
Proof.
  intros Hl Hv s'. subst s'. rewrite tileTick_last by done. split; [|split].
  - unfold lives_erase. rewrite tiles_update_lives, erase_loop_tiles.
    by rewrite tiles_tileErase.
  - unfold lives_erase. rewrite lives_update_lives, lives_erase_loop.
    rewrite lives_tileErase, lives_life_assign. apply delete_insert_eq.
  - simpl.
    destruct (erase_loop_frame A i j (seqZ 0 (num_devices_ A))
                (tileErase A i j host_num_ (life_assign A i j 0 s)))
      as [_ ->].
    by destruct (tileErase_frame A i j host_num_ (life_assign A i j 0 s))
      as [_ ->].
Qed.

Lemma ticks_S n A i j s :
  ticks host_num_ (S n) A i j s =
  ticks host_num_ n A i j (tileTick host_num_ A i j s).
Proof. unfold ticks. apply Nat.iter_succ_r. Qed.

(** While the life lasts, the ticks leave the registry alone and count
    down. *)
Lemma ticks_count_down A i j n : ∀ L s,
  tileIsLocal A i j = false →
  lives A s !! (it_ A + i, jt_ A + j) = Some L →
  Z.of_nat n < L →
  let s' := ticks host_num_ n A i j s in
  tiles A s' = tiles A s ∧
  lives A s' = <[(it_ A + i, jt_ A + j) := L - Z.of_nat n]> (lives A s) ∧
  mpi_log s' = mpi_log s.
Proof.
  induction n as [|n IH]; intros L s Hl Hv Hn s'; subst s'.
  - unfold ticks; simpl. split; [done|]. split; [|done].
    rewrite Z.sub_0_r. symmetry. by apply insert_id.
  - rewrite ticks_S, tileTick_decrement with (v := L) by (done || lia).
    destruct (IH (L - 1) (life_assign A i j (L - 1) s)) as (Ht & Hlv & Hlog);
      [done | by rewrite lives_life_assign, lookup_insert_eq | lia |].
    rewrite Ht, Hlv, Hlog. split; [done|]. split; [|done].
    rewrite lives_life_assign, insert_insert_eq. f_equal. lia.
Qed.

(** The state after the ticks of a whole life. *)
Lemma ticks_life_spent A i j L s :
  tileIsLocal A i j = false → 0 < L →
  lives A s !! (it_ A + i, jt_ A + j) = Some L →
  let s' := ticks host_num_ (Z.to_nat L) A i j s in
  tiles A s' =
    foldl (fun m device => delete (it_ A + i, jt_ A + j, device) m)
      (delete (it_ A + i, jt_ A + j, host_num_) (tiles A s))
      (seqZ 0 (num_devices_ A)) ∧
  lives A s' = delete (it_ A + i, jt_ A + j) (lives A s) ∧
  mpi_log s' = mpi_log s.
Proof.
  intros Hl HL Hv s'.
  destruct (ticks_count_down A i j (Z.to_nat L - 1)%nat L s)
    as (Ht1 & Hl1 & Hlog1); [done..|lia|].
  assert (s' = tileTick host_num_ A i j
                 (ticks host_num_ (Z.to_nat L - 1)%nat A i j s)) as ->.
  { subst s'. unfold ticks. rewrite <- Nat.iter_succ. f_equal. lia. }
  destruct (tileTick_last_state A i j
              (ticks host_num_ (Z.to_nat L - 1)%nat A i j s))
    as (Ht & Hlv & Hlog); [done| |].
  { rewrite Hl1, lookup_insert_eq. f_equal. lia. }
  rewrite Ht, Hlv, Hlog, Ht1, Hl1, Hlog1. split; [done|]. split; [|done].
  apply delete_insert_eq.
Qed.

(** C3: for a tile that is not local and whose life counter is L > 0,
    L calls of tileTick(i, j) remove the entries of the tile at the host and
    at every device and erase the counter, and fewer calls remove nothing
    and leave the counter at what remains of L; for a local tile a tick
    changes nothing. *)
Theorem tileTick_reclaims A i j L s :
  (tileIsLocal A i j = true → tileTick host_num_ A i j s = s) ∧
  (tileIsLocal A i j = false → 0 < L →
   lives A s !! (it_ A + i, jt_ A + j) = Some L →
   let s' := ticks host_num_ (Z.to_nat L) A i j s in
   tiles A s' !! (it_ A + i, jt_ A + j, host_num_) = None ∧
   (∀ device, 0 ≤ device < num_devices_ A →
      tiles A s' !! (it_ A + i, jt_ A + j, device) = None) ∧
   lives A s' !! (it_ A + i, jt_ A + j) = None ∧
   (∀ k, (k.1.1, k.1.2) ≠ (it_ A + i, jt_ A + j) →
      tiles A s' !! k = tiles A s !! k) ∧
   (∀ n, (n < Z.to_nat L)%nat →
      tiles A (ticks host_num_ n A i j s) = tiles A s ∧
      lives A (ticks host_num_ n A i j s) !! (it_ A + i, jt_ A + j) =
        Some (L - Z.of_nat n))).
Proof.
  split; [apply tileTick_local|]. intros Hl HL Hv s'.
  destruct (ticks_life_spent A i j L s Hl HL Hv) as (Ht & Hlv & _).
  fold s' in Ht, Hlv. rewrite Ht, Hlv. repeat split.
  - apply lookup_foldl_delete_None, lookup_delete_eq.
  - intros d Hd. apply lookup_foldl_delete_in, elem_of_seqZ. lia.
  - apply lookup_delete_eq.
  - intros k Hk. rewrite lookup_foldl_delete_other by done.
    apply lookup_delete_ne. intros <-. by apply Hk.
  - by destruct (ticks_count_down A i j n L s) as (? & ? & ?); [..|lia|].
  - destruct (ticks_count_down A i j n L s) as (_ & -> & _); [done..|lia|].
    apply lookup_insert_eq.
Qed.

(** C4 (as amended): a tick of a tile that is not local and whose counter
    is zero, negative or absent is not detected: it stores the counter
    decremented, a negative number, leaves the registry and the transport
    alone and returns; checkLife changes and reports nothing.  So the tick
    that follows the L ticks of a life L leaves the counter at -1. *)
Theorem tileTick_below_zero_stored A i j L s :
  tileIsLocal A i j = false →
  (∀ v, v ≤ 0 →
     lives A s !! (it_ A + i, jt_ A + j) = Some v ∨
     (lives A s !! (it_ A + i, jt_ A + j) = None ∧ v = 0) →
     let s' := tileTick host_num_ A i j s in
     lives A s' !! (it_ A + i, jt_ A + j) = Some (v - 1) ∧
     tiles A s' = tiles A s ∧ mpi_log s' = mpi_log s ∧
     checkLife A s' = s') ∧
  (0 < L → lives A s !! (it_ A + i, jt_ A + j) = Some L →
   let s1 := ticks host_num_ (Z.to_nat L) A i j s in
   let s2 := tileTick host_num_ A i j s1 in
   lives A s2 !! (it_ A + i, jt_ A + j) = Some (-1) ∧
   tiles A s2 = tiles A s1 ∧ mpi_log s2 = mpi_log s1 ∧ checkLife A s2 = s2).
Proof.
  intros Hl.
  assert (∀ s v, v ≤ 0 →
     lives A s !! (it_ A + i, jt_ A + j) = Some v ∨
     (lives A s !! (it_ A + i, jt_ A + j) = None ∧ v = 0) →
     let s' := tileTick host_num_ A i j s in
     lives A s' !! (it_ A + i, jt_ A + j) = Some (v - 1) ∧
     tiles A s' = tiles A s ∧ mpi_log s' = mpi_log s ∧
     checkLife A s' = s') as Hneg.
  { clear s. intros s v Hv [Hs|[Hs ->]] s'; subst s'.
    - rewrite tileTick_decrement with (v := v) by (done || lia).
      by rewrite lives_life_assign, lookup_insert_eq.
    - rewrite tileTick_absent by done.
      by rewrite lives_life_assign, lookup_insert_eq. }
  split; [apply Hneg|]. intros HL Hv s1 s2.
  destruct (ticks_life_spent A i j L s Hl HL Hv) as (_ & Hlv & _).
  apply (Hneg s1 0); [lia|]. right. split; [|done].
  subst s1. rewrite Hlv. apply lookup_delete_eq.
Qed.

(** ** Tile motion *)

Lemma tile_found_true A i j d s :
  tile_found A i j d s = true ↔ is_Some (tiles A s !! (it_ A + i, jt_ A + j, d)).
Proof. unfold tile_found. apply bool_decide_eq_true. Qed.

Lemma tile_found_false A i j d s :
  tile_found A i j d s = false ↔ tiles A s !! (it_ A + i, jt_ A + j, d) = None.
Proof.
  unfold tile_found. rewrite bool_decide_eq_false. symmetry.
  apply eq_None_not_Some.
Qed.

Lemma tile_at_present A i j d p s :
  tiles A s !! (it_ A + i, jt_ A + j, d) = Some p → tile_at A i j d s = (p, s).
Proof. intros H. unfold tile_at. by rewrite H. Qed.

Lemma tiles_tile_assign A i j d p s :
  tiles A (tile_assign A i j d p s) =
  <[(it_ A + i, jt_ A + j, d) := p]> (tiles A s).
Proof. apply tiles_update_tiles. Qed.

Lemma chunks_concat k n (l : list byte) :
  length l = (n * k)%nat →
  flat_map (fun c : nat => take k (drop (k * c) l)) (seq 0 n) = l.
Proof.
  revert l. induction n as [|n IH]; intros l Hlen.
  - simpl in *. by apply nil_length_inv in Hlen.
  - simpl. rewrite Nat.mul_0_r, drop_0.
    transitivity (take k l ++ drop k l); [|apply take_drop]. f_equal.
    rewrite <- (IH (drop k l)) by (rewrite length_drop; lia).
    rewrite <- seq_shift, flat_map_concat_map, map_map.
    rewrite <- flat_map_concat_map.
    apply flat_map_ext. intros c. rewrite drop_drop. f_equal. f_equal. lia.
Qed.

(** The copy of a tile whose columns are contiguous has the bytes of the
    tile. *)
Lemma element_block_compact t :
  stride_ t = mb_ t → 0 ≤ mb_ t → 0 ≤ nb_ t →
  Z.of_nat (length (data_ t)) = sizeof FloatType * (mb_ t * nb_ t) →
  element_block FloatType t = data_ t.
Proof.
  intros Hs Hm Hn Hlen. unfold element_block, seqZ. rewrite Hs.
  assert (0 < sizeof FloatType) by (destruct FloatType; simpl; lia).
  transitivity
    (flat_map
       (fun c : nat =>
          take (Z.to_nat (sizeof FloatType * mb_ t))
            (drop (Z.to_nat (sizeof FloatType * mb_ t) * c) (data_ t)))
       (seq 0 (Z.to_nat (nb_ t))));
    [|apply chunks_concat; nia].
  rewrite !flat_map_concat_map. f_equal.
  change (@fmap list _ nat Z) with (@map nat Z). rewrite map_map.
  apply map_ext. intros c. f_equal. f_equal. nia.
Qed.

(** C1 (as amended): when tile (i, j) is resident at the host and [d] is a
    device with a communication stream, tileCopyToDevice(i, j, d) followed
    by tileMoveToHost(i, j, d) leaves the host entry as it was, the same
    tile with the same bytes; tileMoveToHost finds the tile at the host and
    does nothing, so the entry of the device is still in the registry,
    with the copy of the host tile when the first call made it; no other
    entry is touched. *)
Theorem copy_to_device_then_move_to_host A i j d t s :
  tiles A s !! (it_ A + i, jt_ A + j, host_num_) = Some (Some t) →
  0 ≤ d < Z.of_nat (length (comm_stream_ A)) →
  ∃ s1,
    tileCopyToDevice FloatType host_num_ A i j d s = Ok s1 ∧
    tileMoveToHost FloatType host_num_ A i j d s1 = Ok s1 ∧
    tiles A s1 !! (it_ A + i, jt_ A + j, host_num_) = Some (Some t) ∧
    is_Some (tiles A s1 !! (it_ A + i, jt_ A + j, d)) ∧
    (tiles A s !! (it_ A + i, jt_ A + j, d) = None →
     tiles A s1 !! (it_ A + i, jt_ A + j, d) =
       Some (Some (Tile_copyTo FloatType t d))) ∧
    (∀ k, k ≠ (it_ A + i, jt_ A + j, d) → tiles A s1 !! k = tiles A s !! k).
Proof.
  intros Hhost Hd. unfold tileCopyToDevice.
  destruct (tile_found A i j d s) eqn:Hdev.
  - exists s. split; [done|]. split.
    + unfold tileMoveToHost.
      by rewrite (proj2 (tile_found_true A i j host_num_ s)).
    + apply tile_found_true in Hdev. repeat split; try done.
      intros Hnone. rewrite Hnone in Hdev. by destruct Hdev.
  - apply tile_found_false in Hdev.
    rewrite (tile_at_present _ _ _ _ _ _ Hhost).
    assert (stream_index_ok A d = true) as ->.
    { unfold stream_index_ok. apply andb_true_iff. split; lia. }
    assert (host_num_ ≠ d) as Hne by (intros <-; congruence).
    eexists. split; [done|]. rewrite tiles_tile_assign. split; [|repeat split].
    + unfold tileMoveToHost.
      rewrite (proj2 (tile_found_true A i j host_num_ _)); [done|].
      rewrite tiles_tile_assign, lookup_insert_ne by congruence.
      by rewrite Hhost.
    + rewrite lookup_insert_ne by congruence. done.
    + by rewrite lookup_insert_eq.
    + intros _. by rewrite lookup_insert_eq.
    + intros k Hk. by rewrite lookup_insert_ne.
Qed.

(** ** Submatrix views *)

Lemma tile_at_view v a i1 j1 :
  it_ v = it_ a + i1 → jt_ v = jt_ a + j1 → tiles_ v = tiles_ a →
  ∀ i j device s,
    tile_at v i j device s = tile_at a (i1 + i) (j1 + j) device s.
Proof.
  intros Hi Hj Ht i j device s. unfold tile_at, update_tiles, tiles.
  by rewrite Hi, Hj, Ht, !Z.add_assoc.
Qed.

Lemma tile_assign_view v a i1 j1 :
  it_ v = it_ a + i1 → jt_ v = jt_ a + j1 → tiles_ v = tiles_ a →
  ∀ i j device p s,
    tile_assign v i j device p s =
    tile_assign a (i1 + i) (j1 + j) device p s.
Proof.
  intros Hi Hj Ht i j device p s. unfold tile_assign, update_tiles, tiles.
  by rewrite Hi, Hj, Ht, !Z.add_assoc.
Qed.

(** C9: for bounds i1 <= i2 < mt and j1 <= j2 < nt, the submatrix
    constructor returns a view whose offsets are those of the parent plus
    (i1, j1) and whose extents are i2-i1+1 and j2-j1+1; the view holds the
    pointers of the parent to the registry, the life table and the pool,
    and its streams, handles and batch arrays; a tile looked up or stored
    through the view at (i, j) is the tile of the parent at
    (i1+i, j1+j). *)
Theorem submatrix_shares_registry a i1 i2 j1 j2 :
  i1 ≤ i2 → i2 < mt_ a → j1 ≤ j2 → j2 < nt_ a →
  ∃ v,
    Matrix_sub a i1 i2 j1 j2 = Some v ∧
    (it_ v = it_ a + i1 ∧ jt_ v = jt_ a + j1 ∧
     mt_ v = i2 - i1 + 1 ∧ nt_ v = j2 - j1 + 1) ∧
    (tiles_ v = tiles_ a ∧ lives_ v = lives_ a ∧ memory_ v = memory_ a) ∧
    (gemm_stream_ v = gemm_stream_ a ∧ comm_stream_ v = comm_stream_ a ∧
     cublas_handle_ v = cublas_handle_ a ∧
     a_array_h_ v = a_array_h_ a ∧ b_array_h_ v = b_array_h_ a ∧
     c_array_h_ v = c_array_h_ a ∧ a_array_d_ v = a_array_d_ a ∧
     b_array_d_ v = b_array_d_ a ∧ c_array_d_ v = c_array_d_ a) ∧
    (∀ s, tiles v s = tiles a s) ∧
    (∀ i j device s,
       tile_at v i j device s = tile_at a (i1 + i) (j1 + j) device s) ∧
    (∀ i j device p s,
       tile_assign v i j device p s =
       tile_assign a (i1 + i) (j1 + j) device p s) ∧
    (∀ i j device p s,
       (tile_at a (i1 + i) (j1 + j) device (tile_assign v i j device p s)).1
       = p).
Proof.
  intros H1 H2 H3 H4. unfold Matrix_sub.
  assert ((i1 <=? i2) && (j1 <=? j2) && (i2 <? mt_ a) && (j2 <? nt_ a) = true)
    as ->.
  { repeat (apply andb_true_iff; split); lia. }
  eexists. split; [done|].
  split; [done|]. split; [done|]. split; [by repeat split|].
  split; [done|].
  split; [by apply tile_at_view|]. split; [by apply tile_assign_view|].
  intros i j device p s. erewrite tile_assign_view by done.
  erewrite tile_at_present; [done|].
  by rewrite tiles_tile_assign, lookup_insert_eq.
Qed.

(** ** Loops *)

Lemma foldl_invariant {X Y : Type} (P : X → Prop) (f : X → Y → X) l x :
  P x → (∀ x y, y ∈ l → P x → P (f x y)) → P (foldl f x l).
Proof.
  revert x. induction l as [|y l IH]; intros x Hx Hf; simpl; [done|].
  apply IH.
  - apply Hf; [left | done].
  - intros x' y' Hy'. apply Hf. by right.
Qed.

Lemma for_each_invariant {X : Type} (P : State → Prop) (l : list X) body s :
  P s → (∀ x s, x ∈ l → P s → P (final (body x s))) →
  P (final (for_each l body s)).
Proof.
  revert s. induction l as [|x l IH]; intros s Hs Hb; simpl; [done|].
  pose proof (Hb x s ltac:(left) Hs) as Hx.
  destruct (body x s) as [s1|e s1]; simpl in *; [|done].
  apply IH; [done|]. intros x' s' Hx'. apply Hb. by right.
Qed.

(** ** The broadcast set *)

Lemma set_mem_set_insert x y l :
  set_mem x (set_insert y l) = (x =? y) || set_mem x l.
Proof.
  unfold set_mem. induction l as [|z l IH]; simpl; [done|].
  destruct (Z.ltb_spec y z); simpl; [done|].
  destruct (Z.eqb_spec y z) as [->|Hne]; simpl.
  - destruct (x =? z); done.
  - rewrite IH. destruct (x =? y), (x =? z); done.
Qed.

Lemma set_mem_true x l : set_mem x l = true ↔ x ∈ l.
Proof.
  unfold set_mem. rewrite existsb_exists. split.
  - intros (y & Hy & E). apply Z.eqb_eq in E as ->. by apply list_elem_of_In.
  - intros H. exists x. split; [by apply list_elem_of_In | apply Z.eqb_refl].
Qed.

Lemma elem_of_range_cells i1 i2 j1 j2 r c :
  (r, c) ∈ range_cells (i1, i2, j1, j2) ↔ (i1 ≤ r ≤ i2) ∧ (j1 ≤ c ≤ j2).
Proof.
  unfold range_cells. rewrite list_elem_of_In, in_flat_map. split.
  - intros (i & Hi & Hc). apply list_elem_of_In in Hi, Hc.
    apply elem_of_seqZ in Hi. apply list_elem_of_fmap in Hc as (j & E & Hj).
    apply elem_of_seqZ in Hj. inversion E; subst. lia.
  - intros [Hr Hc]. exists r. split; apply list_elem_of_In.
    + apply elem_of_seqZ. lia.
    + apply list_elem_of_fmap. exists c. split; [done|].
      apply elem_of_seqZ. lia.
Qed.

(** The ranks [tileSendFindRanks] adds are the owners of the cells of the
    range. *)
Lemma tileSendFindRanks_mem A i j range S r :
  set_mem r (tileSendFindRanks A i j range S) = true ↔
  set_mem r S = true ∨ ∃ c, c ∈ range_cells range ∧ tileRank A c.1 c.2 = r.
Proof.
  destruct range as [[[i1 i2] j1] j2]. unfold tileSendFindRanks, range_cells.
  generalize (seqZ j1 (j2 - j1 + 1)) as cols.
  generalize (seqZ i1 (i2 - i1 + 1)) as rows. intros rows cols.
  assert (∀ row S,
            set_mem r
              (foldl (fun S c => set_insert (tileRank A row c) S) S cols)
            = true ↔
            set_mem r S = true ∨ ∃ c, c ∈ cols ∧ tileRank A row c = r)
    as Hrow.
  { intros row. induction cols as [|c cols IH]; intros S'; simpl.
    - split; [by left|]. intros [?|(c & Hc & _)]; [done | by inversion Hc].
    - rewrite IH, set_mem_set_insert, orb_true_iff, Z.eqb_eq. split.
      + intros [[->|?]|(c' & Hc' & E)]; [right | by left | right].
        * exists c. split; [left | done].
        * exists c'. split; [by right | done].
      + intros [?|(c' & Hc' & E)]; [by left; right|].
        inversion Hc'; subst; [by left; left|]. right. by exists c'. }
  revert S. induction rows as [|row rows IH]; intros S; simpl.
  - split; [by left|]. intros [?|(c & Hc & _)]; [done | by inversion Hc].
  - rewrite IH, Hrow. split.
    + intros [[?|(c & Hc & E)]|(c & Hc & E)]; [by left | right | right].
      * exists (row, c). split; [|done]. apply elem_of_app. left.
        apply list_elem_of_fmap. by exists c.
      * exists c. split; [|done]. apply elem_of_app. by right.
    + intros [?|([a b] & Hc & E)]; [by left; left|].
      apply elem_of_app in Hc as [Hc|Hc].
      * left. right. apply list_elem_of_fmap in Hc as (y & Ey & Hy).
        inversion Ey; subst. by exists y.
      * right. by exists (a, b).
Qed.

(** A rank that owns neither the tile nor a cell of the range is not in
    the set. *)
Lemma outside_set A i j range S :
  set_mem (mpi_rank_ A) S = false →
  (∀ c, c ∈ range_cells range → tileIsLocal A c.1 c.2 = false) →
  set_mem (mpi_rank_ A) (tileSendFindRanks A i j range S) = false.
Proof.
  intros HS Hcells. apply not_true_is_false. intros H.
  apply tileSendFindRanks_mem in H as [H|(c & Hc & E)]; [congruence|].
  specialize (Hcells c Hc). unfold tileIsLocal in Hcells.
  apply Z.eqb_neq in Hcells. done.
Qed.

(** ** Ranks that have nothing to transfer *)

Lemma tileCopyToDevice_log A i j d s :
  mpi_log (final (tileCopyToDevice FloatType host_num_ A i j d s)) = mpi_log s.
Proof.
  unfold tileCopyToDevice. destruct (tile_found A i j d s); [done|].
  unfold tile_at.
  destruct (tiles A s !! (it_ A + i, jt_ A + j, host_num_)) as [[t|]|];
    destruct (stream_index_ok A d); done.
Qed.

Lemma tileSend_finish_owner_only target A i j bcast_set s :
  length bcast_set = 1%nat →
  mpi_log (final (tileSend_finish FloatType host_num_ target A i j bcast_set s))
  = mpi_log s.
Proof.
  intros Hlen. unfold tileSend_finish, tileSend_bcast. rewrite Hlen. simpl.
  destruct target; [done|].
  apply (for_each_invariant (fun s' => mpi_log s' = mpi_log s)); [done|].
  intros d s' _ <-. apply tileCopyToDevice_log.
Qed.

(** C5: on a rank that owns neither the tile (i, j) nor a cell of the
    consumer ranges, the range overloads of tileSend return the state they
    were given: no transport call, no change of the registry or of the life
    table.  When the broadcast set has one member, the call makes no
    transport call on any rank, however it ends. *)
Theorem tileSend_outside_set target A i j i1 i2 j1 j2 i1' i2' j1' j2' s :
  (tileIsLocal A i j = false →
   (∀ r c, i1 ≤ r ≤ i2 → j1 ≤ c ≤ j2 → tileIsLocal A r c = false) →
   tileSend_range FloatType host_num_ uninit target A i j (i1, i2, j1, j2) s
   = Ok s) ∧
  (tileIsLocal A i j = false →
   (∀ r c, i1 ≤ r ≤ i2 → j1 ≤ c ≤ j2 → tileIsLocal A r c = false) →
   (∀ r c, i1' ≤ r ≤ i2' → j1' ≤ c ≤ j2' → tileIsLocal A r c = false) →
   tileSend_range2 FloatType host_num_ uninit target A i j (i1, i2, j1, j2)
     (i1', i2', j1', j2') s
   = Ok s) ∧
  (length
     (tileSendFindRanks A i j (i1, i2, j1, j2)
        (set_insert (tileRank A i j) [])) = 1%nat →
   mpi_log
     (final
        (tileSend_range FloatType host_num_ uninit target A i j
           (i1, i2, j1, j2) s))
   = mpi_log s) ∧
  (length
     (tileSendFindRanks A i j (i1', i2', j1', j2')
        (tileSendFindRanks A i j (i1, i2, j1, j2)
           (set_insert (tileRank A i j) []))) = 1%nat →
   mpi_log
     (final
        (tileSend_range2 FloatType host_num_ uninit target A i j
           (i1, i2, j1, j2) (i1', i2', j1', j2') s))
   = mpi_log s).
Proof.
  assert (tileIsLocal A i j = false →
          set_mem (mpi_rank_ A) (set_insert (tileRank A i j) []) = false)
    as Hown.
  { intros Hl. unfold tileIsLocal in Hl. simpl.
    rewrite Z.eqb_sym, Hl. done. }
  assert (∀ a b c d,
            (∀ r c', a ≤ r ≤ b → c ≤ c' ≤ d → tileIsLocal A r c' = false) →
            ∀ x, x ∈ range_cells (a, b, c, d) → tileIsLocal A x.1 x.2 = false)
    as Hcells.
  { intros a b c d H [r c'] Hx. apply elem_of_range_cells in Hx as [? ?].
    by apply H. }
  repeat split.
  - intros Hl H1. unfold tileSend_range.
    by rewrite outside_set; [|apply Hown|apply Hcells].
  - intros Hl H1 H2. unfold tileSend_range2.
    rewrite outside_set; [done| |by apply Hcells].
    apply outside_set; [by apply Hown|by apply Hcells].
  - intros Hlen. clear Hown Hcells. unfold tileSend_range.
    destruct (set_mem _ _); [|done].
    rewrite tileSend_finish_owner_only by done.
    destruct (negb (tileIsLocal A i j)); done.
  - intros Hlen. clear Hown Hcells. unfold tileSend_range2.
    destruct (set_mem _ _); [|done].
    rewrite tileSend_finish_owner_only by done.
    destruct (negb (tileIsLocal A i j)); [|done].
    unfold life_at. simpl.
    by destruct (lives A _ !! _).
Qed.

(** ** What the constructor puts in the registry *)

Lemma lower_local_entries_refl A s : lower_local_entries host_num_ A s s.
Proof. intros k. by left. Qed.

Lemma lower_local_entries_assign A s0 s i j p :
  lower_local_entries host_num_ A s0 s →
  0 ≤ j ≤ i → i < mt_ A → tileIsLocal A i j = true →
  lower_local_entries host_num_ A s0 (tile_assign A i j host_num_ p s).
Proof.
  intros H Hj Hi Hl k.
  destruct (decide (k = (it_ A + i, jt_ A + j, host_num_))) as [->|Hne].
  - right. by exists i, j.
  - rewrite tiles_tile_assign, lookup_insert_ne by done. apply H.
Qed.

Lemma copyTo_lower_local A a lda s :
  lower_local_entries host_num_ A s (copyTo FloatType host_num_ A a lda s).
Proof.
  unfold copyTo.
  apply (foldl_invariant
           (fun acc : Z * State => lower_local_entries host_num_ A s acc.2)).
  { apply lower_local_entries_refl. }
  intros [m s1] i Hi Hs1. apply elem_of_seqZ in Hi. simpl in Hs1.
  match goal with
  | |- context [foldl ?f ?x ?l] =>
      assert (lower_local_entries host_num_ A s (foldl f x l).2) as Hin;
      [|by destruct (foldl f x l)]
  end.
  apply (foldl_invariant
           (fun acc : Z * State => lower_local_entries host_num_ A s acc.2));
    [done|].
  intros [n s2] j Hj Hs2. apply elem_of_seqZ in Hj. simpl in *.
  destruct (tileIsLocal A i j) eqn:Hl; [|done].
  apply lower_local_entries_assign; (done || lia).
Qed.

Lemma random_tile_lower_local A s0 s i j :
  lower_local_entries host_num_ A s0 s →
  0 ≤ j ≤ i → i < mt_ A → tileIsLocal A i j = true →
  lower_local_entries host_num_ A s0
    (final (random_tile FloatType host_num_ uninit larnv add_at A i j s)).
Proof.
  intros H Hj Hi Hl. unfold random_tile, ColMajorTile_new.
  destruct (_ <? _)%nat; simpl; [done|].
  by apply (lower_local_entries_assign A s0 (incr_allocs s)).
Qed.

Lemma random_lower_local A s :
  lower_local_entries host_num_ A s
    (final (random FloatType host_num_ uninit larnv add_at A s)).
Proof.
  unfold random.
  apply (for_each_invariant (lower_local_entries host_num_ A s)).
  { apply lower_local_entries_refl. }
  intros i s1 Hi Hs1. apply elem_of_seqZ in Hi.
  apply (for_each_invariant (lower_local_entries host_num_ A s)); [done|].
  intros j s2 Hj Hs2. apply elem_of_seqZ in Hj.
  destruct (tileIsLocal A i j) eqn:Hl; [|done].
  apply random_tile_lower_local; (done || lia).
Qed.

Lemma foldl_count {X : Type} (f : X → bool) l acc :
  foldl (fun acc x => if f x then acc + 1 else acc) acc l =
  acc + Z.of_nat (length (List.filter f l)).
Proof.
  revert acc. induction l as [|x l IH]; intros acc; simpl; [lia|].
  rewrite IH. destruct (f x); simpl; lia.
Qed.

Lemma foldl_rows_count (f : Z * Z → bool) (cols : Z → list Z) rows acc :
  foldl
    (fun acc i =>
       foldl (fun acc j => if f (i, j) then acc + 1 else acc) acc (cols i))
    acc rows =
  acc +
  Z.of_nat
    (length
       (List.filter f (flat_map (fun i => (fun j => (i, j)) <$> cols i) rows))).
Proof.
  revert acc. induction rows as [|i rows IH]; intros acc; simpl; [lia|].
  rewrite IH, List.filter_app, length_app.
  rewrite <- (foldl_fmap (fun acc c => if f c then acc + 1 else acc)).
  rewrite foldl_count, Nat2Z.inj_add, Z.add_assoc. reflexivity.
Qed.

Lemma foldl_lower_triangle (f : Z * Z → bool) mt :
  foldl
    (fun acc i =>
       foldl (fun acc j => if f (i, j) then acc + 1 else acc) acc
         (seqZ 0 (i + 1)))
    0 (seqZ 0 mt) =
  Z.of_nat (length (List.filter f (lower_triangle mt))).
Proof.
  rewrite (foldl_rows_count f (fun i => seqZ 0 (i + 1))). apply Z.add_0_l.
Qed.

(** ** What the transport is given *)

(** Whatever the scalar type, [tileSend] hands [count] doubles to
    [MPI_Send]: the first [8 * count] bytes of the buffer of the tile. *)
Lemma tileSend_transfers_doubles A i j dest t s :
  tiles A s !! (it_ A + i, jt_ A + j, host_num_) = Some (Some t) →
  0 ≤ mb_ t * nb_ t →
  match tileSend host_num_ A i j dest s with
  | Ok s' =>
      s' =
        log_call
          (MPI_Send (take (Z.to_nat (8 * (mb_ t * nb_ t))) (data_ t))
             (mb_ t * nb_ t) MPI_DOUBLE dest) s ∧
      8 * (mb_ t * nb_ t) ≤ Z.of_nat (length (data_ t))
  | Fault e s' =>
      e = BufferOverrun ∧ s' = s ∧
      Z.of_nat (length (data_ t)) < 8 * (mb_ t * nb_ t)
  end.
Proof.
  intros Ht Hc. unfold tileSend. rewrite (tile_at_present _ _ _ _ _ _ Ht).
  destruct (Z.ltb_spec (mb_ t * nb_ t) 0) as [?|_]; [lia|].
  unfold read_buffer. simpl MPI_Type_size.
  replace (mb_ t * nb_ t * 8) with (8 * (mb_ t * nb_ t)) by lia.
  destruct (Nat.leb_spec (Z.to_nat (8 * (mb_ t * nb_ t))) (length (data_ t)));
    (split; [done|]); [lia | split; [done | lia]].
Qed.

(** The buffer of a block of the pool holds [mb * nb] elements. *)
Lemma ColMajorTile_new_length mb nb s :
  0 ≤ mb * nb →
  Z.of_nat (length (data_ (ColMajorTile_new FloatType host_num_ uninit mb nb s).1))
  = sizeof FloatType * (mb * nb).
Proof.
  intros H. simpl. rewrite length_resize.
  assert (0 < sizeof FloatType) by (destruct FloatType; simpl; lia). nia.
Qed.

(** ** The members of a broadcast *)

Lemma group_rank_member x (g : list Z) : x ∈ g → 0 ≤ group_rank x g.
Proof.
  induction g as [|y g IH]; intros Hx; [by inversion Hx|]. simpl.
  destruct (Z.eqb_spec x y) as [->|Hne]; [lia|].
  assert (x ∈ g) as Hg by (inversion Hx; by subst).
  specialize (IH Hg).
  destruct (Z.eqb_spec (group_rank x g) MPI_UNDEFINED) as [E|_];
    [unfold MPI_UNDEFINED in E; lia | lia].
Qed.

Lemma group_rank_inj x y (g : list Z) :
  x ∈ g → y ∈ g → group_rank x g = group_rank y g → x = y.
Proof.
  induction g as [|z g IH]; intros Hx Hy; [by inversion Hx|]. simpl.
  destruct (Z.eqb_spec x z) as [->|Hxz], (Z.eqb_spec y z) as [->|Hyz];
    [done | | |].
  - assert (y ∈ g) as Hg by (inversion Hy; by subst).
    pose proof (group_rank_member y g Hg).
    destruct (Z.eqb_spec (group_rank y g) MPI_UNDEFINED) as [E|_];
      unfold MPI_UNDEFINED in *; lia.
  - assert (x ∈ g) as Hg by (inversion Hx; by subst).
    pose proof (group_rank_member x g Hg).
    destruct (Z.eqb_spec (group_rank x g) MPI_UNDEFINED) as [E|_];
      unfold MPI_UNDEFINED in *; lia.
  - assert (x ∈ g) as Hgx by (inversion Hx; by subst).
    assert (y ∈ g) as Hgy by (inversion Hy; by subst).
    pose proof (group_rank_member x g Hgx).
    pose proof (group_rank_member y g Hgy).
    destruct (Z.eqb_spec (group_rank x g) MPI_UNDEFINED) as [E|_];
      [unfold MPI_UNDEFINED in E; lia|].
    destruct (Z.eqb_spec (group_rank y g) MPI_UNDEFINED) as [E|_];
      [unfold MPI_UNDEFINED in E; lia|].
    intros E. apply IH; [done..|lia].
Qed.

Lemma two_members (x y : Z) (l : list Z) :
  x ∈ l → y ∈ l → x ≠ y → length l ≠ 1%nat.
Proof.
  intros Hx Hy Hne Hlen. destruct l as [|z [|? ?]]; try done.
  apply list_elem_of_singleton in Hx, Hy. congruence.
Qed.

(** The owner of the tile is always in the set. *)
Lemma owner_in_set A i j range :
  tileRank A i j ∈
    tileSendFindRanks A i j range (set_insert (tileRank A i j) []).
Proof.
  apply set_mem_true, tileSendFindRanks_mem. left. simpl.
  by rewrite Z.eqb_refl.
Qed.

(** The life [tileSendFindLife] computes is the number of cells of the
    range that are local. *)
Lemma tileSendFindLife_count A i j range :
  tileSendFindLife A i j range =
  Z.of_nat
    (length (List.filter (fun c => tileIsLocal A c.1 c.2) (range_cells range))).
Proof.
  destruct range as [[[i1 i2] j1] j2]. unfold tileSendFindLife, range_cells.
  rewrite (foldl_rows_count (fun c => tileIsLocal A c.1 c.2)
             (fun _ => seqZ j1 (j2 - j1 + 1))).
  apply Z.add_0_l.
Qed.

(** ** The receiving side of a broadcast *)

Lemma write_buffer_whole (buf msg : list byte) :
  length msg = length buf → write_buffer buf msg = Some msg.
Proof.
  intros E. unfold write_buffer. rewrite E, Nat.leb_refl.
  by rewrite drop_all, app_nil_r.
Qed.

(** The transport step on a member of the set that does not own the tile
    and has a fresh host tile for it, with scalars of the size of a
    double: the bytes the broadcast delivers replace those of the tile. *)
Lemma tileSend_finish_receiver A i j S mb nb d0 wire s :
  tileIsLocal A i j = false →
  mpi_rank_ A ∈ S → tileRank A i j ∈ S →
  0 ≤ mb * nb →
  tiles A s !! (it_ A + i, jt_ A + j, host_num_) =
    Some (Some (mkTile mb nb mb d0 host_num_ false)) →
  length d0 = Z.to_nat (8 * (mb * nb)) →
  bcast_in s = [wire] →
  length wire = Z.to_nat (8 * (mb * nb)) →
  ∃ s',
    tileSend_finish FloatType host_num_ Host A i j S s = Ok s' ∧
    tiles A s' !! (it_ A + i, jt_ A + j, host_num_) =
      Some (Some (mkTile mb nb mb wire host_num_ false)) ∧
    lives A s' = lives A s ∧
    bcast_in s' = [].
Proof.
  intros Hl Hin Hroot Hcount Ht Hd0 Hq Hwire.
  assert (mpi_rank_ A ≠ tileRank A i j) as Hne.
  { unfold tileIsLocal in Hl. apply Z.eqb_neq in Hl. congruence. }
  unfold tileSend_finish, tileSend_bcast.
  destruct (Z.eqb_spec (Z.of_nat (length S)) 1) as [E|_].
  { exfalso. apply (two_members _ _ S Hin Hroot Hne). lia. }
  rewrite (proj2 (set_mem_true _ _) Hin). cbn [negb].
  set (s4 := log_call _ (log_call _ (log_call _ (log_call _ s)))).
  assert (tiles A s4 = tiles A s) as Ht4 by done.
  assert (lives A s4 = lives A s) as Hl4 by done.
  assert (bcast_in s4 = [wire]) as Hq4 by done.
  clearbody s4.
  rewrite (tile_at_present A i j host_num_
             (Some (mkTile mb nb mb d0 host_num_ false)) s4)
    by (by rewrite Ht4).
  unfold tile_MPI_Bcast. cbn [mb_ nb_ data_ stride_ device_num_ origin_].
  destruct (Z.ltb_spec (mb * nb) 0) as [?|_]; [lia|].
  pose proof (group_rank_member _ _ Hroot) as Hr0.
  destruct (Z.eqb_spec (group_rank (tileRank A i j) S) MPI_UNDEFINED)
    as [E|_]; [unfold MPI_UNDEFINED in E; lia|].
  cbn [orb].
  destruct (Z.eqb_spec (group_rank (mpi_rank_ A) S)
              (group_rank (tileRank A i j) S)) as [E|_].
  { exfalso. by apply Hne, (group_rank_inj _ _ S). }
  rewrite Hq4. simpl MPI_Type_size.
  replace (mb * nb * 8) with (8 * (mb * nb)) by lia.
  rewrite Hwire, Nat.eqb_refl. cbn [negb].
  rewrite write_buffer_whole by congruence.
  cbn [bind]. eexists. split; [done|]. split; [|split].
  - match goal with
    | |- tiles A (log_call _ (log_call _ ?s0)) !! _ = _ =>
        change (tiles A s0 !! (it_ A + i, jt_ A + j, host_num_) =
                Some (Some (mkTile mb nb mb wire host_num_ false)))
    end.
    by rewrite tiles_tile_assign, lookup_insert_eq.
  - by rewrite <- Hl4.
  - done.
Qed.

(** A member of the set that does not own the tile, with scalars of the
    size of a double: the call returns, the host entry of the tile holds
    the bytes the broadcast delivered, and the life is the number of cells
    of the range that the rank owns. *)
Lemma tileSend_range_receiver A i j range wire s :
  sizeof FloatType = 8 →
  tileIsLocal A i j = false →
  mpi_rank_ A ∈
    tileSendFindRanks A i j range (set_insert (tileRank A i j) []) →
  0 ≤ tileMb A i * tileNb A j →
  bcast_in s = [wire] →
  length wire = Z.to_nat (8 * (tileMb A i * tileNb A j)) →
  ∃ s',
    tileSend_range FloatType host_num_ uninit Host A i j range s = Ok s' ∧
    tiles A s' !! (it_ A + i, jt_ A + j, host_num_) =
      Some
        (Some
           (mkTile (tileMb A i) (tileNb A j) (tileMb A i) wire host_num_
              false)) ∧
    lives A s' !! (it_ A + i, jt_ A + j) =
      Some
        (Z.of_nat
           (length
              (List.filter (fun c => tileIsLocal A c.1 c.2)
                 (range_cells range)))) ∧
    bcast_in s' = [].
Proof.
  intros Hsz Hl Hin Hcount Hq Hwire.
  pose proof (owner_in_set A i j range) as Hroot.
  unfold tileSend_range.
  set (S := tileSendFindRanks A i j range (set_insert (tileRank A i j) []))
    in *.
  rewrite (proj2 (set_mem_true _ _) Hin), Hl. cbn [negb].
  unfold ColMajorTile_new.
  set (d0 := resize (Z.to_nat (sizeof FloatType * (tileMb A i * tileNb A j)))
               x00 (uninit (allocs s))).
  set (s1 := life_assign A i j (tileSendFindLife A i j range)
               (tile_assign A i j host_num_
                  (Some (mkTile (tileMb A i) (tileNb A j) (tileMb A i) d0
                           host_num_ false))
                  (incr_allocs s))).
  destruct (tileSend_finish_receiver A i j S (tileMb A i) (tileNb A j) d0
              wire s1) as (s' & Hrun & Htile & Hlife & Hq');
    try done.
  { subst s1. unfold life_assign. rewrite tiles_update_lives.
    by rewrite tiles_tile_assign, lookup_insert_eq. }
  { subst d0. by rewrite length_resize, Hsz. }
  exists s'. split; [done|]. split; [done|]. split; [|done].
  rewrite Hlife. subst s1.
  rewrite lives_life_assign, lookup_insert_eq.
  by rewrite (tileSendFindLife_count A i j).
Qed.

(** The same for the overload with two ranges: the life is the sum of the
    counts of the two ranges. *)
Lemma tileSend_range2_receiver A i j range1 range2 wire s :
  sizeof FloatType = 8 →
  tileIsLocal A i j = false →
  mpi_rank_ A ∈
    tileSendFindRanks A i j range2
      (tileSendFindRanks A i j range1 (set_insert (tileRank A i j) [])) →
  0 ≤ tileMb A i * tileNb A j →
  bcast_in s = [wire] →
  length wire = Z.to_nat (8 * (tileMb A i * tileNb A j)) →
  ∃ s',
    tileSend_range2 FloatType host_num_ uninit Host A i j range1 range2 s
    = Ok s' ∧
    tiles A s' !! (it_ A + i, jt_ A + j, host_num_) =
      Some
        (Some
           (mkTile (tileMb A i) (tileNb A j) (tileMb A i) wire host_num_
              false)) ∧
    lives A s' !! (it_ A + i, jt_ A + j) =
      Some
        (Z.of_nat
           (length
              (List.filter (fun c => tileIsLocal A c.1 c.2)
                 (range_cells range1))) +
         Z.of_nat
           (length
              (List.filter (fun c => tileIsLocal A c.1 c.2)
                 (range_cells range2)))) ∧
    bcast_in s' = [].
Proof.
  intros Hsz Hl Hin Hcount Hq Hwire.
  assert (tileRank A i j ∈
            tileSendFindRanks A i j range2
              (tileSendFindRanks A i j range1
                 (set_insert (tileRank A i j) []))) as Hroot.
  { apply set_mem_true, tileSendFindRanks_mem. left.
    apply set_mem_true, owner_in_set. }
  unfold tileSend_range2.
  set (S := tileSendFindRanks A i j range2 _) in *.
  rewrite (proj2 (set_mem_true _ _) Hin), Hl. cbn [negb].
  unfold ColMajorTile_new.
  set (d0 := resize (Z.to_nat (sizeof FloatType * (tileMb A i * tileNb A j)))
               x00 (uninit (allocs s))).
  set (s2 := life_assign A i j (tileSendFindLife A i j range1)
               (tile_assign A i j host_num_
                  (Some (mkTile (tileMb A i) (tileNb A j) (tileMb A i) d0
                           host_num_ false))
                  (incr_allocs s))).
  assert (lives A s2 !! (it_ A + i, jt_ A + j)
          = Some (tileSendFindLife A i j range1)) as Hl2.
  { subst s2. by rewrite lives_life_assign, lookup_insert_eq. }
  unfold life_at. rewrite Hl2.
  destruct (tileSend_finish_receiver A i j S (tileMb A i) (tileNb A j) d0
              wire
              (life_assign A i j
                 (tileSendFindLife A i j range1 +
                  tileSendFindLife A i j range2) s2))
    as (s' & Hrun & Htile & Hlife & Hq');
    try done.
  { subst s2. unfold life_assign. rewrite !tiles_update_lives.
    by rewrite tiles_tile_assign, lookup_insert_eq. }
  { subst d0. by rewrite length_resize, Hsz. }
  exists s'. split; [done|]. split; [done|]. split; [|done].
  rewrite Hlife, lives_life_assign, lookup_insert_eq.
  by rewrite !(tileSendFindLife_count A i j).
Qed.

(** The same seen from the world: with scalars of the size of a double, a
    member of the set other than the owner ends with a host entry that has
    the bytes of the tile of the owner, and with the life counted. *)
Lemma tile_bcast_world_receiver (A : Z → Matrix) i j range w r t :
  sizeof FloatType = 8 →
  let root := tileRank (A r) i j in
  it_ (A root) = it_ (A r) → jt_ (A root) = jt_ (A r) →
  mpi_rank_ (A r) = r → r ≠ root →
  r ∈ tileSendFindRanks (A r) i j range (set_insert root []) →
  tiles (A root) (w root) !! (it_ (A r) + i, jt_ (A r) + j, host_num_) =
    Some (Some t) →
  mb_ t = tileMb (A r) i → nb_ t = tileNb (A r) j →
  0 ≤ mb_ t * nb_ t →
  Z.of_nat (length (data_ t)) = 8 * (mb_ t * nb_ t) →
  bcast_in (w r) = [] →
  ∃ s',
    tile_bcast_world FloatType host_num_ uninit Host A i j range w r = Ok s' ∧
    tiles (A r) s' !! (it_ (A r) + i, jt_ (A r) + j, host_num_) =
      Some (Some (mkTile (mb_ t) (nb_ t) (mb_ t) (data_ t) host_num_ false)) ∧
    lives (A r) s' !! (it_ (A r) + i, jt_ (A r) + j) =
      Some
        (Z.of_nat
           (length
              (List.filter (fun c => tileIsLocal (A r) c.1 c.2)
                 (range_cells range)))).
Proof.
  intros Hsz root Hit Hjt Hrank Hne Hin Ht Hmb Hnb Hcount Hlen Hq.
  unfold tile_bcast_world. fold root.
  set (S := tileSendFindRanks (A r) i j range (set_insert root [])) in *.
  assert (tile_payload host_num_ (A root) i j (w root) = Some (data_ t))
    as ->.
  { unfold tile_payload. rewrite Hit, Hjt, Ht. unfold read_buffer.
    simpl MPI_Type_size.
    assert (Z.to_nat (mb_ t * nb_ t * 8) = length (data_ t)) as -> by lia.
    by rewrite Nat.leb_refl, firstn_all. }
  assert (set_mem r S && negb (r =? root) &&
          negb (Z.of_nat (length S) =? 1) = true) as ->.
  { rewrite (proj2 (set_mem_true _ _) Hin).
    destruct (Z.eqb_spec r root); [done|].
    destruct (Z.eqb_spec (Z.of_nat (length S)) 1) as [E|_]; [|done].
    exfalso.
    apply (two_members r root S Hin (owner_in_set (A r) i j range) Hne).
    lia. }
  rewrite Hq. cbn [app].
  destruct (tileSend_range_receiver (A r) i j range (data_ t)
              (set_bcast_in [data_ t] (w r)))
    as (s' & Hs' & Htile & Hlife & _); try done.
  - unfold tileIsLocal. rewrite Hrank. apply Z.eqb_neq. by fold root.
  - by rewrite Hrank.
  - by rewrite <- Hmb, <- Hnb.
  - rewrite <- Hmb, <- Hnb. lia.
  - exists s'. by rewrite Hmb, Hnb.
Qed.

(** ** The gather to rank 0 *)

Lemma for_each_app {X : Type} (l1 l2 : list X) body s :
  for_each (l1 ++ l2) body s = for_each l1 body s >>= for_each l2 body.
Proof.
  revert s. induction l1 as [|x l1 IH]; intros s; simpl; [done|].
  destruct (body x s) as [s1|e s1]; simpl; [apply IH | done].
Qed.

Lemma for_each_fmap {X Y : Type} (g : X → Y) (l : list X) body s :
  for_each (g <$> l) body s = for_each l (fun x => body (g x)) s.
Proof.
  revert s. induction l as [|x l IH]; intros s; simpl; [done|].
  destruct (body (g x) s) as [s1|e s1]; simpl; [apply IH | done].
Qed.

Lemma for_each_flat_map {X Y : Type} (f : X → list Y) (l : list X) body s :
  for_each (flat_map f l) body s = for_each l (fun x => for_each (f x) body) s.
Proof.
  revert s. induction l as [|x l IH]; intros s; simpl; [done|].
  rewrite for_each_app.
  destruct (for_each (f x) body s) as [s1|e s1]; simpl; [apply IH | done].
Qed.

Lemma for_each_ext {X : Type} (l : list X) body1 body2 s :
  (∀ x s, body1 x s = body2 x s) → for_each l body1 s = for_each l body2 s.
Proof.
  intros H. revert s. induction l as [|x l IH]; intros s; simpl; [done|].
  rewrite H. destruct (body2 x s) as [s1|e s1]; simpl; [apply IH | done].
Qed.

(** [gather()] is one loop over the positions it visits. *)
Lemma gather_cells_loop A s :
  gather FloatType host_num_ uninit A s =
  for_each (gather_cells (mt_ A) (nt_ A))
    (fun c => gather_tile FloatType host_num_ uninit A c.1 c.2) s.
Proof.
  unfold gather, gather_cells. rewrite for_each_flat_map.
  apply for_each_ext. intros i s'. by rewrite for_each_fmap.
Qed.

Lemma log_calls_nil s : log_calls [] s = s.
Proof. destruct s. unfold log_calls; simpl. by rewrite app_nil_r. Qed.

Lemma log_calls_app a b s : log_calls b (log_calls a s) = log_calls (a ++ b) s.
Proof. unfold log_calls; simpl. by rewrite app_assoc. Qed.

Lemma sent_to_app dest a b : sent_to dest (a ++ b) = sent_to dest a ++ sent_to dest b.
Proof. unfold sent_to. apply flat_map_app. Qed.

(** A rank other than 0 sends its local tiles among the positions visited,
    in the order of the visit, and changes nothing else. *)
Lemma gather_sender_loop A cells s :
  (mpi_rank_ A =? 0) = false →
  (∀ c, c ∈ cells → tileIsLocal A c.1 c.2 = true →
     ∃ t, tiles A s !! (it_ A + c.1, jt_ A + c.2, host_num_) = Some (Some t) ∧
          0 ≤ mb_ t * nb_ t ∧
          8 * (mb_ t * nb_ t) ≤ Z.of_nat (length (data_ t))) →
  ∃ new,
    for_each cells (fun c => gather_tile FloatType host_num_ uninit A c.1 c.2) s
    = Ok (log_calls new s) ∧
    Forall (fun call => ∃ p n, call = MPI_Send p n MPI_DOUBLE 0) new ∧
    sent_to 0 new =
      (fun c => default [] (tile_payload host_num_ A c.1 c.2 s)) <$>
      List.filter (fun c => tileIsLocal A c.1 c.2) cells.
Proof.
  intros Hrank. revert s. induction cells as [|c cells IH]; intros s Hres.
  { exists []. simpl. by rewrite log_calls_nil. }
  simpl. unfold gather_tile at 1. rewrite Hrank.
  destruct (tileIsLocal A c.1 c.2) eqn:Hl.
  - destruct (Hres c ltac:(left) Hl) as (t & Ht & Hc & Hlen).
    pose proof (tileSend_transfers_doubles A c.1 c.2 0 t s Ht Hc) as Hsend.
    destruct (tileSend host_num_ A c.1 c.2 0 s) as [s1|e s1];
      [|destruct Hsend as (_ & _ & ?); lia].
    destruct Hsend as [-> _]. cbn [bind].
    set (call := MPI_Send _ _ _ _).
    destruct (IH (log_call call s)) as (new & Hrun & Hall & Hsent).
    { intros c' Hc' Hl'. apply Hres; [by right | done]. }
    exists (call :: new). split; [|split].
    + rewrite Hrun. f_equal. apply (log_calls_app [call] new s).
    + constructor; [by eexists _, _ | done].
    + change (call :: new) with ([call] ++ new).
      rewrite sent_to_app, Hsent. simpl. f_equal.
      unfold tile_payload, read_buffer. rewrite Ht. simpl MPI_Type_size.
      replace (mb_ t * nb_ t * 8) with (8 * (mb_ t * nb_ t)) by lia.
      destruct (Nat.leb_spec (Z.to_nat (8 * (mb_ t * nb_ t)))
                  (length (data_ t))); [done | lia].
  - cbn [bind]. apply IH. intros c' Hc' Hl'. apply Hres; [by right | done].
Qed.

(** With scalars of the size of a double, [tileRecv] stores the oldest
    message of the source in a new host tile. *)
Lemma tileRecv_whole A i j src msg rest s :
  sizeof FloatType = 8 →
  0 ≤ tileMb A i * tileNb A j →
  p2p_in s !! src = Some (msg :: rest) →
  length msg = Z.to_nat (8 * (tileMb A i * tileNb A j)) →
  ∃ s',
    tileRecv FloatType host_num_ uninit A i j src s = Ok s' ∧
    tiles A s' =
      <[(it_ A + i, jt_ A + j, host_num_) :=
          Some (mkTile (tileMb A i) (tileNb A j) (tileMb A i) msg host_num_
                  false)]> (tiles A s) ∧
    p2p_in s' = <[src := rest]> (p2p_in s) ∧
    mpi_log s' =
      mpi_log s ++ [MPI_Recv (tileMb A i * tileNb A j) MPI_DOUBLE src].
Proof.
  intros Hsz Hcount Hq Hmsg. unfold tileRecv, ColMajorTile_new.
  cbn [mb_ nb_ data_ stride_ device_num_ origin_].
  destruct (Z.ltb_spec (tileMb A i * tileNb A j) 0) as [?|_]; [lia|].
  set (t0 := mkTile _ _ _ _ _ _).
  assert (p2p_in (tile_assign A i j host_num_ (Some t0) (incr_allocs s))
          = p2p_in s) as -> by done.
  rewrite Hq. simpl MPI_Type_size.
  replace (tileMb A i * tileNb A j * 8) with (8 * (tileMb A i * tileNb A j))
    by lia.
  rewrite <- Hmsg, Nat.ltb_irrefl.
  rewrite write_buffer_whole by (by rewrite length_resize, Hsz).
  eexists. split; [done|]. split; [|done].
  rewrite tiles_tile_assign.
  match goal with
  | |- context [tiles A (log_call ?c (set_p2p_in ?f ?s0))] =>
      change (tiles A (log_call c (set_p2p_in f s0))) with (tiles A s0)
  end.
  by rewrite tiles_tile_assign, insert_insert_eq.
Qed.

(** Rank 0 receives the tiles it does not own among the positions visited,
    in the order of the visit, each from the queue of its owner, when the
    queues hold the messages [msgs] of these positions in that order. *)
Lemma gather_root_loop A (msgs : Z * Z → list byte) cells s :
  sizeof FloatType = 8 →
  (mpi_rank_ A =? 0) = true →
  NoDup cells →
  (∀ c, c ∈ cells → tileIsLocal A c.1 c.2 = false →
     0 ≤ tileMb A c.1 * tileNb A c.2 ∧
     length (msgs c) = Z.to_nat (8 * (tileMb A c.1 * tileNb A c.2))) →
  (∀ c, c ∈ cells → tileIsLocal A c.1 c.2 = false →
     p2p_in s !! tileRank A c.1 c.2 =
     Some
       (msgs <$>
        List.filter (fun c' => tileRank A c'.1 c'.2 =? tileRank A c.1 c.2)
          cells)) →
  ∃ s',
    for_each cells (fun c => gather_tile FloatType host_num_ uninit A c.1 c.2) s
    = Ok s' ∧
    (∀ c, c ∈ cells → tileIsLocal A c.1 c.2 = false →
       tiles A s' !! (it_ A + c.1, jt_ A + c.2, host_num_) =
       Some
         (Some
            (mkTile (tileMb A c.1) (tileNb A c.2) (tileMb A c.1) (msgs c)
               host_num_ false))) ∧
    (∀ k,
       (∀ c, c ∈ cells → tileIsLocal A c.1 c.2 = false →
          k ≠ (it_ A + c.1, jt_ A + c.2, host_num_)) →
       tiles A s' !! k = tiles A s !! k) ∧
    mpi_log s' =
      mpi_log s ++
      ((fun c =>
          MPI_Recv (tileMb A c.1 * tileNb A c.2) MPI_DOUBLE
            (tileRank A c.1 c.2)) <$>
       List.filter (fun c => negb (tileIsLocal A c.1 c.2)) cells).
Proof.
  intros Hsz Hrank. revert s.
  induction cells as [|c cells IH]; intros s Hnd Hsize Hq.
  { exists s. split; [done|]. split; [|split]; try done.
    - intros c Hc. by inversion Hc.
    - simpl. by rewrite app_nil_r. }
  apply NoDup_cons in Hnd as [Hc Hnd].
  simpl. unfold gather_tile at 1. rewrite Hrank.
  destruct (tileIsLocal A c.1 c.2) eqn:Hl; cbn [negb bind].
  - destruct (IH s Hnd) as (s' & Hrun & Htiles & Hframe & Hlog).
    { intros c' Hc' Hl'. apply Hsize; [by right | done]. }
    { intros c' Hc' Hl'. rewrite (Hq c') by (by right || done). simpl.
      unfold tileIsLocal in Hl, Hl'. apply Z.eqb_eq in Hl.
      apply Z.eqb_neq in Hl'.
      destruct (Z.eqb_spec (tileRank A c.1 c.2) (tileRank A c'.1 c'.2));
        [congruence | done]. }
    exists s'. split; [done|]. split; [|split; [|done]].
    + intros c' Hc' Hl'. apply Htiles; [|done].
      apply elem_of_cons in Hc' as [->|Hin]; [congruence | done].
    + intros k Hk. apply Hframe. intros c' Hc' Hl'. apply Hk; [by right|done].
  - destruct (Hsize c ltac:(left) Hl) as [Hcount Hmsg].
    pose proof (Hq c ltac:(left) Hl) as Hqc. simpl in Hqc.
    rewrite Z.eqb_refl in Hqc. simpl in Hqc.
    destruct (tileRecv_whole A c.1 c.2 (tileRank A c.1 c.2) (msgs c) _ s
                Hsz Hcount Hqc Hmsg) as (s1 & -> & Ht1 & Hq1 & Hlog1).
    cbn [bind].
    destruct (IH s1 Hnd) as (s' & Hrun & Htiles & Hframe & Hlog).
    { intros c' Hc' Hl'. apply Hsize; [by right | done]. }
    { intros c' Hc' Hl'. rewrite Hq1.
      destruct (decide (tileRank A c.1 c.2 = tileRank A c'.1 c'.2)) as [E|E].
      - rewrite E, lookup_insert_eq. done.
      - rewrite lookup_insert_ne by done.
        rewrite (Hq c') by (by right || done). simpl.
        by destruct (Z.eqb_spec (tileRank A c.1 c.2) (tileRank A c'.1 c'.2)). }
    exists s'. split; [done|]. split; [|split].
    + intros c' Hc' Hl'. apply elem_of_cons in Hc' as [->|Hin].
      * rewrite Hframe, Ht1; [by rewrite lookup_insert_eq|].
        intros c'' Hc'' _ E. inversion E.
        assert (c = c'') as -> by (destruct c, c''; simpl in *; f_equal; lia).
        done.
      * by apply Htiles.
    + intros k Hk. rewrite Hframe.
      * rewrite Ht1, lookup_insert_ne; [done|].
        intros <-. by apply (Hk c); [left | |].
      * intros c' Hc' Hl'. apply Hk; [by right | done].
    + rewrite Hlog, Hlog1, <- app_assoc. done.
Qed.

Lemma NoDup_cells (cols : Z → list Z) rows :
  NoDup rows → (∀ i, NoDup (cols i)) →
  NoDup (flat_map (fun i => (fun j => (i, j)) <$> cols i) rows).
Proof.
  intros Hrows Hcols. induction rows as [|i rows IH]; simpl; [constructor|].
  apply NoDup_cons in Hrows as [Hi Hrows]. apply NoDup_app. split; [|split].
  - apply (NoDup_fmap_2 _), Hcols.
  - intros c Hc Hc'. apply list_elem_of_fmap in Hc as (j & -> & _).
    apply list_elem_of_In, in_flat_map in Hc' as (i' & Hi' & Hj).
    apply list_elem_of_In in Hi', Hj.
    apply list_elem_of_fmap in Hj as (j' & E & _). inversion E; subst. done.
  - by apply IH.
Qed.

Lemma NoDup_gather_cells mt nt : NoDup (gather_cells mt nt).
Proof.
  apply (NoDup_cells (fun i => seqZ 0 (Z.min (i + 1) nt))).
  - apply NoDup_seqZ.
  - intros i. apply NoDup_seqZ.
Qed.

Lemma inbox_lookup_notin (f : Z → list (list byte))
    (q0 : gmap Z (list (list byte))) l r :
  r ∉ l →
  foldr (fun r q => <[r := default [] (q !! r) ++ f r]> q) q0 l !! r = q0 !! r.
Proof.
  induction l as [|x l IH]; intros Hr; simpl; [done|].
  apply not_elem_of_cons in Hr as [Hne Hr].
  rewrite lookup_insert_ne by done. by apply IH.
Qed.

Lemma inbox_lookup (f : Z → list (list byte))
    (q0 : gmap Z (list (list byte))) l r :
  NoDup l → r ∈ l →
  foldr (fun r q => <[r := default [] (q !! r) ++ f r]> q) q0 l !! r =
  Some (default [] (q0 !! r) ++ f r).
Proof.
  induction l as [|x l IH]; intros Hnd Hr; [by inversion Hr|]. simpl.
  apply NoDup_cons in Hnd as [Hx Hnd].
  destruct (decide (r = x)) as [->|Hne].
  - by rewrite lookup_insert_eq, inbox_lookup_notin.
  - rewrite lookup_insert_ne by done. apply IH; [done|].
    apply elem_of_cons in Hr as [?|?]; done.
Qed.

Lemma fmap_filter_ext {X Y : Type} (f g : X → Y) (P : X → bool) l :
  (∀ x, P x = true → f x = g x) →
  f <$> List.filter P l = g <$> List.filter P l.
Proof.
  intros H. induction l as [|x l IH]; simpl; [done|].
  destruct (P x) eqn:E; [|done]. rewrite !fmap_cons. by rewrite IH, H.
Qed.

Lemma filter_ext_bool {X : Type} (P Q : X → bool) l :
  (∀ x, P x = Q x) → List.filter P l = List.filter Q l.
Proof.
  intros H. induction l as [|x l IH]; simpl; [done|]. by rewrite H, IH.
Qed.

Lemma whole_double_tile_true mb nb p :
  whole_double_tile mb nb p = true →
  ∃ t, p = Some (Some t) ∧ mb_ t = mb ∧ nb_ t = nb ∧ 0 ≤ mb_ t * nb_ t ∧
       Z.of_nat (length (data_ t)) = 8 * (mb_ t * nb_ t).
Proof.
  destruct p as [[t|]|]; try done. unfold whole_double_tile.
  rewrite !andb_true_iff. intros [[[? ?] ?] ?]. exists t.
  split_and!; [done|lia..].
Qed.

Lemma same_matrix_refl A : same_matrix A A.
Proof. by repeat split. Qed.

Lemma same_matrix_view A B i j :
  same_matrix A B →
  tileRank A i j = tileRank B i j ∧ tileMb A i = tileMb B i ∧
  tileNb A j = tileNb B j ∧
  (∀ d : Z, (it_ A + i, jt_ A + j, d) = (it_ B + i, jt_ B + j, d)).
Proof.
  intros (Hi & Hj & _ & _ & Hr & Hm & Hn).
  unfold tileRank, tileMb, tileNb. by rewrite Hi, Hj, Hr, Hm, Hn.
Qed.

(** With scalars of the size of a double, when every rank holds its tiles
    of the positions visited, each with the extents the distribution gives
    it, [gather()] returns on rank 0 with a host entry for every position
    visited that has the bytes of the tile of its owner; rank 0 has made
    one receive for each position it does not own, in the order of the
    visit. *)
Lemma gather_world_root (A : Z → Matrix) size w :
  sizeof FloatType = 8 →
  mpi_rank_ (A 0) = 0 →
  (∀ r, 0 < r < size → mpi_rank_ (A r) = r ∧ same_matrix (A r) (A 0)) →
  let cells := gather_cells (mt_ (A 0)) (nt_ (A 0)) in
  let owner := fun c : Z * Z => tileRank (A 0) c.1 c.2 in
  (∀ c, c ∈ cells → 0 ≤ owner c < size) →
  (∀ c, c ∈ cells →
     ∃ t,
       tiles (A (owner c)) (w (owner c))
         !! (it_ (A 0) + c.1, jt_ (A 0) + c.2, host_num_) = Some (Some t) ∧
       mb_ t = tileMb (A 0) c.1 ∧ nb_ t = tileNb (A 0) c.2 ∧
       0 ≤ mb_ t * nb_ t ∧
       Z.of_nat (length (data_ t)) = 8 * (mb_ t * nb_ t)) →
  p2p_in (w 0) = ∅ →
  ∃ s',
    gather_world FloatType host_num_ uninit A size w 0 = Ok s' ∧
    (∀ c, c ∈ cells →
       ∃ t t',
         tiles (A (owner c)) (w (owner c))
           !! (it_ (A 0) + c.1, jt_ (A 0) + c.2, host_num_) = Some (Some t) ∧
         tiles (A 0) s' !! (it_ (A 0) + c.1, jt_ (A 0) + c.2, host_num_) =
           Some (Some t') ∧
         data_ t' = data_ t ∧ mb_ t' = mb_ t ∧ nb_ t' = nb_ t) ∧
    mpi_log s' =
      mpi_log (w 0) ++
      ((fun c =>
          MPI_Recv (tileMb (A 0) c.1 * tileNb (A 0) c.2) MPI_DOUBLE (owner c))
       <$> List.filter (fun c => negb (tileIsLocal (A 0) c.1 c.2)) cells).
Proof.
  intros Hsz Hrank0 Hranks cells owner Hown Hres Hq0.
  assert (∀ r, 0 ≤ r < size → mpi_rank_ (A r) = r ∧ same_matrix (A r) (A 0))
    as Hall.
  { intros r Hr. destruct (decide (r = 0)) as [->|Hne].
    - split; [done | apply same_matrix_refl].
    - apply Hranks. lia. }
  set (msgs := fun c : Z * Z =>
         default [] (tile_payload host_num_ (A (owner c)) c.1 c.2
                       (w (owner c)))).
  assert (∀ c t, c ∈ cells →
            tiles (A (owner c)) (w (owner c))
              !! (it_ (A 0) + c.1, jt_ (A 0) + c.2, host_num_)
            = Some (Some t) →
            0 ≤ mb_ t * nb_ t →
            Z.of_nat (length (data_ t)) = 8 * (mb_ t * nb_ t) →
            msgs c = data_ t) as Hmsgs.
  { intros c t Hc Ht Hcount Hlen. unfold msgs, tile_payload.
    destruct (Hall (owner c) (Hown c Hc)) as [_ Hsame].
    destruct (same_matrix_view _ _ c.1 c.2 Hsame) as (_ & _ & _ & Hkey).
    rewrite Hkey, Ht. unfold read_buffer. simpl MPI_Type_size.
    assert (Z.to_nat (mb_ t * nb_ t * 8) = length (data_ t)) as -> by lia.
    by rewrite Nat.leb_refl, firstn_all. }
  assert (∀ c, tileIsLocal (A 0) c.1 c.2 = (owner c =? 0)) as Hlocal0.
  { intros c. unfold tileIsLocal. by rewrite Hrank0. }
  unfold gather_world. change (0 =? 0) with true. cbv iota.
  set (inbox := foldr _ _ _).
  rewrite gather_cells_loop. fold cells.
  destruct (gather_root_loop (A 0) msgs cells
              (set_p2p_in (fun _ => inbox) (w 0)))
    as (s' & Hrun & Htiles & Hframe & Hlog); try done.
  { by rewrite Hrank0. }
  { apply NoDup_gather_cells. }
  { intros c Hc Hl. destruct (Hres c Hc) as (t & Ht & Hmb & Hnb & Hcount & Hlen).
    rewrite (Hmsgs c t) by done. rewrite <- Hmb, <- Hnb. split; [done | lia]. }
  { intros c Hc Hl. rewrite Hlocal0 in Hl. apply Z.eqb_neq in Hl.
    pose proof (Hown c Hc) as Hr. fold (owner c).
    destruct (Hall (owner c) Hr) as [Hrank Hsame].
    change (p2p_in (set_p2p_in (fun _ => inbox) (w 0))) with inbox.
    unfold inbox. rewrite inbox_lookup; [|apply NoDup_seqZ|apply elem_of_seqZ; lia].
    rewrite Hq0, lookup_empty. cbn [default app]. f_equal.
    rewrite gather_cells_loop.
    destruct Hsame as (Hi & Hj & Hmt & Hnt & Hrf & Hmf & Hnf).
    rewrite Hmt, Hnt. fold cells.
    destruct (gather_sender_loop (A (owner c)) cells (w (owner c)))
      as (new & -> & _ & Hsent).
    { rewrite Hrank. by apply Z.eqb_neq. }
    { intros c' Hc' Hl'. destruct (Hres c' Hc') as (t & Ht & _ & _ & ? & ?).
      unfold tileIsLocal, tileRank in Hl'.
      rewrite Hrank, Hi, Hj, Hrf in Hl'. apply Z.eqb_eq in Hl'.
      fold (tileRank (A 0) c'.1 c'.2) in Hl'. fold (owner c') in Hl'.
      rewrite Hl' in Ht. exists t. rewrite Hi, Hj. split; [done|]. lia. }
    cbn [final]. unfold log_calls. cbn [mpi_log].
    rewrite drop_app_length, Hsent.
    rewrite (filter_ext_bool _ (fun c' => owner c' =? owner c)).
    2:{ intros c'. unfold tileIsLocal, tileRank.
        by rewrite Hrank, Hi, Hj, Hrf. }
    apply fmap_filter_ext. intros c' E. apply Z.eqb_eq in E.
    change (owner c' = owner c) in E. unfold msgs. by rewrite E. }
  exists s'. split; [done|]. split; [|done].
  intros c Hc. destruct (Hres c Hc) as (t & Ht & Hmb & Hnb & Hcount & Hlen).
  exists t. destruct (tileIsLocal (A 0) c.1 c.2) eqn:Hl.
  - exists t. rewrite Hframe.
    + rewrite Hlocal0 in Hl. apply Z.eqb_eq in Hl.
      change (owner c = 0) in Hl. pose proof Ht as Ht0. rewrite Hl in Ht0.
      split; [exact Ht|]. split; [exact Ht0 | done].
    + intros c' Hc' Hl' E. inversion E.
      assert (c = c') as -> by (destruct c, c'; simpl in *; f_equal; lia).
      congruence.
  - eexists. split; [done|]. split; [by apply Htiles|].
    cbn [data_ mb_ nb_]. by rewrite (Hmsgs c t).
Qed.

(** * Further properties of the class *)

(** ** Moving tiles between the host and the devices *)

Lemma stream_index_ok_true A d :
  stream_index_ok A d = true ↔ 0 ≤ d < Z.of_nat (length (comm_stream_ A)).
Proof. unfold stream_index_ok. rewrite andb_true_iff. lia. Qed.

Lemma tiles_tiles_erase A i j d s :
  tiles A (tiles_erase A i j d s) = delete (it_ A + i, jt_ A + j, d) (tiles A s).
Proof. apply tiles_update_tiles. Qed.

(** The state [tileMoveToDevice] leaves when the tile is at the host and
    not at device [d]. *)
Lemma tileMoveToDevice_state A i j d t s :
  tiles A s !! (it_ A + i, jt_ A + j, host_num_) = Some (Some t) →
  tiles A s !! (it_ A + i, jt_ A + j, d) = None →
  0 ≤ d < Z.of_nat (length (comm_stream_ A)) →
  ∃ s',
    tileMoveToDevice FloatType host_num_ A i j d s = Ok s' ∧
    tiles A s' =
      delete (it_ A + i, jt_ A + j, host_num_)
        (<[(it_ A + i, jt_ A + j, d) := Some (Tile_copyTo FloatType t d)]>
           (tiles A s)) ∧
    life_maps s' = life_maps s ∧ mpi_log s' = mpi_log s.
Proof.
  intros Hhost Hdev Hd.
  assert (d ≠ host_num_) as Hne by (intros ->; congruence).
  unfold tileMoveToDevice.
  rewrite (proj2 (tile_found_false A i j d s) Hdev).
  rewrite (tile_at_present _ _ _ _ _ _ Hhost).
  rewrite (proj2 (stream_index_ok_true A d) Hd).
  erewrite (tile_at_present A i j host_num_ (Some t)).
  2:{ rewrite tiles_tile_assign, lookup_insert_ne by congruence. done. }
  eexists. split; [done|].
  by rewrite tiles_tiles_erase, tiles_tile_assign.
Qed.

(** X1: when tile (i, j) is at the host and not at device [d], and [d] has a
    communication stream, tileMoveToDevice(i, j, d) returns; the device
    entry is then the copy of the host tile, the host entry is gone, every
    other entry is as before, and neither the life table nor the transport
    was touched. *)
Theorem tileMoveToDevice_moves A i j d t s :
  tiles A s !! (it_ A + i, jt_ A + j, host_num_) = Some (Some t) →
  tiles A s !! (it_ A + i, jt_ A + j, d) = None →
  0 ≤ d < Z.of_nat (length (comm_stream_ A)) →
  ∃ s',
    tileMoveToDevice FloatType host_num_ A i j d s = Ok s' ∧
    tiles A s' !! (it_ A + i, jt_ A + j, d) =
      Some (Some (Tile_copyTo FloatType t d)) ∧
    tiles A s' !! (it_ A + i, jt_ A + j, host_num_) = None ∧
    (∀ k, k ≠ (it_ A + i, jt_ A + j, d) →
          k ≠ (it_ A + i, jt_ A + j, host_num_) →
          tiles A s' !! k = tiles A s !! k) ∧
    life_maps s' = life_maps s ∧ mpi_log s' = mpi_log s.
Proof.
  intros Hhost Hdev Hd.
  assert (d ≠ host_num_) as Hne by (intros ->; congruence).
  destruct (tileMoveToDevice_state A i j d t s Hhost Hdev Hd)
    as (s' & Hrun & Ht & Hl & Hm).
  exists s'. split; [done|]. rewrite Ht. split_and!.
  - rewrite lookup_delete_ne by congruence. apply lookup_insert_eq.
  - apply lookup_delete_eq.
  - intros k Hk1 Hk2. by rewrite lookup_delete_ne, lookup_insert_ne.
  - done.
  - done.
Qed.

(** The mirror: when the tile is at device [d] and not at the host. *)
Lemma tileMoveToHost_moves A i j d t s :
  tiles A s !! (it_ A + i, jt_ A + j, d) = Some (Some t) →
  tiles A s !! (it_ A + i, jt_ A + j, host_num_) = None →
  0 ≤ d < Z.of_nat (length (comm_stream_ A)) →
  ∃ s',
    tileMoveToHost FloatType host_num_ A i j d s = Ok s' ∧
    tiles A s' =
      delete (it_ A + i, jt_ A + j, d)
        (<[(it_ A + i, jt_ A + j, host_num_) :=
             Some (Tile_copyTo FloatType t host_num_)]> (tiles A s)) ∧
    life_maps s' = life_maps s ∧ mpi_log s' = mpi_log s.
Proof.
  intros Hdev Hhost Hd.
  assert (d ≠ host_num_) as Hne by (intros ->; congruence).
  unfold tileMoveToHost.
  rewrite (proj2 (tile_found_false A i j host_num_ s) Hhost).
  rewrite (tile_at_present _ _ _ _ _ _ Hdev).
  rewrite (proj2 (stream_index_ok_true A d) Hd).
  erewrite (tile_at_present A i j d (Some t)).
  2:{ rewrite tiles_tile_assign, lookup_insert_ne by congruence. done. }
  eexists. split; [done|].
  by rewrite tiles_tiles_erase, tiles_tile_assign.
Qed.

(** Copying a copy gives the bytes of the tile again. *)
Lemma element_block_copy t location :
  stride_ t = mb_ t → 0 ≤ mb_ t → 0 ≤ nb_ t →
  Z.of_nat (length (data_ t)) = sizeof FloatType * (mb_ t * nb_ t) →
  element_block FloatType (Tile_copyTo FloatType t location) = data_ t.
Proof.
  intros Hs Hm Hn Hlen.
  rewrite (element_block_compact (Tile_copyTo FloatType t location));
    cbn [Tile_copyTo mb_ nb_ stride_ data_];
    rewrite ?(element_block_compact t); done.
Qed.

(** X2: a tile at the host whose columns are contiguous, moved to a device
    that does not have it and moved back, is at the host again with its
    extents and its bytes, and the device entry is gone; the other entries
    are as before. *)
Theorem move_to_device_and_back A i j d t s :
  tiles A s !! (it_ A + i, jt_ A + j, host_num_) = Some (Some t) →
  tiles A s !! (it_ A + i, jt_ A + j, d) = None →
  0 ≤ d < Z.of_nat (length (comm_stream_ A)) →
  stride_ t = mb_ t → 0 ≤ mb_ t → 0 ≤ nb_ t →
  Z.of_nat (length (data_ t)) = sizeof FloatType * (mb_ t * nb_ t) →
  ∃ s1 s2,
    tileMoveToDevice FloatType host_num_ A i j d s = Ok s1 ∧
    tileMoveToHost FloatType host_num_ A i j d s1 = Ok s2 ∧
    tiles A s2 !! (it_ A + i, jt_ A + j, host_num_) =
      Some (Some (mkTile (mb_ t) (nb_ t) (mb_ t) (data_ t) host_num_ false)) ∧
    tiles A s2 !! (it_ A + i, jt_ A + j, d) = None ∧
    (∀ k, k ≠ (it_ A + i, jt_ A + j, d) →
          k ≠ (it_ A + i, jt_ A + j, host_num_) →
          tiles A s2 !! k = tiles A s !! k).
Proof.
  intros Hhost Hdev Hd Hs Hm Hn Hlen.
  assert (d ≠ host_num_) as Hne by (intros ->; congruence).
  destruct (tileMoveToDevice_state A i j d t s Hhost Hdev Hd)
    as (s1 & Hrun1 & Ht1 & _).
  assert (tiles A s1 !! (it_ A + i, jt_ A + j, d) =
          Some (Some (Tile_copyTo FloatType t d))) as Hd1.
  { rewrite Ht1, lookup_delete_ne by congruence. apply lookup_insert_eq. }
  assert (tiles A s1 !! (it_ A + i, jt_ A + j, host_num_) = None) as Hh1.
  { rewrite Ht1. apply lookup_delete_eq. }
  assert (∀ k, k ≠ (it_ A + i, jt_ A + j, d) →
               k ≠ (it_ A + i, jt_ A + j, host_num_) →
               tiles A s1 !! k = tiles A s !! k) as Hframe1.
  { intros k Hk1 Hk2. by rewrite Ht1, lookup_delete_ne, lookup_insert_ne. }
  destruct (tileMoveToHost_moves A i j d _ s1 Hd1 Hh1 Hd)
    as (s2 & Hrun2 & Ht2 & _).
  exists s1, s2. split; [done|]. split; [done|]. rewrite Ht2. split_and!.
  - rewrite lookup_delete_ne by congruence. rewrite lookup_insert_eq.
    do 2 f_equal. unfold Tile_copyTo at 1. cbn [mb_ nb_]. f_equal.
    by apply element_block_copy.
  - apply lookup_delete_eq.
  - intros k Hk1 Hk2. rewrite lookup_delete_ne, lookup_insert_ne by done.
    by apply Hframe1.
Qed.

(** X3: a call of tileCopyToDevice, tileMoveToDevice or tileMoveToHost that
    has returned is not repeated by a second call with the same arguments:
    the second call returns the state the first one left. *)
Theorem tile_motion_not_repeated A i j d s s1 :
  (tileCopyToDevice FloatType host_num_ A i j d s = Ok s1 →
   tileCopyToDevice FloatType host_num_ A i j d s1 = Ok s1) ∧
  (tileMoveToDevice FloatType host_num_ A i j d s = Ok s1 →
   tileMoveToDevice FloatType host_num_ A i j d s1 = Ok s1) ∧
  (tileMoveToHost FloatType host_num_ A i j d s = Ok s1 →
   tileMoveToHost FloatType host_num_ A i j d s1 = Ok s1).
Proof.
  split_and!.
  - unfold tileCopyToDevice at 1.
    destruct (tile_found A i j d s) eqn:Hf.
    { intros [= <-]. unfold tileCopyToDevice. by rewrite Hf. }
    destruct (tile_at A i j host_num_ s) as [[t|] s0];
      destruct (stream_index_ok A d); try done.
    intros [= <-]. unfold tileCopyToDevice.
    rewrite (proj2 (tile_found_true _ _ _ _ _)); [done|].
    by rewrite tiles_tile_assign, lookup_insert_eq.
  - unfold tileMoveToDevice at 1.
    destruct (tile_found A i j d s) eqn:Hf.
    { intros [= <-]. unfold tileMoveToDevice. by rewrite Hf. }
    unfold tile_at at 1.
    destruct (tiles A s !! (it_ A + i, jt_ A + j, host_num_))
      as [[t|]|] eqn:Hh; destruct (stream_index_ok A d); try done.
    assert (d ≠ host_num_) as Hne.
    { intros ->. apply tile_found_false in Hf. congruence. }
    erewrite (tile_at_present A i j host_num_ (Some t)).
    2:{ rewrite tiles_tile_assign, lookup_insert_ne by congruence. done. }
    intros [= <-]. unfold tileMoveToDevice.
    rewrite (proj2 (tile_found_true _ _ _ _ _)); [done|].
    rewrite tiles_tiles_erase, tiles_tile_assign.
    rewrite lookup_delete_ne, lookup_insert_eq by congruence. done.
  - unfold tileMoveToHost at 1.
    destruct (tile_found A i j host_num_ s) eqn:Hf.
    { intros [= <-]. unfold tileMoveToHost. by rewrite Hf. }
    unfold tile_at at 1.
    destruct (tiles A s !! (it_ A + i, jt_ A + j, d))
      as [[t|]|] eqn:Hh; destruct (stream_index_ok A d); try done.
    assert (d ≠ host_num_) as Hne.
    { intros ->. apply tile_found_false in Hf. congruence. }
    erewrite (tile_at_present A i j d (Some t)).
    2:{ rewrite tiles_tile_assign, lookup_insert_ne by congruence. done. }
    intros [= <-]. unfold tileMoveToHost.
    rewrite (proj2 (tile_found_true _ _ _ _ _)); [done|].
    rewrite tiles_tiles_erase, tiles_tile_assign.
    rewrite lookup_delete_ne, lookup_insert_eq by congruence. done.
Qed.

(** X4: a tile that is neither at device [d] nor at the host -- no entry,
    or an entry that holds a null pointer -- cannot be copied or moved to
    [d]: both calls end in the dereference of a null pointer or at the
    index of a stream that does not exist, and do not return.  The same
    holds for tileMoveToHost when the tile is at neither place. *)
Theorem tile_motion_without_source A i j d s :
  tiles A s !! (it_ A + i, jt_ A + j, d) = None →
  mjoin (tiles A s !! (it_ A + i, jt_ A + j, host_num_)) = None →
  returns (tileCopyToDevice FloatType host_num_ A i j d s) = false ∧
  returns (tileMoveToDevice FloatType host_num_ A i j d s) = false ∧
  (tiles A s !! (it_ A + i, jt_ A + j, host_num_) = None →
   returns (tileMoveToHost FloatType host_num_ A i j d s) = false).
Proof.
  intros Hd Hh.
  unfold tileCopyToDevice, tileMoveToDevice, tileMoveToHost.
  rewrite (proj2 (tile_found_false A i j d s) Hd). unfold tile_at.
  split_and!.
  - destruct (tiles A s !! (it_ A + i, jt_ A + j, host_num_)) as [[t|]|];
      [done|..]; by destruct (stream_index_ok A d).
  - destruct (tiles A s !! (it_ A + i, jt_ A + j, host_num_)) as [[t|]|];
      [done|..]; by destruct (stream_index_ok A d).
  - intros Hnone. rewrite (proj2 (tile_found_false A i j host_num_ s) Hnone).
    rewrite Hd. by destruct (stream_index_ok A d).
Qed.

(** X5: tileErase(i, j, device) removes the entry of that location and no
    other, and touches neither the life table nor the transport; when the
    tile has no entry there it returns the state it was given, so erasing
    twice is erasing once. *)
Theorem tileErase_erases_one_entry A i j device s :
  let s' := tileErase A i j device s in
  tiles A s' !! (it_ A + i, jt_ A + j, device) = None ∧
  (∀ k, k ≠ (it_ A + i, jt_ A + j, device) →
        tiles A s' !! k = tiles A s !! k) ∧
  life_maps s' = life_maps s ∧ mpi_log s' = mpi_log s ∧
  (tiles A s !! (it_ A + i, jt_ A + j, device) = None → s' = s) ∧
  tileErase A i j device s' = s'.
Proof.
  intros s'. subst s'. rewrite tiles_tileErase.
  destruct (tileErase_frame A i j device s) as [Hl Hlog].
  assert (∀ s0, tiles A s0 !! (it_ A + i, jt_ A + j, device) = None →
                tileErase A i j device s0 = s0) as Habsent.
  { intros s0 H0. unfold tileErase.
    by rewrite (proj2 (tile_found_false A i j device s0) H0). }
  split_and!;
    [apply lookup_delete_eq | intros k Hk; by apply lookup_delete_ne
    | done | done | apply Habsent |].
  apply Habsent. rewrite tiles_tileErase. apply lookup_delete_eq.
Qed.

(** X6: the handle the constructor returns has a gemm stream, a
    communication stream, a cuBLAS handle and batch arrays for each of the
    devices 0 .. num_devices-1: each of its vectors has num_devices
    elements.  So a tile that is at the host and not at such a device [d]
    is copied there: tileCopyToDevice(i, j, d) returns with the copy of the
    host tile entered for [d] and the host entry as it was. *)
Theorem constructor_devices_have_streams
    m n a lda nb comm r sz p q D s0 i j d t s :
  let A :=
    (Matrix_new FloatType host_num_ uninit larnv add_at m n a lda nb comm r sz
       p q D s0).1 in
  (length (gemm_stream_ A) = Z.to_nat D ∧
   length (comm_stream_ A) = Z.to_nat D ∧
   length (cublas_handle_ A) = Z.to_nat D ∧
   length (a_array_h_ A) = Z.to_nat D ∧ length (b_array_h_ A) = Z.to_nat D ∧
   length (c_array_h_ A) = Z.to_nat D ∧ length (a_array_d_ A) = Z.to_nat D ∧
   length (b_array_d_ A) = Z.to_nat D ∧ length (c_array_d_ A) = Z.to_nat D) ∧
  (tiles A s !! (it_ A + i, jt_ A + j, host_num_) = Some (Some t) →
   tiles A s !! (it_ A + i, jt_ A + j, d) = None →
   0 ≤ d < D →
   ∃ s',
     tileCopyToDevice FloatType host_num_ A i j d s = Ok s' ∧
     tiles A s' !! (it_ A + i, jt_ A + j, d) =
       Some (Some (Tile_copyTo FloatType t d)) ∧
     tiles A s' !! (it_ A + i, jt_ A + j, host_num_) = Some (Some t)).
Proof.
  intros A.
  assert (∀ n k, length (device_handles D n k) = Z.to_nat D) as Hlen.
  { intros n' k. unfold device_handles. by rewrite length_fmap, length_seq. }
  split; [subst A; cbn [Matrix_new fst gemm_stream_ comm_stream_
    cublas_handle_ a_array_h_ b_array_h_ c_array_h_ a_array_d_ b_array_d_
    c_array_d_]; by rewrite !Hlen|].
  intros Hh Hd HD.
  assert (d ≠ host_num_) as Hne by (intros ->; congruence).
  unfold tileCopyToDevice.
  rewrite (proj2 (tile_found_false A i j d s) Hd).
  rewrite (tile_at_present _ _ _ _ _ _ Hh).
  rewrite (proj2 (stream_index_ok_true A d)).
  2:{ change (length (comm_stream_ A)) with (length (device_handles D 2 1)).
      rewrite Hlen. lia. }
  eexists. split; [reflexivity|]. rewrite tiles_tile_assign. split.
  - apply lookup_insert_eq.
  - rewrite lookup_insert_ne by congruence. done.
Qed.

(** ** The default distribution *)

(** X7: with the functions the constructor installs for a p x q grid, the
    owner of every tile (i, j) with i, j >= 0 is a rank of the grid,
    0 <= tileRank(i, j) < p*q, and its device is one of the devices
    0 .. num_devices-1 when there is a device, the host otherwise. *)
Theorem default_distribution_total m n a lda nb comm r sz p q D s0 i j :
  let A :=
    (Matrix_new FloatType host_num_ uninit larnv add_at m n a lda nb comm r sz
       p q D s0).1 in
  0 < p → 0 < q → 0 ≤ i → 0 ≤ j →
  0 ≤ tileRank A i j < p * q ∧
  (0 < D → 0 ≤ tileDevice A i j < D) ∧
  (D ≤ 0 → tileDevice A i j = host_num_).
Proof.
  intros A Hp Hq Hi Hj. subst A. unfold tileRank, tileDevice.
  cbn [it_ jt_ tileRankFunc tileDeviceFunc Matrix_new fst].
  rewrite !Z.add_0_l.
  pose proof (Z.rem_bound_pos i p Hi Hp).
  pose proof (Z.rem_bound_pos j q Hj Hq).
  split; [nia|]. split.
  - intros HD. destruct (Z.ltb_spec 0 D); [|lia].
    apply Z.rem_bound_pos; [|done]. apply Z.quot_pos; lia.
  - intros HD. by destruct (Z.ltb_spec 0 D); [lia|].
Qed.

(** X8: the distribution is block-cyclic.  On a rank r of the grid,
    0 <= r < p*q, the local tiles are those whose row is congruent to
    r mod p and whose column is congruent to r / p, modulo p and q; hence
    ownership repeats with the period p along the rows and q along the
    columns. *)
Theorem default_distribution_block_cyclic m n a lda nb comm r sz p q D s0 i j :
  let A :=
    (Matrix_new FloatType host_num_ uninit larnv add_at m n a lda nb comm r sz
       p q D s0).1 in
  0 < p → 0 < q → 0 ≤ r < p * q → 0 ≤ i → 0 ≤ j →
  (tileIsLocal A i j = true ↔
   Z.rem i p = Z.rem r p ∧ Z.rem j q = Z.quot r p) ∧
  tileRank A (i + p) j = tileRank A i j ∧
  tileRank A i (j + q) = tileRank A i j.
Proof.
  intros A Hp Hq Hr Hi Hj. subst A. unfold tileIsLocal, tileRank.
  cbn [it_ jt_ tileRankFunc mpi_rank_ Matrix_new fst].
  rewrite !Z.add_0_l.
  rewrite !Z.rem_mod_nonneg, !Z.quot_div_nonneg by lia.
  rewrite Z.eqb_eq.
  assert ((i + p) `mod` p = i `mod` p) as ->.
  { rewrite <- (Z.mul_1_l p) at 1. by rewrite Z.mod_add by lia. }
  assert ((j + q) `mod` q = j `mod` q) as ->.
  { rewrite <- (Z.mul_1_l q) at 1. by rewrite Z.mod_add by lia. }
  split; [|done].
  pose proof (Z.mod_pos_bound i p Hp). pose proof (Z.mod_pos_bound j q Hq).
  pose proof (Z.mod_pos_bound r p Hp).
  pose proof (Z.div_mod r p ltac:(lia)).
  split.
  - intros E. assert (r `div` p = j `mod` q) by nia. lia.
  - intros [E1 E2]. nia.
Qed.

(** X9: the constructor of an m x n matrix with tiles of nb x nb starts the
    view at tile (0, 0) and gives it ceil(m / nb) rows and ceil(n / nb)
    columns of tiles: mt_ is the least number with mt_ * nb >= m, and nt_
    likewise. *)
Theorem constructor_tile_counts m n a lda nb comm r sz p q D s0 :
  let A :=
    (Matrix_new FloatType host_num_ uninit larnv add_at m n a lda nb comm r sz
       p q D s0).1 in
  0 ≤ m → 0 ≤ n → 0 < nb →
  it_ A = 0 ∧ jt_ A = 0 ∧
  0 ≤ mt_ A ∧ m ≤ mt_ A * nb ∧
  (∀ k, 0 ≤ k → m ≤ k * nb → mt_ A ≤ k) ∧
  0 ≤ nt_ A ∧ n ≤ nt_ A * nb ∧
  (∀ k, 0 ≤ k → n ≤ k * nb → nt_ A ≤ k).
Proof.
  intros A Hm Hn Hnb. subst A. simpl.
  destruct (Z_quot_rem_pos m nb Hm Hnb) as (Em & Hrm & Hqm).
  destruct (Z_quot_rem_pos n nb Hn Hnb) as (En & Hrn & Hqn).
  split; [done|]. split; [done|].
  destruct (Z.eqb_spec (Z.rem m nb) 0), (Z.eqb_spec (Z.rem n nb) 0);
    (split_and!; [lia | nia | intros k ? ?; nia | lia | nia
                 | intros k ? ?; nia]).
Qed.

(** ** Counting the local tiles *)

Lemma elem_of_lower_triangle mt c :
  c ∈ lower_triangle mt ↔ 0 ≤ c.2 ≤ c.1 ∧ c.1 < mt.
Proof.
  unfold lower_triangle. rewrite list_elem_of_In, in_flat_map. split.
  - intros (i & Hi & Hc). apply list_elem_of_In in Hi, Hc.
    apply elem_of_seqZ in Hi. apply list_elem_of_fmap in Hc as (j & -> & Hj).
    apply elem_of_seqZ in Hj. simpl. lia.
  - intros [Hj Hi]. exists c.1. split; apply list_elem_of_In.
    + apply elem_of_seqZ. lia.
    + apply list_elem_of_fmap. exists c.2. split; [by destruct c|].
      apply elem_of_seqZ. lia.
Qed.

Lemma length_lower_triangle mt :
  0 ≤ mt → 2 * Z.of_nat (length (lower_triangle mt)) = mt * (mt + 1).
Proof.
  intros Hmt. rewrite <- (Z2Nat.id mt) by done.
  generalize (Z.to_nat mt) as k. clear. intros k.
  induction k as [|k IH]; [done|].
  unfold lower_triangle in *. rewrite seqZ_S, flat_map_app, length_app.
  simpl. rewrite app_nil_r, length_fmap, length_seqZ. lia.
Qed.

Lemma length_filter_le {X : Type} (P : X → bool) l :
  (length (List.filter P l) ≤ length l)%nat.
Proof. induction l as [|x l IH]; simpl; [done|]. destruct (P x); simpl; lia. Qed.

Lemma length_filter_andb_le {X : Type} (P Q : X → bool) l :
  (length (List.filter (fun x => P x && Q x) l) ≤ length (List.filter P l))%nat.
Proof.
  induction l as [|x l IH]; simpl; [done|].
  destruct (P x), (Q x); simpl; lia.
Qed.

Lemma sum_indicator (k : Z) (l : list Z) :
  NoDup l →
  foldr (fun d acc => (if k =? d then 1 else 0) + acc) 0 l =
  if bool_decide (k ∈ l) then 1 else 0.
Proof.
  induction l as [|d l IH]; intros Hnd; simpl; [done|].
  apply NoDup_cons in Hnd as [Hd Hnd]. rewrite IH by done.
  destruct (Z.eqb_spec k d) as [->|Hne].
  - rewrite (bool_decide_eq_false_2 _ Hd).
    by rewrite bool_decide_eq_true_2 by left.
  - destruct (decide (k ∈ l)) as [Hin|Hin].
    + rewrite !bool_decide_eq_true_2; [done | by right | done].
    + rewrite !bool_decide_eq_false_2; [done | | done].
      intros [?|?]%elem_of_cons; done.
Qed.

Lemma foldr_add_distr (f g : Z → Z) (ds : list Z) :
  foldr (fun d acc => (f d + g d) + acc) 0 ds =
  foldr (fun d acc => f d + acc) 0 ds + foldr (fun d acc => g d + acc) 0 ds.
Proof. induction ds as [|d ds IH]; simpl; lia. Qed.

Lemma count_by_device {X : Type} (P : X → bool) (dev : X → Z) (l : list X)
    (ds : list Z) :
  NoDup ds →
  (∀ x, x ∈ l → P x = true → dev x ∈ ds) →
  foldr
    (fun d acc =>
       Z.of_nat (length (List.filter (fun x => P x && (dev x =? d)) l)) + acc)
    0 ds =
  Z.of_nat (length (List.filter P l)).
Proof.
  intros Hnd. induction l as [|y l IH]; intros Hdev.
  - simpl. clear. induction ds as [|d ds IH]; simpl; lia.
  - transitivity
      (foldr
         (fun d acc =>
            ((if P y && (dev y =? d) then 1 else 0) +
             Z.of_nat
               (length (List.filter (fun x => P x && (dev x =? d)) l)))
            + acc) 0 ds).
    { apply foldr_ext; [|done..]. intros d acc. simpl.
      destruct (P y && (dev y =? d)); simpl; lia. }
    rewrite (foldr_add_distr (fun d => if P y && (dev y =? d) then 1 else 0)).
    rewrite IH by (intros x Hx; apply Hdev; by right). simpl.
    destruct (P y) eqn:HP; simpl.
    + rewrite (sum_indicator (dev y) ds Hnd).
      rewrite bool_decide_eq_true_2 by (apply Hdev; [left | done]). lia.
    + assert (foldr (fun (_ : Z) acc => 0 + acc) 0 ds = 0) as ->; [|lia].
      clear. induction ds as [|d ds IH]; simpl; lia.
Qed.

(** X10: getMaxDeviceTiles(d) never exceeds getMaxHostTiles(), which never
    exceeds the mt(mt+1)/2 positions of the lower triangle; and when every
    local tile of the lower triangle has its device among 0 .. D-1, the
    counts of these devices add up to getMaxHostTiles(). *)
Theorem device_tile_counts_add_up A D :
  (∀ d, 0 ≤ getMaxDeviceTiles A d ≤ getMaxHostTiles A) ∧
  (0 ≤ mt_ A → 2 * getMaxHostTiles A ≤ mt_ A * (mt_ A + 1)) ∧
  ((∀ i j, 0 ≤ j ≤ i → i < mt_ A → tileIsLocal A i j = true →
      0 ≤ tileDevice A i j < D) →
   foldr (fun d acc => getMaxDeviceTiles A d + acc) 0 (seqZ 0 D) =
   getMaxHostTiles A).
Proof.
  assert (∀ d, getMaxDeviceTiles A d =
               Z.of_nat
                 (length
                    (List.filter
                       (fun c => tileIsLocal A c.1 c.2 &&
                                 (tileDevice A c.1 c.2 =? d))
                       (lower_triangle (mt_ A))))) as Hdev.
  { intros d. unfold getMaxDeviceTiles.
    apply (foldl_lower_triangle
             (fun c => tileIsLocal A c.1 c.2 && (tileDevice A c.1 c.2 =? d))). }
  assert (getMaxHostTiles A =
          Z.of_nat
            (length
               (List.filter (fun c => tileIsLocal A c.1 c.2)
                  (lower_triangle (mt_ A))))) as Hhost.
  { unfold getMaxHostTiles.
    apply (foldl_lower_triangle (fun c => tileIsLocal A c.1 c.2)). }
  split_and!.
  - intros d. rewrite Hdev, Hhost. split; [lia|].
    apply Nat2Z.inj_le.
    apply (length_filter_andb_le (fun c => tileIsLocal A c.1 c.2)
             (fun c => tileDevice A c.1 c.2 =? d)).
  - intros Hmt. rewrite Hhost, <- length_lower_triangle by done.
    apply Z.mul_le_mono_nonneg_l; [lia|].
    apply Nat2Z.inj_le, length_filter_le.
  - intros Hrange. rewrite Hhost.
    rewrite <- (count_by_device (fun c => tileIsLocal A c.1 c.2)
                  (fun c => tileDevice A c.1 c.2) (lower_triangle (mt_ A))
                  (seqZ 0 D)).
    + apply foldr_ext; [|done..]. intros d acc. by rewrite Hdev.
    + apply NoDup_seqZ.
    + intros c Hc Hl. apply elem_of_lower_triangle in Hc.
      apply elem_of_seqZ.
      pose proof (Hrange c.1 c.2 ltac:(lia) ltac:(lia) Hl). lia.
Qed.

Lemma filter_all {X : Type} (P : X → bool) l :
  (∀ x, x ∈ l → P x = true) → List.filter P l = l.
Proof.
  induction l as [|x l IH]; intros H; simpl; [done|].
  rewrite (H x) by left. f_equal. apply IH. intros y Hy. apply H. by right.
Qed.

Lemma for_each_skip {X : Type} (l : list X) body s :
  (∀ x s, x ∈ l → body x s = Ok s) → for_each l body s = Ok s.
Proof.
  induction l as [|x l IH]; intros H; simpl; [done|].
  rewrite (H x) by left. simpl. apply IH. intros y s' Hy. apply H. by right.
Qed.

(** A rank that has nothing to receive and nothing to send -- rank 0 when
    it owns every tile visited, another rank when it owns none -- returns
    from gather() with the state it was given. *)
Lemma gather_nothing_to_do A s :
  (∀ c, c ∈ gather_cells (mt_ A) (nt_ A) →
        tileIsLocal A c.1 c.2 = (mpi_rank_ A =? 0)) →
  gather FloatType host_num_ uninit A s = Ok s.
Proof.
  intros H. rewrite gather_cells_loop. apply for_each_skip.
  intros c s' Hc. unfold gather_tile. rewrite (H c Hc).
  by destruct (mpi_rank_ A =? 0).
Qed.

(** X11: on a 1 x 1 grid every tile is local to rank 0, getMaxHostTiles()
    is the number mt(mt+1)/2 of tiles of the lower triangle, and gather()
    returns the state it was given, without any transport call. *)
Theorem single_rank_matrix m n a lda nb comm sz D s0 :
  let A :=
    (Matrix_new FloatType host_num_ uninit larnv add_at m n a lda nb comm 0 sz
       1 1 D s0).1 in
  (∀ i j, tileIsLocal A i j = true) ∧
  (0 ≤ mt_ A → 2 * getMaxHostTiles A = mt_ A * (mt_ A + 1)) ∧
  (∀ s, gather FloatType host_num_ uninit A s = Ok s).
Proof.
  intros A.
  assert (∀ i j, tileIsLocal A i j = true) as Hlocal.
  { intros i j. subst A. unfold tileIsLocal, tileRank.
    cbn [it_ jt_ tileRankFunc mpi_rank_ Matrix_new fst].
    by rewrite !Z.rem_1_r. }
  split_and!; [done | |].
  - intros Hmt. rewrite <- length_lower_triangle by done.
    unfold getMaxHostTiles.
    rewrite (foldl_lower_triangle (fun c => tileIsLocal A c.1 c.2)).
    by rewrite filter_all.
  - intros s. apply gather_nothing_to_do. intros c _. by rewrite Hlocal.
Qed.

(** ** Filling the matrix *)

Lemma seqZ_to_nat m n : seqZ m n = seqZ m (Z.of_nat (Z.to_nat n)).
Proof. unfold seqZ. by rewrite Nat2Z.id. Qed.

Lemma col_offset_S A (l : nat) :
  col_offset A (Z.of_nat (S l)) = col_offset A (Z.of_nat l) + tileNb A (Z.of_nat l).
Proof. unfold col_offset. by rewrite seqZ_S, foldl_snoc, Z.add_0_l. Qed.

Lemma row_offset_S A (k : nat) :
  row_offset A (Z.of_nat (S k)) = row_offset A (Z.of_nat k) + tileMb A (Z.of_nat k).
Proof. unfold row_offset. by rewrite seqZ_S, foldl_snoc, Z.add_0_l. Qed.

Lemma tile_key_inj A i j i' j' (d : Z) :
  (it_ A + i, jt_ A + j, d) = (it_ A + i', jt_ A + j', d) → i = i' ∧ j = j'.
Proof. intros [= ? ?]. lia. Qed.

(** The inner loop of [copyTo], over the first [l] columns of row [i]. *)
Lemma copyTo_row A a lda i m s (l : nat) :
  let r :=
    foldl
      (fun '(n, s) j =>
         (n + tileNb A j,
          if tileIsLocal A i j then
            tile_assign A i j host_num_
              (Some
                 (ColMajorTile_wrap host_num_ (tileMb A i) (tileNb A j)
                    (drop (Z.to_nat (sizeof FloatType * (lda * n + m))) a)
                    lda))
              s
          else s))
      (0, s) (seqZ 0 (Z.of_nat l)) in
  r.1 = col_offset A (Z.of_nat l) ∧
  (∀ j, 0 ≤ j < Z.of_nat l → tileIsLocal A i j = true →
     tiles A r.2 !! (it_ A + i, jt_ A + j, host_num_) =
     Some
       (Some
          (ColMajorTile_wrap host_num_ (tileMb A i) (tileNb A j)
             (drop
                (Z.to_nat (sizeof FloatType * (lda * col_offset A j + m))) a)
             lda))) ∧
  (∀ k, (∀ j, 0 ≤ j < Z.of_nat l → tileIsLocal A i j = true →
           k ≠ (it_ A + i, jt_ A + j, host_num_)) →
        tiles A r.2 !! k = tiles A s !! k).
Proof.
  induction l as [|l IH].
  { simpl. split; [done|]. split; [intros; lia | done]. }
  rewrite seqZ_S, foldl_snoc, Z.add_0_l. cbv zeta in IH |- *.
  destruct (foldl _ (0, s) (seqZ 0 (Z.of_nat l))) as [n s1].
  destruct IH as (Hn & Hin & Hout). simpl in Hn, Hin, Hout. subst n.
  cbn [fst snd]. split; [by rewrite col_offset_S|]. split.
  - intros j Hj Hl.
    destruct (decide (j = Z.of_nat l)) as [->|Hne].
    + rewrite Hl, tiles_tile_assign. apply lookup_insert_eq.
    + destruct (tileIsLocal A i (Z.of_nat l)).
      * rewrite tiles_tile_assign, lookup_insert_ne.
        { apply Hin; [lia | done]. }
        intros E. apply tile_key_inj in E. lia.
      * apply Hin; [lia | done].
  - intros k Hk.
    destruct (tileIsLocal A i (Z.of_nat l)) eqn:Hl.
    + rewrite tiles_tile_assign, lookup_insert_ne.
      { apply Hout. intros j Hj Hlj. apply Hk; [lia | done]. }
      intros <-. by apply (Hk (Z.of_nat l)); [lia | |].
    + apply Hout. intros j Hj Hlj. apply Hk; [lia | done].
Qed.

(** X12: copyTo(a, lda) enters, for every local tile (i, j) of the view
    with 0 <= j <= i < mt, a host tile of tileMb(i) x tileNb(j) elements
    that wraps the array of the caller from the element at row
    [row_offset i] and column [col_offset j] on, with the stride lda, and
    that is marked as an origin tile; it leaves every other entry of the
    registry as it was. *)
Theorem copyTo_wraps_local_tiles A a lda s :
  let s' := copyTo FloatType host_num_ A a lda s in
  (∀ i j, 0 ≤ j ≤ i → i < mt_ A → tileIsLocal A i j = true →
     tiles A s' !! (it_ A + i, jt_ A + j, host_num_) =
     Some
       (Some
          (mkTile (tileMb A i) (tileNb A j) lda
             (drop
                (Z.to_nat
                   (sizeof FloatType *
                    (lda * col_offset A j + row_offset A i))) a)
             host_num_ true))) ∧
  (∀ k, (∀ i j, 0 ≤ j ≤ i → i < mt_ A → tileIsLocal A i j = true →
           k ≠ (it_ A + i, jt_ A + j, host_num_)) →
        tiles A s' !! k = tiles A s !! k).
Proof.
  unfold copyTo. rewrite (seqZ_to_nat 0 (mt_ A)).
  assert (∀ i, 0 ≤ i → i < mt_ A → i < Z.of_nat (Z.to_nat (mt_ A))) as Hmt
    by (intros; lia).
  assert (∀ i, i < Z.of_nat (Z.to_nat (mt_ A)) → i < mt_ A ∨ i < 0) as Hmt'
    by (intros; lia).
  revert Hmt Hmt'. generalize (Z.to_nat (mt_ A)). intros rows Hmt Hmt'.
  assert (let r :=
         foldl
           (fun '(m, s) i =>
              let '(_, s') :=
                foldl
                  (fun '(n, s) j =>
                     (n + tileNb A j,
                      if tileIsLocal A i j then
                        tile_assign A i j host_num_
                          (Some
                             (ColMajorTile_wrap host_num_ (tileMb A i)
                                (tileNb A j)
                                (drop
                                   (Z.to_nat
                                      (sizeof FloatType * (lda * n + m))) a)
                                lda))
                          s
                      else s))
                  (0, s) (seqZ 0 (i + 1)) in
              (m + tileMb A i, s'))
           (0, s) (seqZ 0 (Z.of_nat rows)) in
       r.1 = row_offset A (Z.of_nat rows) ∧
       (∀ i j, 0 ≤ j ≤ i → i < Z.of_nat rows → tileIsLocal A i j = true →
          tiles A r.2 !! (it_ A + i, jt_ A + j, host_num_) =
          Some
            (Some
               (ColMajorTile_wrap host_num_ (tileMb A i) (tileNb A j)
                  (drop
                     (Z.to_nat
                        (sizeof FloatType *
                         (lda * col_offset A j + row_offset A i))) a)
                  lda))) ∧
       (∀ k, (∀ i j, 0 ≤ j ≤ i → i < Z.of_nat rows →
                tileIsLocal A i j = true →
                k ≠ (it_ A + i, jt_ A + j, host_num_)) →
             tiles A r.2 !! k = tiles A s !! k)) as Hloop.
  { clear Hmt Hmt'. induction rows as [|k IH].
    { simpl. split; [done|]. split; [intros; lia | done]. }
    rewrite seqZ_S, foldl_snoc, Z.add_0_l. cbv zeta in IH |- *.
    destruct (foldl _ (0, s) (seqZ 0 (Z.of_nat k))) as [m s1].
    destruct IH as (Hm & Hin & Hout). simpl in Hm, Hin, Hout. subst m.
    pose proof (copyTo_row A a lda (Z.of_nat k) (row_offset A (Z.of_nat k)) s1
                  (S k)) as Hrow.
    cbv zeta in Hrow. cbn [fst snd].
    replace (Z.of_nat k + 1) with (Z.of_nat (S k)) by lia.
    destruct (foldl _ (0, s1) (seqZ 0 (Z.of_nat (S k)))) as [n s2].
    destruct Hrow as (_ & Hrin & Hrout). cbn [fst snd] in *.
    split; [by rewrite row_offset_S|]. split.
    - intros i j Hj Hi Hl.
      destruct (decide (i = Z.of_nat k)) as [->|Hne].
      + apply Hrin; [lia | done].
      + rewrite Hrout.
        * apply Hin; [done | lia | done].
        * intros j' _ _ E. apply tile_key_inj in E. lia.
    - intros key Hkey. rewrite Hrout.
      + apply Hout. intros i j Hj Hi Hl. apply Hkey; [done | lia | done].
      + intros j Hj Hl. apply Hkey; [lia | lia | done]. }
  cbv zeta in Hloop. destruct Hloop as (_ & Hin & Hout). split.
  - intros i j Hj Hi Hl. apply Hin; [done | apply Hmt; lia | done].
  - intros k Hk. apply Hout. intros i j Hj Hi Hl.
    apply Hk; [done | destruct (Hmt' i Hi); lia | done].
Qed.

Lemma random_tile_fits A i j s :
  (∀ s0 s1 s2 s3 n,
     length (larnv s0 s1 s2 s3 n) = Z.to_nat (sizeof FloatType * n)) →
  sizeof FloatType * (tileNb A 0 * tileNb A 0) ≤ block_size_ (memory_ A) →
  ∃ t,
    random_tile FloatType host_num_ uninit larnv add_at A i j s =
    Ok (tile_assign A i j host_num_ (Some t) (incr_allocs s)) ∧
    mb_ t = tileMb A i ∧ nb_ t = tileNb A j ∧ stride_ t = tileMb A i ∧
    device_num_ t = host_num_ ∧ origin_ t = false.
Proof.
  intros Hlar Hfit. unfold random_tile, ColMajorTile_new.
  cbn [data_ mb_ nb_ stride_ device_num_ origin_].
  rewrite Hlar.
  destruct (Nat.ltb_spec (Z.to_nat (block_size_ (memory_ A)))
              (Z.to_nat (sizeof FloatType * (tileNb A 0 * tileNb A 0))))
    as [E|_]; [lia|].
  eexists. split; [reflexivity|]. done.
Qed.

Lemma random_cells A (cells : list (Z * Z)) s :
  (∀ s0 s1 s2 s3 n,
     length (larnv s0 s1 s2 s3 n) = Z.to_nat (sizeof FloatType * n)) →
  sizeof FloatType * (tileNb A 0 * tileNb A 0) ≤ block_size_ (memory_ A) →
  ∃ s',
    for_each cells
      (fun c s =>
         if tileIsLocal A c.1 c.2
         then random_tile FloatType host_num_ uninit larnv add_at A c.1 c.2 s
         else Ok s)
      s = Ok s' ∧
    allocs s' =
    (allocs s +
     length (List.filter (fun c => tileIsLocal A c.1 c.2) cells))%nat ∧
    life_maps s' = life_maps s ∧ mpi_log s' = mpi_log s ∧
    (∀ i j, own_host_tile host_num_ A i j s → own_host_tile host_num_ A i j s') ∧
    (∀ c, c ∈ cells → tileIsLocal A c.1 c.2 = true →
          own_host_tile host_num_ A c.1 c.2 s').
Proof.
  intros Hlar Hfit. revert s. induction cells as [|c cells IH]; intros s.
  { exists s. simpl. split_and!; try done; try lia.
    intros c Hc. by apply elem_of_nil in Hc. }
  assert (∃ s1, (if tileIsLocal A c.1 c.2
                 then random_tile FloatType host_num_ uninit larnv add_at A
                        c.1 c.2 s
                 else Ok s) = Ok s1 ∧
                allocs s1 =
                (allocs s + if tileIsLocal A c.1 c.2 then 1 else 0)%nat ∧
                life_maps s1 = life_maps s ∧ mpi_log s1 = mpi_log s ∧
                (∀ i j, own_host_tile host_num_ A i j s →
                        own_host_tile host_num_ A i j s1) ∧
                (tileIsLocal A c.1 c.2 = true →
                 own_host_tile host_num_ A c.1 c.2 s1))
    as (s1 & E1 & Ha1 & Hl1 & Hm1 & Hkeep1 & Hnew1).
  { destruct (tileIsLocal A c.1 c.2) eqn:Hl.
    - destruct (random_tile_fits A c.1 c.2 s Hlar Hfit)
        as (t & E & Hmb & Hnb & Hst & Hdev & Hor).
      eexists. split; [exact E|]. split_and!.
      + simpl. lia.
      + done.
      + done.
      + intros i j (t0 & Ht0 & Hrest).
        destruct (decide ((it_ A + i, jt_ A + j, host_num_) =
                          (it_ A + c.1, jt_ A + c.2, host_num_))) as [Ek|Nk].
        * apply tile_key_inj in Ek as [-> ->].
          exists t. by rewrite tiles_tile_assign, lookup_insert_eq.
        * exists t0. by rewrite tiles_tile_assign, lookup_insert_ne.
      + intros _. exists t. by rewrite tiles_tile_assign, lookup_insert_eq.
    - exists s. split_and!; [done | lia | done | done | done | done]. }
  destruct (IH s1) as (s' & E' & Ha' & Hl' & Hm' & Hkeep' & Hnew').
  exists s'. split_and!.
  - cbn [for_each]. by rewrite E1.
  - rewrite Ha', Ha1. simpl. destruct (tileIsLocal A c.1 c.2); simpl; lia.
  - congruence.
  - congruence.
  - intros i j H. by apply Hkeep', Hkeep1.
  - intros c' Hc' Hloc. apply elem_of_cons in Hc' as [->|Hin].
    + by apply Hkeep', Hnew1.
    + by apply Hnew'.
Qed.

Lemma random_lower_triangle A s :
  random FloatType host_num_ uninit larnv add_at A s =
  for_each (lower_triangle (mt_ A))
    (fun c s =>
       if tileIsLocal A c.1 c.2
       then random_tile FloatType host_num_ uninit larnv add_at A c.1 c.2 s
       else Ok s)
    s.
Proof.
  unfold random, lower_triangle. rewrite for_each_flat_map.
  apply for_each_ext. intros i s1. by rewrite for_each_fmap.
Qed.

(** What [random()] leaves when the blocks of the pool hold what it has
    [larnv] write. *)
Lemma random_filled A s :
  (∀ s0 s1 s2 s3 n,
     length (larnv s0 s1 s2 s3 n) = Z.to_nat (sizeof FloatType * n)) →
  sizeof FloatType * (tileNb A 0 * tileNb A 0) ≤ block_size_ (memory_ A) →
  ∃ s',
    random FloatType host_num_ uninit larnv add_at A s = Ok s' ∧
    (∀ i j, 0 ≤ j ≤ i → i < mt_ A → tileIsLocal A i j = true →
            own_host_tile host_num_ A i j s') ∧
    Z.of_nat (allocs s') = Z.of_nat (allocs s) + getMaxHostTiles A ∧
    life_maps s' = life_maps s ∧ mpi_log s' = mpi_log s.
Proof.
  intros Hlar Hfit.
  destruct (random_cells A (lower_triangle (mt_ A)) s Hlar Hfit)
    as (s' & E & Ha & Hl & Hm & _ & Hnew).
  exists s'. split_and!; [by rewrite random_lower_triangle | | | done | done].
  - intros i j Hj Hi Hloc. apply (Hnew (i, j)); [|done].
    by apply elem_of_lower_triangle.
  - rewrite Ha, Nat2Z.inj_add. f_equal. unfold getMaxHostTiles.
    by rewrite (foldl_lower_triangle (fun c => tileIsLocal A c.1 c.2)).
Qed.

(** X13: when larnv delivers the elements it is asked for and the blocks
    of the pool hold the tileNb(0)^2 elements that random() has it write
    into every tile, random() returns; afterwards every local tile (i, j)
    with 0 <= j <= i < mt has a host entry of tileMb(i) x tileNb(j)
    elements with stride tileMb(i) that is no origin tile; the tiles
    allocated are as many as getMaxHostTiles() counts; the life table and
    the transport are left alone. *)
Theorem random_fills_local_tiles A s :
  (∀ s0 s1 s2 s3 n,
     length (larnv s0 s1 s2 s3 n) = Z.to_nat (sizeof FloatType * n)) →
  sizeof FloatType * (tileNb A 0 * tileNb A 0) ≤ block_size_ (memory_ A) →
  ∃ s',
    random FloatType host_num_ uninit larnv add_at A s = Ok s' ∧
    (∀ i j, 0 ≤ j ≤ i → i < mt_ A → tileIsLocal A i j = true →
            own_host_tile host_num_ A i j s') ∧
    Z.of_nat (allocs s') = Z.of_nat (allocs s) + getMaxHostTiles A ∧
    life_maps s' = life_maps s ∧ mpi_log s' = mpi_log s.
Proof. apply random_filled. Qed.

(** ** The set and the life of a broadcast *)

Lemma elem_of_set_insert x y l : y ∈ set_insert x l ↔ y = x ∨ y ∈ l.
Proof.
  rewrite <- !set_mem_true, set_mem_set_insert, orb_true_iff, Z.eqb_eq.
  done.
Qed.

Lemma set_insert_sorted x l :
  StronglySorted Z.lt l → StronglySorted Z.lt (set_insert x l).
Proof.
  induction 1 as [|y l Hs IH Hall]; simpl.
  { repeat constructor. }
  destruct (Z.ltb_spec x y).
  { constructor; [by constructor|]. constructor; [done|].
    eapply Forall_impl; [exact Hall|]. simpl. intros. lia. }
  destruct (Z.eqb_spec x y); [by constructor|].
  constructor; [done|]. apply Forall_forall. intros z Hz.
  apply elem_of_set_insert in Hz as [->|Hz]; [lia|].
  by eapply Forall_forall in Hall.
Qed.

Lemma tileSendFindRanks_sorted A i j range S :
  StronglySorted Z.lt S →
  StronglySorted Z.lt (tileSendFindRanks A i j range S).
Proof.
  destruct range as [[[i1 i2] j1] j2]. intros HS. unfold tileSendFindRanks.
  apply (foldl_invariant (StronglySorted Z.lt)); [done|].
  intros S1 r _ HS1.
  apply (foldl_invariant (StronglySorted Z.lt)); [done|].
  intros S2 c _ HS2. by apply set_insert_sorted.
Qed.

Lemma tileSendFindRanks_elem A i j range S r :
  r ∈ tileSendFindRanks A i j range S ↔
  r ∈ S ∨ ∃ c, c ∈ range_cells range ∧ tileRank A c.1 c.2 = r.
Proof. by rewrite <- !set_mem_true, tileSendFindRanks_mem. Qed.

(** X14: the set of ranks that tileSend(i, j, range) and
    tileSend(i, j, range1, range2) build holds the owner of the tile and
    the owners of the cells of the ranges, and nobody else; it lists them
    in ascending order, each once, which is the order in which the group
    of the broadcast numbers them. *)
Theorem broadcast_set_members A i j range1 range2 :
  let S1 :=
    tileSendFindRanks A i j range1 (set_insert (tileRank A i j) []) in
  let S2 := tileSendFindRanks A i j range2 S1 in
  (∀ r, r ∈ S1 ↔
        r = tileRank A i j ∨
        ∃ c, c ∈ range_cells range1 ∧ tileRank A c.1 c.2 = r) ∧
  (∀ r, r ∈ S2 ↔
        r = tileRank A i j ∨
        ∃ c, (c ∈ range_cells range1 ∨ c ∈ range_cells range2) ∧
             tileRank A c.1 c.2 = r) ∧
  StronglySorted Z.lt S1 ∧ StronglySorted Z.lt S2 ∧
  group_rank (tileRank A i j) S1 ≠ MPI_UNDEFINED ∧
  group_rank (tileRank A i j) S2 ≠ MPI_UNDEFINED.
Proof.
  intros S1 S2.
  assert (∀ r, r ∈ S1 ↔
               r = tileRank A i j ∨
               ∃ c, c ∈ range_cells range1 ∧ tileRank A c.1 c.2 = r) as H1.
  { intros r. unfold S1. rewrite tileSendFindRanks_elem. simpl.
    by rewrite list_elem_of_singleton. }
  assert (StronglySorted Z.lt S1) as Hs1.
  { apply tileSendFindRanks_sorted. repeat constructor. }
  assert (∀ r, r ∈ S2 ↔
               r = tileRank A i j ∨
               ∃ c, (c ∈ range_cells range1 ∨ c ∈ range_cells range2) ∧
                    tileRank A c.1 c.2 = r) as H2.
  { intros r. unfold S2. rewrite tileSendFindRanks_elem, H1. split.
    - intros [[?|(c & ? & ?)]|(c & ? & ?)]; [by left | right..];
        exists c; split; auto.
    - intros [?|(c & [?|?] & ?)]; [by left; left | left; right | right];
        by exists c. }
  split_and!; [done | done | done | by apply tileSendFindRanks_sorted | |].
  - assert (0 ≤ group_rank (tileRank A i j) S1).
    { apply group_rank_member, H1. by left. }
    unfold MPI_UNDEFINED. lia.
  - assert (0 ≤ group_rank (tileRank A i j) S2).
    { apply group_rank_member, H2. by left. }
    unfold MPI_UNDEFINED. lia.
Qed.

(** X15: the life tileSend gives a tile it receives is the number of cells
    of the range that the rank owns, whatever the tile; a rank that is in
    the set of the broadcast without owning the tile owns a cell of the
    range, so its life is at least 1: the ticks of its consumers can bring
    it to zero. *)
Theorem broadcast_life_counts_local_cells A i j range :
  let life := tileSendFindLife A i j range in
  life =
    Z.of_nat
      (length
         (List.filter (fun c => tileIsLocal A c.1 c.2) (range_cells range))) ∧
  0 ≤ life ≤ Z.of_nat (length (range_cells range)) ∧
  (tileIsLocal A i j = false →
   mpi_rank_ A ∈
     tileSendFindRanks A i j range (set_insert (tileRank A i j) []) →
   1 ≤ life).
Proof.
  intros life. subst life. rewrite tileSendFindLife_count.
  split; [done|]. split.
  { split; [lia|]. apply Nat2Z.inj_le, length_filter_le. }
  intros Hl Hin. apply tileSendFindRanks_elem in Hin as [Hin|(c & Hc & Hr)].
  { simpl in Hin. apply list_elem_of_singleton in Hin.
    unfold tileIsLocal in Hl. apply Z.eqb_neq in Hl. congruence. }
  assert (c ∈ List.filter (fun c => tileIsLocal A c.1 c.2) (range_cells range))
    as Hc'.
  { apply list_elem_of_In, filter_In. split; [by apply list_elem_of_In|].
    unfold tileIsLocal. by apply Z.eqb_eq. }
  destruct (List.filter _ _); [by apply elem_of_nil in Hc'|]. simpl. lia.
Qed.

(** ** The owner in a broadcast *)

Lemma tileSend_finish_owner A i j S t s :
  tileIsLocal A i j = true →
  tileRank A i j ∈ S →
  tiles A s !! (it_ A + i, jt_ A + j, host_num_) = Some (Some t) →
  0 ≤ mb_ t * nb_ t →
  8 * (mb_ t * nb_ t) ≤ Z.of_nat (length (data_ t)) →
  ∃ s',
    tileSend_finish FloatType host_num_ Host A i j S s = Ok s' ∧
    tile_maps s' = tile_maps s ∧ life_maps s' = life_maps s ∧
    allocs s' = allocs s ∧ bcast_in s' = bcast_in s ∧
    mpi_log s' =
      mpi_log s ++
      (if Z.of_nat (length S) =? 1 then []
       else
         [MPI_Group_incl S; MPI_Comm_create_group S; MPI_Comm_rank;
          MPI_Group_translate_ranks (tileRank A i j);
          MPI_Bcast (mb_ t * nb_ t) MPI_DOUBLE
            (group_rank (tileRank A i j) S);
          MPI_Group_free; MPI_Comm_free]).
Proof.
  intros Hl Hroot Ht Hcount Hlen.
  assert (mpi_rank_ A = tileRank A i j) as Hme.
  { unfold tileIsLocal in Hl. by apply Z.eqb_eq in Hl. }
  unfold tileSend_finish, tileSend_bcast.
  destruct (Z.of_nat (length S) =? 1).
  { exists s. cbn [bind]. by rewrite app_nil_r. }
  rewrite Hme, (proj2 (set_mem_true _ _) Hroot). cbn [negb].
  set (s4 := log_call _ (log_call _ (log_call _ (log_call _ s)))).
  assert (tiles A s4 = tiles A s) as Ht4 by done.
  rewrite (tile_at_present A i j host_num_ (Some t) s4) by (by rewrite Ht4).
  unfold tile_MPI_Bcast.
  destruct (Z.ltb_spec (mb_ t * nb_ t) 0) as [?|_]; [lia|].
  pose proof (group_rank_member _ _ Hroot) as Hr0.
  destruct (Z.eqb_spec (group_rank (tileRank A i j) S) MPI_UNDEFINED)
    as [E|_]; [unfold MPI_UNDEFINED in E; lia|].
  cbn [orb]. rewrite Z.eqb_refl. unfold read_buffer. simpl MPI_Type_size.
  destruct (Nat.leb_spec (Z.to_nat (mb_ t * nb_ t * 8)) (length (data_ t)))
    as [_|?]; [|lia].
  cbn [bind]. eexists. split; [reflexivity|]. subst s4.
  cbn [tile_maps life_maps allocs bcast_in mpi_log log_call].
  split_and!; try reflexivity. by rewrite <- !app_assoc.
Qed.

(** X16: on the rank that owns the tile, with the tile at the host and a
    buffer of at least 8 bytes an element, tileSend<Host>(i, j, range) and
    tileSend<Host>(i, j, range1, range2) return; the registry and the life
    table are as before, so the owner gets no counter; alone in the set it
    calls nothing of MPI, and otherwise it makes the group and the
    communicator of the set, is the root of one MPI_Bcast of mb * nb
    doubles and frees both. *)
Theorem broadcast_on_owner A i j range1 range2 t s :
  tileIsLocal A i j = true →
  tiles A s !! (it_ A + i, jt_ A + j, host_num_) = Some (Some t) →
  0 ≤ mb_ t * nb_ t →
  8 * (mb_ t * nb_ t) ≤ Z.of_nat (length (data_ t)) →
  let S1 :=
    tileSendFindRanks A i j range1 (set_insert (tileRank A i j) []) in
  let S2 := tileSendFindRanks A i j range2 S1 in
  let calls := fun S : list Z =>
    if Z.of_nat (length S) =? 1 then []
    else
      [MPI_Group_incl S; MPI_Comm_create_group S; MPI_Comm_rank;
       MPI_Group_translate_ranks (tileRank A i j);
       MPI_Bcast (mb_ t * nb_ t) MPI_DOUBLE (group_rank (tileRank A i j) S);
       MPI_Group_free; MPI_Comm_free] in
  (∃ s',
     tileSend_range FloatType host_num_ uninit Host A i j range1 s = Ok s' ∧
     tile_maps s' = tile_maps s ∧ life_maps s' = life_maps s ∧
     allocs s' = allocs s ∧ mpi_log s' = mpi_log s ++ calls S1) ∧
  (∃ s',
     tileSend_range2 FloatType host_num_ uninit Host A i j range1 range2 s
     = Ok s' ∧
     tile_maps s' = tile_maps s ∧ life_maps s' = life_maps s ∧
     allocs s' = allocs s ∧ mpi_log s' = mpi_log s ++ calls S2).
Proof.
  intros Hl Ht Hcount Hlen S1 S2 calls.
  assert (mpi_rank_ A = tileRank A i j) as Hme.
  { unfold tileIsLocal in Hl. by apply Z.eqb_eq in Hl. }
  assert (tileRank A i j ∈ S1) as H1 by apply owner_in_set.
  assert (tileRank A i j ∈ S2) as H2.
  { apply tileSendFindRanks_elem. by left. }
  split.
  - unfold tileSend_range. fold S1.
    rewrite Hme, (proj2 (set_mem_true _ _) H1), Hl. cbn [negb].
    destruct (tileSend_finish_owner A i j S1 t s Hl H1 Ht Hcount Hlen)
      as (s' & E & Htm & Hlm & Ha & _ & Hlog).
    exists s'. subst calls. by split_and!.
  - unfold tileSend_range2. fold S1. fold S2.
    rewrite Hme, (proj2 (set_mem_true _ _) H2), Hl. cbn [negb].
    destruct (tileSend_finish_owner A i j S2 t s Hl H2 Ht Hcount Hlen)
      as (s' & E & Htm & Hlm & Ha & _ & Hlog).
    exists s'. subst calls. by split_and!.
Qed.

(** ** A received tile and its life *)

Lemma receiver_owns_a_cell A i j range :
  tileIsLocal A i j = false →
  mpi_rank_ A ∈
    tileSendFindRanks A i j range (set_insert (tileRank A i j) []) →
  0 <
  Z.of_nat
    (length (List.filter (fun c => tileIsLocal A c.1 c.2) (range_cells range))).
Proof.
  intros Hl Hin. apply tileSendFindRanks_elem in Hin as [Hin|(c & Hc & Hr)].
  { simpl in Hin. apply list_elem_of_singleton in Hin.
    unfold tileIsLocal in Hl. apply Z.eqb_neq in Hl. congruence. }
  assert (c ∈ List.filter (fun c => tileIsLocal A c.1 c.2) (range_cells range))
    as Hc'.
  { apply list_elem_of_In, filter_In. split; [by apply list_elem_of_In|].
    unfold tileIsLocal. by apply Z.eqb_eq. }
  destruct (List.filter _ _); [by apply elem_of_nil in Hc'|]. simpl. lia.
Qed.

Lemma life_of_received_tile A i j L p s :
  tileIsLocal A i j = false → 0 < L →
  tiles A s !! (it_ A + i, jt_ A + j, host_num_) = Some p →
  lives A s !! (it_ A + i, jt_ A + j) = Some L →
  (∀ n, (n < Z.to_nat L)%nat →
     tiles A (ticks host_num_ n A i j s) !! (it_ A + i, jt_ A + j, host_num_)
     = Some p) ∧
  tiles A (ticks host_num_ (Z.to_nat L) A i j s)
    !! (it_ A + i, jt_ A + j, host_num_) = None ∧
  lives A (ticks host_num_ (Z.to_nat L) A i j s) !! (it_ A + i, jt_ A + j)
  = None.
Proof.
  intros Hl HL Ht Hv. split_and!.
  - intros n Hn.
    destruct (ticks_count_down A i j n L s) as (-> & _ & _); [done..|lia|done].
  - destruct (ticks_life_spent A i j L s Hl HL Hv) as (-> & _ & _).
    apply lookup_foldl_delete_None, lookup_delete_eq.
  - destruct (ticks_life_spent A i j L s Hl HL Hv) as (_ & -> & _).
    apply lookup_delete_eq.
Qed.

Lemma receiver_owns_a_cell2 A i j range1 range2 :
  tileIsLocal A i j = false →
  mpi_rank_ A ∈
    tileSendFindRanks A i j range2
      (tileSendFindRanks A i j range1 (set_insert (tileRank A i j) [])) →
  0 <
  Z.of_nat
    (length (List.filter (fun c => tileIsLocal A c.1 c.2) (range_cells range1)) +
     length (List.filter (fun c => tileIsLocal A c.1 c.2) (range_cells range2))).
Proof.
  intros Hl Hin. apply tileSendFindRanks_elem in Hin as [Hin|(c & Hc & Hr)].
  { pose proof (receiver_owns_a_cell A i j range1 Hl Hin). lia. }
  assert (c ∈ List.filter (fun c => tileIsLocal A c.1 c.2) (range_cells range2))
    as Hc'.
  { apply list_elem_of_In, filter_In. split; [by apply list_elem_of_In|].
    unfold tileIsLocal. by apply Z.eqb_eq. }
  destruct (List.filter _ (range_cells range2));
    [by apply elem_of_nil in Hc'|].
  simpl. lia.
Qed.

(** X17: with scalars of the size of a double, a rank in the set of the
    broadcast tileSend<Host>(i, j, range) that does not own the tile
    returns with the bytes of the broadcast in a new host tile of
    tileMb(i) x tileNb(j) elements; the tile stays through fewer calls of
    tileTick(i, j) than the rank owns cells of the range, and the call
    that makes up that number removes the tile and its counter.  For a
    rank in the set of tileSend<Host>(i, j, range1, range2), which the
    owners of the cells of either range are in, the same holds with the
    cells of both ranges counted. *)
Theorem broadcast_tile_lives_as_counted A i j range1 range2 wire s :
  sizeof FloatType = 8 →
  tileIsLocal A i j = false →
  0 ≤ tileMb A i * tileNb A j →
  bcast_in s = [wire] →
  length wire = Z.to_nat (8 * (tileMb A i * tileNb A j)) →
  let S1 :=
    tileSendFindRanks A i j range1 (set_insert (tileRank A i j) []) in
  let S2 := tileSendFindRanks A i j range2 S1 in
  let owned := fun range =>
    length (List.filter (fun c => tileIsLocal A c.1 c.2) (range_cells range)) in
  let received :=
    Some
      (Some
         (mkTile (tileMb A i) (tileNb A j) (tileMb A i) wire host_num_ false))
  in
  (mpi_rank_ A ∈ S1 →
   ∃ s',
     tileSend_range FloatType host_num_ uninit Host A i j range1 s = Ok s' ∧
     (∀ n, (n < owned range1)%nat →
        tiles A (ticks host_num_ n A i j s')
          !! (it_ A + i, jt_ A + j, host_num_) = received) ∧
     tiles A (ticks host_num_ (owned range1) A i j s')
       !! (it_ A + i, jt_ A + j, host_num_) = None ∧
     lives A (ticks host_num_ (owned range1) A i j s')
       !! (it_ A + i, jt_ A + j) = None) ∧
  (mpi_rank_ A ∈ S2 →
   ∃ s',
     tileSend_range2 FloatType host_num_ uninit Host A i j range1 range2 s
     = Ok s' ∧
     (∀ n, (n < owned range1 + owned range2)%nat →
        tiles A (ticks host_num_ n A i j s')
          !! (it_ A + i, jt_ A + j, host_num_) = received) ∧
     tiles A (ticks host_num_ (owned range1 + owned range2) A i j s')
       !! (it_ A + i, jt_ A + j, host_num_) = None ∧
     lives A (ticks host_num_ (owned range1 + owned range2) A i j s')
       !! (it_ A + i, jt_ A + j) = None).
Proof.
  intros Hsz Hl Hcount Hq Hwire S1 S2 owned received.
  split.
  - intros Hin.
    pose proof (receiver_owns_a_cell A i j range1 Hl Hin) as Hpos.
    destruct (tileSend_range_receiver A i j range1 wire s)
      as (s' & E & Ht & Hv & _); [done..|].
    exists s'. split; [done|].
    destruct (life_of_received_tile A i j _ _ s' Hl Hpos Ht Hv)
      as (H1 & H2 & H3).
    rewrite Nat2Z.id in H1, H2, H3. done.
  - intros Hin.
    pose proof (receiver_owns_a_cell2 A i j range1 range2 Hl Hin) as Hpos.
    destruct (tileSend_range2_receiver A i j range1 range2 wire s)
      as (s' & E & Ht & Hv & _); [done..|].
    exists s'. split; [done|].
    rewrite <- Nat2Z.inj_add in Hv.
    destruct (life_of_received_tile A i j _ _ s' Hl Hpos Ht Hv)
      as (H1 & H2 & H3).
    rewrite Nat2Z.id in H1, H2, H3. done.
Qed.

(** ** Copies for the devices *)

Lemma tileSend_finish_Host A i j S s s' :
  tileSend_finish FloatType host_num_ Host A i j S s = Ok s' →
  tileSend_bcast host_num_ A i j S s = Ok s'.
Proof.
  unfold tileSend_finish.
  by destruct (tileSend_bcast host_num_ A i j S s).
Qed.

Lemma copy_to_devices_loop A i j t (l : list Z) s :
  tiles A s !! (it_ A + i, jt_ A + j, host_num_) = Some (Some t) →
  (∀ d, d ∈ l → 0 ≤ d < Z.of_nat (length (comm_stream_ A))) →
  ∃ s',
    for_each l (fun device => tileCopyToDevice FloatType host_num_ A i j device)
      s = Ok s' ∧
    (∀ d, d ∈ l →
       tiles A s' !! (it_ A + i, jt_ A + j, d) =
       Some
         (default (Some (Tile_copyTo FloatType t d))
            (tiles A s !! (it_ A + i, jt_ A + j, d)))) ∧
    (∀ k, (∀ d, d ∈ l → k ≠ (it_ A + i, jt_ A + j, d)) →
          tiles A s' !! k = tiles A s !! k) ∧
    life_maps s' = life_maps s ∧ mpi_log s' = mpi_log s.
Proof.
  revert s. induction l as [|d l IH]; intros s Ht Hl.
  { exists s. split_and!; try done. intros d Hd. by apply elem_of_nil in Hd. }
  assert (∃ s1,
            tileCopyToDevice FloatType host_num_ A i j d s = Ok s1 ∧
            tiles A s1 =
              <[(it_ A + i, jt_ A + j, d) :=
                  default (Some (Tile_copyTo FloatType t d))
                    (tiles A s !! (it_ A + i, jt_ A + j, d))]> (tiles A s) ∧
            life_maps s1 = life_maps s ∧ mpi_log s1 = mpi_log s)
    as (s1 & E1 & Ht1 & Hl1 & Hm1).
  { unfold tileCopyToDevice.
    destruct (tile_found A i j d s) eqn:Hf.
    - apply tile_found_true in Hf as [p Hp]. exists s.
      rewrite Hp. simpl. by rewrite insert_id.
    - apply tile_found_false in Hf.
      rewrite (tile_at_present A i j host_num_ (Some t) s Ht).
      rewrite (proj2 (stream_index_ok_true A d)) by (apply Hl; left).
      eexists. split; [reflexivity|].
      by rewrite tiles_tile_assign, Hf. }
  assert (tiles A s1 !! (it_ A + i, jt_ A + j, host_num_) = Some (Some t))
    as Ht'.
  { rewrite Ht1.
    destruct (decide (d = host_num_)) as [->|Hne].
    - by rewrite lookup_insert_eq, Ht.
    - rewrite lookup_insert_ne; [done|]. congruence. }
  destruct (IH s1 Ht') as (s' & E' & Hin' & Hout' & Hl' & Hm').
  { intros d' Hd'. apply Hl. by right. }
  exists s'. split_and!.
  - cbn [for_each]. by rewrite E1.
  - intros d' Hd'.
    assert (tiles A s1 !! (it_ A + i, jt_ A + j, d) =
            Some
              (default (Some (Tile_copyTo FloatType t d))
                 (tiles A s !! (it_ A + i, jt_ A + j, d)))) as Hd1
      by (by rewrite Ht1, lookup_insert_eq).
    destruct (decide (d' ∈ l)) as [Hin|Hnin].
    + rewrite (Hin' d' Hin). f_equal.
      destruct (decide (d' = d)) as [->|Hne].
      * by rewrite Hd1.
      * rewrite Ht1, lookup_insert_ne; [done|]. congruence.
    + apply elem_of_cons in Hd' as [->|?]; [|done].
      rewrite Hout'; [done|]. intros d0 Hd0 [= ->]. done.
  - intros k Hk. rewrite Hout'.
    + rewrite Ht1, lookup_insert_ne; [done|].
      intros <-. by apply (Hk d); [left|].
    + intros d0 Hd0. apply Hk. by right.
  - congruence.
  - congruence.
Qed.

(** X18: tileSend<Devices>(i, j, range) on the owner of a tile that is at
    the host, when every device has its stream and the owner either is
    alone in the set of the broadcast, so that nothing is sent, or has the
    tile in a buffer of at least 8 bytes an element, which is what
    MPI_Bcast reads of it: after the broadcast the call leaves an entry for
    the tile at every device 0 .. num_devices-1, a copy of the host tile
    where there was no entry and the entry as it was where there was one;
    entries of other keys and the life table are not touched. *)
Theorem broadcast_to_devices A i j range t s :
  tileIsLocal A i j = true →
  tiles A s !! (it_ A + i, jt_ A + j, host_num_) = Some (Some t) →
  length (tileSendFindRanks A i j range (set_insert (tileRank A i j) []))
    = 1%nat ∨
  (0 ≤ mb_ t * nb_ t ∧ 8 * (mb_ t * nb_ t) ≤ Z.of_nat (length (data_ t))) →
  num_devices_ A ≤ Z.of_nat (length (comm_stream_ A)) →
  ∃ s',
    tileSend_range FloatType host_num_ uninit Devices A i j range s = Ok s' ∧
    (∀ d, 0 ≤ d < num_devices_ A →
       tiles A s' !! (it_ A + i, jt_ A + j, d) =
       Some
         (default (Some (Tile_copyTo FloatType t d))
            (tiles A s !! (it_ A + i, jt_ A + j, d)))) ∧
    (∀ k, (∀ d, 0 ≤ d < num_devices_ A → k ≠ (it_ A + i, jt_ A + j, d)) →
          tiles A s' !! k = tiles A s !! k) ∧
    life_maps s' = life_maps s.
Proof.
  intros Hl Ht Hsend HD.
  assert (mpi_rank_ A = tileRank A i j) as Hme.
  { unfold tileIsLocal in Hl. by apply Z.eqb_eq in Hl. }
  set (S := tileSendFindRanks A i j range (set_insert (tileRank A i j) []))
    in *.
  assert (tileRank A i j ∈ S) as HS by apply owner_in_set.
  assert (∃ s1,
            tileSend_bcast host_num_ A i j S s = Ok s1 ∧
            tile_maps s1 = tile_maps s ∧ life_maps s1 = life_maps s)
    as (s1 & E1 & Htm & Hlm).
  { destruct Hsend as [Hone|[Hcount Hlen]].
    - exists s. unfold tileSend_bcast. by rewrite Hone.
    - destruct (tileSend_finish_owner A i j S t s Hl HS Ht Hcount Hlen)
        as (s1 & E1 & Htm & Hlm & _).
      apply tileSend_finish_Host in E1. by exists s1. }
  assert (tiles A s1 = tiles A s) as Ht1 by (unfold tiles; by rewrite Htm).
  destruct (copy_to_devices_loop A i j t (seqZ 0 (num_devices_ A)) s1)
    as (s' & E' & Hin & Hout & Hl' & _).
  { by rewrite Ht1. }
  { intros d Hd. apply elem_of_seqZ in Hd. lia. }
  exists s'. split_and!.
  - unfold tileSend_range. fold S.
    rewrite Hme, (proj2 (set_mem_true _ _) HS), Hl. cbn [negb].
    unfold tileSend_finish. rewrite E1. exact E'.
  - intros d Hd. rewrite Hin, Ht1; [done|]. apply elem_of_seqZ. lia.
  - intros k Hk. rewrite Hout, Ht1; [done|].
    intros d Hd. apply Hk. apply elem_of_seqZ in Hd. lia.
  - congruence.
Qed.

(** ** Transfers between two ranks and among all *)

(** X19: with scalars of the size of a double, tileSend(i, j, dest) on a
    rank that has the whole tile at its host hands the bytes of the tile to
    one MPI_Send and changes nothing else; tileRecv(i, j, src) on a rank
    that finds this message first in the queue of src returns with a new
    host tile of the same extents and the same bytes under the key of the
    tile, in place of what was entered there, and takes the message off
    the queue. *)
Theorem point_to_point_delivers_tile A B i j dest src t rest sa sb :
  sizeof FloatType = 8 →
  tiles A sa !! (it_ A + i, jt_ A + j, host_num_) = Some (Some t) →
  mb_ t = tileMb B i → nb_ t = tileNb B j →
  0 ≤ mb_ t * nb_ t →
  Z.of_nat (length (data_ t)) = 8 * (mb_ t * nb_ t) →
  p2p_in sb !! src = Some (data_ t :: rest) →
  tileSend host_num_ A i j dest sa =
    Ok (log_call (MPI_Send (data_ t) (mb_ t * nb_ t) MPI_DOUBLE dest) sa) ∧
  ∃ sb',
    tileRecv FloatType host_num_ uninit B i j src sb = Ok sb' ∧
    tiles B sb' =
      <[(it_ B + i, jt_ B + j, host_num_) :=
          Some (mkTile (mb_ t) (nb_ t) (mb_ t) (data_ t) host_num_ false)]>
        (tiles B sb) ∧
    p2p_in sb' = <[src := rest]> (p2p_in sb).
Proof.
  intros Hsz Ht Hmb Hnb Hcount Hlen Hq. split.
  - pose proof (tileSend_transfers_doubles A i j dest t sa Ht Hcount) as H.
    destruct (tileSend host_num_ A i j dest sa) as [s'|e s'].
    + destruct H as [-> _]. do 3 f_equal.
      apply take_ge. lia.
    + destruct H as (_ & _ & ?). lia.
  - destruct (tileRecv_whole B i j src (data_ t) rest sb)
      as (sb' & E & Htiles & Hq' & _); [done | | done | |].
    + by rewrite <- Hmb, <- Hnb.
    + rewrite <- Hmb, <- Hnb. lia.
    + exists sb'. by rewrite Hmb, Hnb.
Qed.

(** X20: tileSend(i, j, dest) for a tile without a host entry dereferences
    a null pointer and sends nothing; reading the entry has entered a null
    pointer under the key of the tile, so that the registry now finds the
    tile at the host, tileMoveToHost takes it for resident and does
    nothing, and tileErase removes the entry again. *)
Theorem tileSend_of_missing_tile A i j dest d s :
  tiles A s !! (it_ A + i, jt_ A + j, host_num_) = None →
  ∃ s1,
    tileSend host_num_ A i j dest s = Fault NullDeref s1 ∧
    tiles A s1 = <[(it_ A + i, jt_ A + j, host_num_) := None]> (tiles A s) ∧
    mpi_log s1 = mpi_log s ∧ life_maps s1 = life_maps s ∧
    tile_found A i j host_num_ s1 = true ∧
    tileMoveToHost FloatType host_num_ A i j d s1 = Ok s1 ∧
    tiles A (tileErase A i j host_num_ s1) = tiles A s.
Proof.
  intros Hnone. unfold tileSend, tile_at. rewrite Hnone.
  eexists. split; [reflexivity|].
  set (s1 := update_tiles A _ s).
  assert (tiles A s1 =
          <[(it_ A + i, jt_ A + j, host_num_) := None]> (tiles A s)) as Ht1
    by apply tiles_update_tiles.
  assert (tile_found A i j host_num_ s1 = true) as Hf.
  { apply tile_found_true. rewrite Ht1, lookup_insert_eq. by eexists. }
  split_and!; try done.
  - unfold tileMoveToHost. by rewrite Hf.
  - rewrite tiles_tileErase, Ht1. by apply delete_insert_id.
Qed.

(** X21: gather() on a rank other than 0 whose local tiles among the
    positions visited are at its host, each with at least 8 bytes an
    element: the call returns, it has only added calls of MPI_Send to
    rank 0 to the log, one for each local tile in the order of the visit,
    and nothing else of the state has changed. *)
Theorem gather_sends_local_tiles A s :
  mpi_rank_ A ≠ 0 →
  (∀ c, c ∈ gather_cells (mt_ A) (nt_ A) → tileIsLocal A c.1 c.2 = true →
     ∃ t, tiles A s !! (it_ A + c.1, jt_ A + c.2, host_num_) = Some (Some t) ∧
          0 ≤ mb_ t * nb_ t ∧
          8 * (mb_ t * nb_ t) ≤ Z.of_nat (length (data_ t))) →
  ∃ new,
    gather FloatType host_num_ uninit A s = Ok (log_calls new s) ∧
    Forall (fun call => ∃ p n, call = MPI_Send p n MPI_DOUBLE 0) new ∧
    sent_to 0 new =
      (fun c => default [] (tile_payload host_num_ A c.1 c.2 s)) <$>
      List.filter (fun c => tileIsLocal A c.1 c.2)
        (gather_cells (mt_ A) (nt_ A)).
Proof.
  intros Hrank Hres. rewrite gather_cells_loop.
  apply gather_sender_loop; [by apply Z.eqb_neq | done].
Qed.

(** X22: with scalars of the size of a double, when every rank holds its
    tiles of the positions gather() visits, whole and with the extents of
    the distribution, gather() on rank 0 returns once the other ranks made
    their sends; rank 0 then has a host entry for every position visited
    with the bytes and the extents of the tile of its owner, and it made
    one MPI_Recv for each position it does not own, in the order of the
    visit. *)
Theorem gather_collects_on_root (A : Z → Matrix) size w :
  sizeof FloatType = 8 →
  mpi_rank_ (A 0) = 0 →
  (∀ r, 0 < r < size → mpi_rank_ (A r) = r ∧ same_matrix (A r) (A 0)) →
  let cells := gather_cells (mt_ (A 0)) (nt_ (A 0)) in
  let owner := fun c : Z * Z => tileRank (A 0) c.1 c.2 in
  (∀ c, c ∈ cells → 0 ≤ owner c < size) →
  (∀ c, c ∈ cells →
     ∃ t,
       tiles (A (owner c)) (w (owner c))
         !! (it_ (A 0) + c.1, jt_ (A 0) + c.2, host_num_) = Some (Some t) ∧
       mb_ t = tileMb (A 0) c.1 ∧ nb_ t = tileNb (A 0) c.2 ∧
       0 ≤ mb_ t * nb_ t ∧
       Z.of_nat (length (data_ t)) = 8 * (mb_ t * nb_ t)) →
  p2p_in (w 0) = ∅ →
  ∃ s',
    gather_world FloatType host_num_ uninit A size w 0 = Ok s' ∧
    (∀ c, c ∈ cells →
       ∃ t t',
         tiles (A (owner c)) (w (owner c))
           !! (it_ (A 0) + c.1, jt_ (A 0) + c.2, host_num_) = Some (Some t) ∧
         tiles (A 0) s' !! (it_ (A 0) + c.1, jt_ (A 0) + c.2, host_num_) =
           Some (Some t') ∧
         data_ t' = data_ t ∧ mb_ t' = mb_ t ∧ nb_ t' = nb_ t) ∧
    mpi_log s' =
      mpi_log (w 0) ++
      ((fun c =>
          MPI_Recv (tileMb (A 0) c.1 * tileNb (A 0) c.2) MPI_DOUBLE (owner c))
       <$> List.filter (fun c => negb (tileIsLocal (A 0) c.1 c.2)) cells).
Proof. apply gather_world_root. Qed.

(** X23: with scalars of the size of a double, when tileSend<Host>(i, j,
    range) is called on all the ranks and the owner has the whole tile at
    its host, a rank of the set other than the owner returns with a host
    tile that has the extents and the bytes of the tile of the owner, and
    with the number of the cells of the range it owns as the life of the
    tile. *)
Theorem broadcast_delivers_owner_tile (A : Z → Matrix) i j range w r t :
  sizeof FloatType = 8 →
  let root := tileRank (A r) i j in
  it_ (A root) = it_ (A r) → jt_ (A root) = jt_ (A r) →
  mpi_rank_ (A r) = r → r ≠ root →
  r ∈ tileSendFindRanks (A r) i j range (set_insert root []) →
  tiles (A root) (w root) !! (it_ (A r) + i, jt_ (A r) + j, host_num_) =
    Some (Some t) →
  mb_ t = tileMb (A r) i → nb_ t = tileNb (A r) j →
  0 ≤ mb_ t * nb_ t →
  Z.of_nat (length (data_ t)) = 8 * (mb_ t * nb_ t) →
  bcast_in (w r) = [] →
  ∃ s',
    tile_bcast_world FloatType host_num_ uninit Host A i j range w r = Ok s' ∧
    tiles (A r) s' !! (it_ (A r) + i, jt_ (A r) + j, host_num_) =
      Some (Some (mkTile (mb_ t) (nb_ t) (mb_ t) (data_ t) host_num_ false)) ∧
    lives (A r) s' !! (it_ (A r) + i, jt_ (A r) + j) =
      Some
        (Z.of_nat
           (length
              (List.filter (fun c => tileIsLocal (A r) c.1 c.2)
                 (range_cells range)))).
Proof. apply tile_bcast_world_receiver. Qed.

(** ** Views *)

(** X24: a tile operation called through a view that the submatrix
    constructor returned for the offsets (i1, j1) is the operation of the
    parent at (i1 + i, j1 + j): the rank, the device and the extents the
    distribution gives the tile, the three tile motions, tileErase,
    tileTick, tileSend and tileRecv. *)
Theorem view_operations_are_the_parents a i1 i2 j1 j2 v i j d s :
  Matrix_sub a i1 i2 j1 j2 = Some v →
  (tileRank v i j = tileRank a (i1 + i) (j1 + j) ∧
   tileDevice v i j = tileDevice a (i1 + i) (j1 + j) ∧
   tileMb v i = tileMb a (i1 + i) ∧ tileNb v j = tileNb a (j1 + j) ∧
   tileIsLocal v i j = tileIsLocal a (i1 + i) (j1 + j)) ∧
  (tileCopyToDevice FloatType host_num_ v i j d s =
   tileCopyToDevice FloatType host_num_ a (i1 + i) (j1 + j) d s ∧
   tileMoveToDevice FloatType host_num_ v i j d s =
   tileMoveToDevice FloatType host_num_ a (i1 + i) (j1 + j) d s ∧
   tileMoveToHost FloatType host_num_ v i j d s =
   tileMoveToHost FloatType host_num_ a (i1 + i) (j1 + j) d s ∧
   tileErase v i j d s = tileErase a (i1 + i) (j1 + j) d s ∧
   tileTick host_num_ v i j s = tileTick host_num_ a (i1 + i) (j1 + j) s) ∧
  (tileSend host_num_ v i j d s = tileSend host_num_ a (i1 + i) (j1 + j) d s ∧
   tileRecv FloatType host_num_ uninit v i j d s =
   tileRecv FloatType host_num_ uninit a (i1 + i) (j1 + j) d s).
Proof.
  unfold Matrix_sub. destruct (_ && _); [|done]. intros [= <-].
  unfold tileCopyToDevice, tileMoveToDevice, tileMoveToHost, tileTick,
    tileErase, tileSend, tileRecv, ColMajorTile_new, for_each_pure,
    stream_index_ok, tile_found, tile_at, tile_assign, tiles_erase, life_at,
    life_assign, lives_erase, update_tiles, update_lives, tiles, lives,
    tileIsLocal, tileRank, tileDevice, tileMb, tileNb.
  cbn [it_ jt_ tiles_ lives_ tileRankFunc tileDeviceFunc tileMbFunc
       tileNbFunc mpi_rank_ num_devices_ comm_stream_].
  rewrite <- !Z.add_assoc. by split_and!.
Qed.

(** X25: the submatrix constructor returns a view exactly when its four
    assertions hold; a view of a view is the view of the parent for the
    bounds moved by the offsets of the first. *)
Theorem submatrix_bounds_and_nesting a i1 i2 j1 j2 :
  (is_Some (Matrix_sub a i1 i2 j1 j2) ↔
   i1 ≤ i2 ∧ j1 ≤ j2 ∧ i2 < mt_ a ∧ j2 < nt_ a) ∧
  (∀ v k1 k2 l1 l2 u,
     Matrix_sub a i1 i2 j1 j2 = Some v →
     Matrix_sub v k1 k2 l1 l2 = Some u →
     Matrix_sub a (i1 + k1) (i1 + k2) (j1 + l1) (j1 + l2) = Some u).
Proof.
  split.
  - unfold Matrix_sub.
    destruct ((i1 <=? i2) && (j1 <=? j2) && (i2 <? mt_ a) && (j2 <? nt_ a))
      eqn:E.
    + apply andb_true_iff in E as [E E4]. apply andb_true_iff in E as [E E3].
      apply andb_true_iff in E as [E1 E2].
      split; [intros _; lia | by eexists].
    + split; [by intros [? ?]|]. intros (H1 & H2 & H3 & H4).
      apply not_true_iff_false in E. exfalso. apply E.
      repeat (apply andb_true_iff; split); lia.
  - intros v k1 k2 l1 l2 u Hv Hu. unfold Matrix_sub in *.
    destruct ((i1 <=? i2) && (j1 <=? j2) && (i2 <? mt_ a) && (j2 <? nt_ a))
      eqn:E; [|done].
    apply andb_true_iff in E as [E E4]. apply andb_true_iff in E as [E E3].
    apply andb_true_iff in E as [E1 E2].
    injection Hv as <-. cbn [it_ jt_ mt_ nt_] in Hu.
    destruct ((k1 <=? k2) && (l1 <=? l2) && (k2 <? i2 - i1 + 1) &&
              (l2 <? j2 - j1 + 1)) eqn:E'; [|done].
    apply andb_true_iff in E' as [E' E4']. apply andb_true_iff in E' as [E' E3'].
    apply andb_true_iff in E' as [E1' E2'].
    injection Hu as <-.
    assert ((i1 + k1 <=? i1 + k2) && (j1 + l1 <=? j1 + l2) &&
            (i1 + k2 <? mt_ a) && (j1 + l2 <? nt_ a) = true) as ->.
    { repeat (apply andb_true_iff; split); lia. }
    cbn [it_ jt_ mt_ nt_ tileRankFunc tileDeviceFunc tileMbFunc tileNbFunc
         tiles_ lives_ mpi_comm_ mpi_group_ mpi_size_ mpi_rank_ num_devices_
         memory_ gemm_stream_ comm_stream_ cublas_handle_ a_array_h_
         b_array_h_ c_array_h_ a_array_d_ b_array_d_ c_array_d_].
    rewrite !Z.add_assoc.
    replace (i1 + k2 - (i1 + k1) + 1) with (k2 - k1 + 1) by lia.
    replace (j1 + l2 - (j1 + l1) + 1) with (l2 - l1 + 1) by lia.
    reflexivity.
Qed.

(** ** The maps of a new matrix *)

Lemma fill_frame A (s0 s : State) (p : option Tile) i j :
  (∀ P, P ≠ tiles_ A → tile_maps s !! P = tile_maps s0 !! P) ∧
  life_maps s = life_maps s0 ∧ mpi_log s = mpi_log s0 →
  (∀ P, P ≠ tiles_ A →
     tile_maps (tile_assign A i j host_num_ p s) !! P = tile_maps s0 !! P) ∧
  life_maps (tile_assign A i j host_num_ p s) = life_maps s0 ∧
  mpi_log (tile_assign A i j host_num_ p s) = mpi_log s0.
Proof.
  intros (Ht & Hl & Hm). split_and!; [|done|done].
  intros P HP. unfold tile_assign, update_tiles. simpl.
  rewrite lookup_insert_ne by done. by apply Ht.
Qed.

Lemma copyTo_frame A a lda s :
  let s' := copyTo FloatType host_num_ A a lda s in
  (∀ P, P ≠ tiles_ A → tile_maps s' !! P = tile_maps s !! P) ∧
  life_maps s' = life_maps s ∧ mpi_log s' = mpi_log s.
Proof.
  unfold copyTo.
  apply (foldl_invariant
           (fun acc : Z * State =>
              (∀ P, P ≠ tiles_ A → tile_maps acc.2 !! P = tile_maps s !! P) ∧
              life_maps acc.2 = life_maps s ∧ mpi_log acc.2 = mpi_log s)).
  { done. }
  intros [m s1] i _ Hs1. simpl in Hs1.
  match goal with
  | |- context [foldl ?f ?x ?l] =>
      assert ((∀ P, P ≠ tiles_ A →
                 tile_maps (foldl f x l).2 !! P = tile_maps s !! P) ∧
              life_maps (foldl f x l).2 = life_maps s ∧
              mpi_log (foldl f x l).2 = mpi_log s) as Hin;
      [|by destruct (foldl f x l)]
  end.
  apply (foldl_invariant
           (fun acc : Z * State =>
              (∀ P, P ≠ tiles_ A → tile_maps acc.2 !! P = tile_maps s !! P) ∧
              life_maps acc.2 = life_maps s ∧ mpi_log acc.2 = mpi_log s));
    [done|].
  intros [n s2] j _ Hs2. simpl in *.
  destruct (tileIsLocal A i j); [|done]. by apply fill_frame.
Qed.

Lemma random_frame A s :
  let s' := final (random FloatType host_num_ uninit larnv add_at A s) in
  (∀ P, P ≠ tiles_ A → tile_maps s' !! P = tile_maps s !! P) ∧
  life_maps s' = life_maps s ∧ mpi_log s' = mpi_log s.
Proof.
  unfold random.
  apply (for_each_invariant
           (fun s' =>
              (∀ P, P ≠ tiles_ A → tile_maps s' !! P = tile_maps s !! P) ∧
              life_maps s' = life_maps s ∧ mpi_log s' = mpi_log s)).
  { done. }
  intros i s1 _ Hs1.
  apply (for_each_invariant
           (fun s' =>
              (∀ P, P ≠ tiles_ A → tile_maps s' !! P = tile_maps s !! P) ∧
              life_maps s' = life_maps s ∧ mpi_log s' = mpi_log s));
    [done|].
  intros j s2 _ Hs2. destruct (tileIsLocal A i j); [|done].
  unfold random_tile, ColMajorTile_new.
  destruct (_ <? _)%nat; simpl; [done|].
  by apply (fill_frame A s (incr_allocs s2)).
Qed.

(** With [nb], [p] and [q] other than zero the constructor divides by none
    of them and goes on to fill the matrix. *)
Lemma Matrix_new_runs m n a lda nb comm r sz p q D s :
  nb ≠ 0 → p ≠ 0 → q ≠ 0 →
  let ctor :=
    Matrix_new FloatType host_num_ uninit larnv add_at m n a lda nb comm r sz
      p q D s in
  let s1 :=
    set_life_maps (<[lives_ ctor.1 := ∅]>)
      (set_tile_maps (<[tiles_ ctor.1 := ∅]>) s) in
  ctor.2 =
    match a with
    | Some a => Ok (copyTo FloatType host_num_ ctor.1 a lda s1)
    | None => random FloatType host_num_ uninit larnv add_at ctor.1 s1
    end.
Proof.
  intros Hnb Hp Hq ctor s1. subst ctor s1. unfold Matrix_new. cbn [fst snd].
  destruct (Z.eqb_spec nb 0) as [?|_]; [done|].
  destruct (Z.eqb_spec p 0) as [?|_]; [done|].
  destruct (Z.eqb_spec q 0) as [?|_]; [done|].
  cbn [orb]. by rewrite andb_false_r.
Qed.

(** The blocks of the pool of the constructor hold the elements that
    [random()] has [larnv] write. *)
Lemma Matrix_new_block m n a lda nb comm r sz p q D s :
  nb ≠ 0 →
  let A :=
    (Matrix_new FloatType host_num_ uninit larnv add_at m n a lda nb comm r sz
       p q D s).1 in
  sizeof FloatType * (tileNb A 0 * tileNb A 0) ≤ block_size_ (memory_ A).
Proof.
  intros Hnb A. subst A. unfold tileNb.
  cbn [Matrix_new fst tileNbFunc jt_ memory_ block_size_].
  assert (0 < sizeof FloatType) as Hsz by (destruct FloatType; simpl; lia).
  assert (∀ x, x * x ≤ nb * nb →
               sizeof FloatType * (x * x) ≤ sizeof FloatType * nb * nb) as Hle
    by (intros x Hx; nia).
  apply Hle. destruct (_ >? _); [|lia].
  pose proof (Z.rem_bound_abs n nb Hnb) as Hr.
  assert (Z.abs (Z.rem n nb) * Z.abs (Z.rem n nb) ≤ Z.abs nb * Z.abs nb)
    by nia.
  lia.
Qed.

(** X26: for nb, p, q > 0 and a larnv that delivers the elements it is
    asked for the constructor returns, whether it copies the array of the
    caller in or fills the tiles at random.  It has given the matrix a
    registry and a life table of its own, at addresses no matrix of the
    state uses: the registries and life tables of the matrices there were
    are as before, the life table of the new matrix is empty and nothing
    was sent. *)
Theorem constructor_makes_own_maps m n a lda nb comm r sz p q D s :
  (∀ s0 s1 s2 s3 k,
     length (larnv s0 s1 s2 s3 k) = Z.to_nat (sizeof FloatType * k)) →
  0 < nb → 0 < p → 0 < q →
  let ctor :=
    Matrix_new FloatType host_num_ uninit larnv add_at m n a lda nb comm r sz
      p q D s in
  let A := ctor.1 in
  ∃ s',
    ctor.2 = Ok s' ∧
    (tiles_ A ∉ dom (tile_maps s)) ∧ (lives_ A ∉ dom (life_maps s)) ∧
    (∀ B, tiles_ B ∈ dom (tile_maps s) → tiles B s' = tiles B s) ∧
    (∀ B, lives_ B ∈ dom (life_maps s) → lives B s' = lives B s) ∧
    lives A s' = ∅ ∧ mpi_log s' = mpi_log s.
Proof.
  intros Hlar Hnb Hp Hq ctor A.
  assert (tiles_ A ∉ dom (tile_maps s)) as Hft by apply is_fresh.
  assert (lives_ A ∉ dom (life_maps s)) as Hfl by apply is_fresh.
  pose proof (Matrix_new_runs m n a lda nb comm r sz p q D s
                ltac:(lia) ltac:(lia) ltac:(lia)) as Hrun.
  cbv zeta in Hrun. fold ctor in Hrun. fold A in Hrun.
  set (s1 := set_life_maps (<[lives_ A := ∅]>)
               (set_tile_maps (<[tiles_ A := ∅]>) s)) in Hrun.
  assert (∃ s',
            ctor.2 = Ok s' ∧
            (∀ P, P ≠ tiles_ A → tile_maps s' !! P = tile_maps s1 !! P) ∧
            life_maps s' = life_maps s1 ∧ mpi_log s' = mpi_log s1)
    as (s' & E & Ht & Hl & Hm).
  { rewrite Hrun. destruct a as [a|].
    - eexists. split; [reflexivity|]. apply (copyTo_frame A a lda s1).
    - destruct (random_filled A s1 Hlar) as (s' & E & _).
      { apply (Matrix_new_block m n None lda nb comm r sz p q D s). lia. }
      exists s'. split; [done|].
      pose proof (random_frame A s1) as H. cbv zeta in H. by rewrite E in H. }
  exists s'. split_and!; [done | done | done | | | |done].
  - intros B HB. unfold tiles.
    assert (tiles_ B ≠ tiles_ A) as Hne by (intros E'; by rewrite E' in HB).
    unfold lookup_total, map_lookup_total. rewrite (Ht _ Hne). simpl.
    by rewrite lookup_insert_ne.
  - intros B HB. unfold lives. rewrite Hl. simpl.
    assert (lives_ B ≠ lives_ A) as Hne by (intros E'; by rewrite E' in HB).
    by rewrite lookup_total_insert_ne.
  - unfold lives. rewrite Hl. simpl. by rewrite lookup_total_insert_eq.
Qed.

(** ** Printing the lives *)

Lemma printLife_row A s i (l : list Z) : ∀ row s1,
  zero_counters_entered A s s1 →
  let r :=
    foldl
      (fun '(row, s) j =>
         if bool_decide (tiles A s !! (i, j, host_num_) = None)
         then (row ++ [None], s)
         else
           let '(v, s') := life_at A i j s in
           (row ++ [Some v], s'))
      (row, s1) l in
  r.1 =
    row ++
    ((fun j =>
        if bool_decide (tiles A s !! (i, j, host_num_) = None) then None
        else Some (default 0 (lives A s !! (it_ A + i, jt_ A + j)))) <$> l) ∧
  zero_counters_entered A s r.2.
Proof.
  induction l as [|j l IH]; intros row s1 Hinv.
  { simpl. by rewrite app_nil_r. }
  cbn [foldl fmap list_fmap].
  destruct Hinv as (Ht & Hm & Ha & Hlv).
  assert (tiles A s1 = tiles A s) as -> by (unfold tiles; by rewrite Ht).
  case_bool_decide as Hnone.
  { destruct (IH (row ++ [None]) s1) as [E Hinv']; [done|].
    split; [|done]. rewrite E, <- app_assoc. done. }
  destruct (life_at A i j s1) as [v s2] eqn:Hla.
  assert (v = default 0 (lives A s !! (it_ A + i, jt_ A + j)) ∧
          zero_counters_entered A s s2) as [-> Hinv2].
  { unfold life_at in Hla.
    destruct (lives A s1 !! (it_ A + i, jt_ A + j)) as [v'|] eqn:Hv;
      injection Hla as <- <-.
    - split; [|done].
      destruct (Hlv (it_ A + i, jt_ A + j)) as [E|[E1 E2]].
      + by rewrite <- E, Hv.
      + rewrite E1. simpl. congruence.
    - assert (lives A s !! (it_ A + i, jt_ A + j) = None) as Hs.
      { destruct (Hlv (it_ A + i, jt_ A + j)) as [E|[E1 E2]]; congruence. }
      split; [by rewrite Hs|].
      split_and!; [done | done | done |]. intros k.
      rewrite lives_update_lives.
      destruct (decide (k = (it_ A + i, jt_ A + j))) as [->|Hne].
      + right. by rewrite lookup_insert_eq.
      + rewrite lookup_insert_ne by done. apply Hlv. }
  destruct (IH (row ++ [Some (default 0 (lives A s !! (it_ A + i, jt_ A + j)))])
              s2 Hinv2) as [E Hinv'].
  split; [|done]. rewrite E, <- app_assoc. done.
Qed.

Lemma printLife_rows A s (l : list Z) : ∀ out s1,
  zero_counters_entered A s s1 →
  let r :=
    foldl
      (fun '(out, s) i =>
         let '(row, s') :=
           foldl
             (fun '(row, s) j =>
                if bool_decide (tiles A s !! (i, j, host_num_) = None)
                then (row ++ [None], s)
                else
                  let '(v, s') := life_at A i j s in
                  (row ++ [Some v], s'))
             ([], s) (seqZ 0 (nt_ A)) in
         (out ++ [row], s'))
      (out, s1) l in
  r.1 =
    out ++
    ((fun i =>
        (fun j =>
           if bool_decide (tiles A s !! (i, j, host_num_) = None) then None
           else Some (default 0 (lives A s !! (it_ A + i, jt_ A + j))))
        <$> seqZ 0 (nt_ A)) <$> l) ∧
  zero_counters_entered A s r.2.
Proof.
  induction l as [|i l IH]; intros out s1 Hinv.
  { simpl. by rewrite app_nil_r. }
  cbn [foldl fmap list_fmap].
  pose proof (printLife_row A s i (seqZ 0 (nt_ A)) [] s1 Hinv) as Hrow.
  cbv zeta in Hrow.
  destruct (foldl _ ([], s1) (seqZ 0 (nt_ A))) as [row s2].
  destruct Hrow as [Erow Hinv2]. cbn [fst snd] in Erow, Hinv2.
  destruct (IH (out ++ [row]) s2 Hinv2) as [E Hinv'].
  split; [|done]. rewrite E, <- app_assoc, Erow. done.
Qed.

(** X27: printLife() prints on rank 0 only.  There it prints mt rows of
    nt cells; the cell (i, j) is the dot when the registry has no entry
    under the key (i, j, host) - the offsets of the view are not added -
    and otherwise the counter of the tile (it + i, jt + j), 0 when it has
    none.  Printing leaves the registry, the log and the pool alone, but
    not the life table: reading a counter that is not there enters it
    at 0. *)
Theorem printLife_prints_and_enters_counters A s :
  let r := printLife host_num_ A s in
  (mpi_rank_ A ≠ 0 → r = ([], s)) ∧
  (mpi_rank_ A = 0 →
   r.1 =
     (fun i =>
        (fun j =>
           if bool_decide (tiles A s !! (i, j, host_num_) = None) then None
           else Some (default 0 (lives A s !! (it_ A + i, jt_ A + j))))
        <$> seqZ 0 (nt_ A)) <$> seqZ 0 (mt_ A)) ∧
  zero_counters_entered A s r.2.
Proof.
  intros r. subst r. unfold printLife.
  assert (zero_counters_entered A s s) as Hrefl.
  { split_and!; try done. intros k. by left. }
  destruct (Z.eqb_spec (mpi_rank_ A) 0) as [E|E].
  - destruct (printLife_rows A s (seqZ 0 (mt_ A)) [] s Hrefl) as [Hout Hinv].
    split; [done|]. split; [|done]. intros _. exact Hout.
  - split; [done|]. split; [done|]. exact Hrefl.
Qed.

(** ** Reading the matrix back *)

Lemma foldl_reaches {X Y : Type} (P Q : X → Prop) (f : X → Y → X) (y0 : Y)
    l x :
  (∀ x y, P x → P (f x y)) → (∀ x y, Q x → Q (f x y)) →
  (∀ x, P x → Q (f x y0)) →
  y0 ∈ l → P x → Q (foldl f x l).
Proof.
  intros HP HQ Hreach. revert x.
  induction l as [|y l IH]; intros x Hin Hx.
  { by apply elem_of_nil in Hin. }
  simpl. apply elem_of_cons in Hin as [<-|Hin].
  - apply (foldl_invariant Q); [by apply Hreach | auto].
  - apply IH; [done | by apply HP].
Qed.

(** The loops of [copyFrom] and [copyFromFull] stop at a position whose
    host entry is missing when the body dereferences the entry there. *)
Lemma read_back_loop_stops A (body : Z → Z → Z → Z → State → outcome)
    i0 j0 s :
  let missing := fun s =>
    mjoin (tiles A s !! (it_ A + i0, jt_ A + j0, host_num_)) = None in
  (∀ m n i j s,
     missing s →
     match body m n i j s with Ok s' => missing s' | Fault _ _ => True end) →
  (∀ m n s, missing s → returns (body m n i0 j0 s) = false) →
  0 ≤ j0 ≤ i0 → i0 < mt_ A → missing s →
  returns
    (snd
       (foldl
          (fun '(m, o) i =>
             let '(_, o') :=
               foldl (fun '(n, o) j => (n + tileNb A j, o >>= body m n i j))
                 (0, o) (seqZ 0 (i + 1)) in
             (m + tileMb A i, o'))
          (0, Ok s) (seqZ 0 (mt_ A)))) = false.
Proof.
  intros missing Hkeep Hstop Hj Hi Hs.
  set (P := fun o => match o with Ok s' => missing s' | Fault _ _ => True end).
  set (Q := fun o => returns o = false).
  assert (∀ m n i j o, P o → P (o >>= body m n i j)) as HPstep.
  { intros m n i j [s1|e s1] Ho; [|done]. by apply Hkeep. }
  assert (∀ m n i j o, Q o → Q (o >>= body m n i j)) as HQstep.
  { by intros m n i j [s1|e s1] Ho. }
  assert (∀ (R : outcome → Prop) m i o,
            (∀ n j o, R o → R (o >>= body m n i j)) → R o →
            R (foldl (fun '(n, o) j => (n + tileNb A j, o >>= body m n i j))
                 (0, o) (seqZ 0 (i + 1))).2) as Hrow.
  { intros R m i o HR Ho.
    apply (foldl_invariant (fun acc : Z * outcome => R acc.2)); [done|].
    intros [n o1] j _ Ho1. by apply HR. }
  apply (foldl_reaches (fun acc : Z * outcome => P acc.2)
           (fun acc : Z * outcome => Q acc.2) _ i0).
  - intros [m o] i Ho. simpl in Ho.
    pose proof (Hrow P m i o (fun n j => HPstep m n i j) Ho) as H.
    by destruct (foldl _ (0, o) (seqZ 0 (i + 1))).
  - intros [m o] i Ho. simpl in Ho.
    pose proof (Hrow Q m i o (fun n j => HQstep m n i j) Ho) as H.
    by destruct (foldl _ (0, o) (seqZ 0 (i + 1))).
  - intros [m o] Ho. simpl in Ho.
    assert (Q (foldl (fun '(n, o) j => (n + tileNb A j, o >>= body m n i0 j))
                 (0, o) (seqZ 0 (i0 + 1))).2) as H.
    { apply (foldl_reaches (fun acc : Z * outcome => P acc.2)
               (fun acc : Z * outcome => Q acc.2) _ j0).
      - intros [n o1] j Ho1. by apply HPstep.
      - intros [n o1] j Ho1. by apply HQstep.
      - intros [n [s1|e s1]] Ho1; [|done]. by apply Hstop.
      - apply elem_of_seqZ. lia.
      - done. }
    by destruct (foldl _ (0, o) (seqZ 0 (i0 + 1))).
  - apply elem_of_seqZ. lia.
  - done.
Qed.

Lemma tile_copyFrom_missing A i j a k lda s :
  mjoin (tiles A s !! (it_ A + i, jt_ A + j, host_num_)) = None →
  returns (tile_copyFrom FloatType host_num_ A i j a k lda s) = false.
Proof.
  unfold tile_copyFrom, tile_at. intros H.
  by destruct (tiles A s !! (it_ A + i, jt_ A + j, host_num_)) as [[t|]|].
Qed.

Lemma tile_copyFrom_keeps_missing A i0 j0 i j a k lda s :
  mjoin (tiles A s !! (it_ A + i0, jt_ A + j0, host_num_)) = None →
  match tile_copyFrom FloatType host_num_ A i j a k lda s with
  | Ok s' => mjoin (tiles A s' !! (it_ A + i0, jt_ A + j0, host_num_)) = None
  | Fault _ _ => True
  end.
Proof.
  unfold tile_copyFrom, tile_at. intros H.
  destruct (tiles A s !! (it_ A + i, jt_ A + j, host_num_)) as [[t|]|] eqn:E;
    [|done|done].
  destruct (Tile_copyFrom _ _ _ _); [|done].
  rewrite tiles_tile_assign, lookup_insert_ne; [done|].
  intros E'. rewrite <- E', E in H. done.
Qed.

(** X28: copyFromFull(a, lda) reads the host tile at every position (i, j)
    with 0 <= j <= i < mt, local or not: when one of them has no host
    entry, or a null pointer for one, the call dereferences a null pointer
    and does not return.  copyFrom(a, lda) reads the local ones, and does
    not return when one of those is missing. *)
Theorem read_back_needs_resident_tiles A a lda i j s :
  0 ≤ j ≤ i → i < mt_ A →
  mjoin (tiles A s !! (it_ A + i, jt_ A + j, host_num_)) = None →
  returns (copyFromFull FloatType host_num_ A a lda s) = false ∧
  (tileIsLocal A i j = true →
   returns (copyFrom FloatType host_num_ A a lda s) = false).
Proof.
  intros Hj Hi Hmiss. split.
  - apply (read_back_loop_stops A
             (fun m n i j s =>
                tile_copyFrom FloatType host_num_ A i j a (lda * n + m) lda s)
             i j s); try done.
    + intros m n i' j' s1 H. by apply tile_copyFrom_keeps_missing.
    + intros m n s1 H. by apply tile_copyFrom_missing.
  - intros Hl.
    apply (read_back_loop_stops A
             (fun m n i j s =>
                if tileIsLocal A i j
                then tile_copyFrom FloatType host_num_ A i j a (lda * m + n)
                       lda s
                else Ok s)
             i j s); try done.
    + intros m n i' j' s1 H. destruct (tileIsLocal A i' j'); [|done].
      by apply tile_copyFrom_keeps_missing.
    + intros m n s1 H. rewrite Hl. by apply tile_copyFrom_missing.
Qed.

(** ** The constructor of a square matrix *)

(** X29: for nb, p, q > 0 the constructor of an n x n matrix that is given
    no array returns when larnv delivers the elements it is asked for:
    every local tile (i, j) with 0 <= j <= i < mt then has a host entry of
    nb x nb elements with stride nb that is no origin tile, and the tiles
    allocated are as many as getMaxHostTiles() counts, the number of
    blocks the constructor adds to the pool. *)
Theorem constructor_fills_square_matrix n lda nb comm r sz p q D s0 :
  (∀ s0 s1 s2 s3 k,
     length (larnv s0 s1 s2 s3 k) = Z.to_nat (sizeof FloatType * k)) →
  0 ≤ n → 0 < nb → 0 < p → 0 < q →
  let ctor :=
    Matrix_new FloatType host_num_ uninit larnv add_at n n None lda nb comm r
      sz p q D s0 in
  ∃ s',
    ctor.2 = Ok s' ∧
    (∀ i j, 0 ≤ j ≤ i → i < mt_ ctor.1 → tileIsLocal ctor.1 i j = true →
       ∃ t,
         tiles ctor.1 s' !! (i, j, host_num_) = Some (Some t) ∧
         mb_ t = nb ∧ nb_ t = nb ∧ stride_ t = nb ∧
         device_num_ t = host_num_ ∧ origin_ t = false) ∧
    Z.of_nat (allocs s') = Z.of_nat (allocs s0) + getMaxHostTiles ctor.1.
Proof.
  intros Hlar Hn Hnb Hp Hq ctor. set (A := ctor.1).
  pose proof (Matrix_new_runs n n None lda nb comm r sz p q D s0
                ltac:(lia) ltac:(lia) ltac:(lia)) as Hrun.
  cbv zeta in Hrun. fold ctor in Hrun. fold A in Hrun.
  set (s1 := set_life_maps (<[lives_ A := ∅]>)
               (set_tile_maps (<[tiles_ A := ∅]>) s0)) in Hrun.
  rewrite Hrun.
  assert (nt_ A = mt_ A) as Hsq by reflexivity.
  assert (∀ i, 0 ≤ i < mt_ A → tileMb A i = nb) as Hmb.
  { intros i Hi.
    by apply (tileMb_default_in_range n n None lda nb comm r sz p q D s0 i). }
  assert (∀ j, 0 ≤ j < mt_ A → tileNb A j = nb) as Hnbj.
  { intros j Hj.
    apply (tileNb_default_in_range n n None lda nb comm r sz p q D s0 j);
      [done | done |]. fold ctor. fold A. by rewrite Hsq. }
  destruct (random_filled A s1 Hlar) as (s' & E & Hnew & Ha & _).
  { apply (Matrix_new_block n n None lda nb comm r sz p q D s0). lia. }
  exists s'. split_and!; [done | | done].
  intros i j Hj Hi Hl.
  destruct (Hnew i j Hj Hi Hl) as (t & Ht & H1 & H2 & H3 & H4 & H5).
  exists t. rewrite (Hmb i) in H1, H3 by lia. rewrite (Hnbj j) in H2 by lia.
  split; [exact Ht | done].
Qed.

(** ** The entries the constructor makes *)

Lemma copyTo_enters A a lda i0 j0 s :
  0 ≤ j0 ≤ i0 → i0 < mt_ A → tileIsLocal A i0 j0 = true →
  is_Some
    (tiles A (copyTo FloatType host_num_ A a lda s)
       !! (it_ A + i0, jt_ A + j0, host_num_)).
Proof.
  intros Hj Hi Hl. unfold copyTo.
  set (Q := fun acc : Z * State =>
         is_Some (tiles A acc.2 !! (it_ A + i0, jt_ A + j0, host_num_))).
  assert (∀ i j p s1,
            is_Some (tiles A s1 !! (it_ A + i0, jt_ A + j0, host_num_)) →
            is_Some
              (tiles A (tile_assign A i j host_num_ (Some p) s1)
                 !! (it_ A + i0, jt_ A + j0, host_num_))) as Hkeep.
  { intros i j p s1 H. rewrite tiles_tile_assign.
    destruct (decide ((it_ A + i, jt_ A + j, host_num_) =
                      (it_ A + i0, jt_ A + j0, host_num_))) as [->|Hne].
    - rewrite lookup_insert_eq. by eexists.
    - by rewrite lookup_insert_ne. }
  apply (foldl_reaches (fun _ => True) Q _ i0); [done | | | | done].
  - intros [m s1] i H. unfold Q in *. simpl in H.
    match goal with
    | |- context [foldl ?f ?x ?l] =>
        assert (Q (foldl f x l)) as Hin; [|by destruct (foldl f x l)]
    end.
    apply (foldl_invariant Q); [done|].
    intros [n s2] j _ H2. unfold Q in *. simpl in *.
    destruct (tileIsLocal A i j); [|done]. by apply Hkeep.
  - intros [m s1] _.
    match goal with
    | |- context [foldl ?f ?x ?l] =>
        assert (Q (foldl f x l)) as Hin; [|by destruct (foldl f x l)]
    end.
    apply (foldl_reaches (fun _ => True) Q _ j0); [done | | | | done].
    + intros [n s2] j H2. unfold Q in *. simpl in *.
      destruct (tileIsLocal A i0 j); [|done]. by apply Hkeep.
    + intros [n s2] _. unfold Q. simpl. rewrite Hl.
      rewrite tiles_tile_assign, lookup_insert_eq. by eexists.
    + apply elem_of_seqZ. lia.
  - apply elem_of_seqZ. lia.
Qed.

(** C10: the entries that copyTo and random() make are host entries of
    local tiles (i, j) with j <= i; getMaxHostTiles and getMaxDeviceTiles
    count positions with j <= i only; every entry of the registry that the
    constructor leaves is a host entry (i, j) of a local tile with j <= i;
    and for nb, p, q > 0 the constructor returns, by either path, with an
    entry for every such tile, so that these are all its entries. *)
Theorem construction_lower_triangle :
  (∀ A a lda s,
     lower_local_entries host_num_ A s
       (copyTo FloatType host_num_ A a lda s)) ∧
  (∀ A s,
     lower_local_entries host_num_ A s
       (final (random FloatType host_num_ uninit larnv add_at A s))) ∧
  (∀ A,
     getMaxHostTiles A =
     Z.of_nat
       (length
          (List.filter (fun c => tileIsLocal A c.1 c.2)
             (lower_triangle (mt_ A))))) ∧
  (∀ A device,
     getMaxDeviceTiles A device =
     Z.of_nat
       (length
          (List.filter
             (fun c => tileIsLocal A c.1 c.2 && (tileDevice A c.1 c.2 =? device))
             (lower_triangle (mt_ A))))) ∧
  (∀ m n a lda nb comm r sz p q D s k,
     let ctor :=
       Matrix_new FloatType host_num_ uninit larnv add_at m n a lda nb comm r
         sz p q D s in
     is_Some (tiles ctor.1 (final ctor.2) !! k) →
     ∃ i j,
       k = (i, j, host_num_) ∧ 0 ≤ j ≤ i ∧ i < mt_ ctor.1 ∧
       tileIsLocal ctor.1 i j = true) ∧
  (∀ m n a lda nb comm r sz p q D s,
     (∀ s0 s1 s2 s3 k,
        length (larnv s0 s1 s2 s3 k) = Z.to_nat (sizeof FloatType * k)) →
     0 < nb → 0 < p → 0 < q →
     let ctor :=
       Matrix_new FloatType host_num_ uninit larnv add_at m n a lda nb comm r
         sz p q D s in
     ∃ s',
       ctor.2 = Ok s' ∧
       ∀ k,
         is_Some (tiles ctor.1 s' !! k) ↔
         ∃ i j,
           k = (i, j, host_num_) ∧ 0 ≤ j ≤ i ∧ i < mt_ ctor.1 ∧
           tileIsLocal ctor.1 i j = true).
Proof.
  assert (∀ m n a lda nb comm r sz p q D s k,
            let ctor :=
              Matrix_new FloatType host_num_ uninit larnv add_at m n a lda nb
                comm r sz p q D s in
            is_Some (tiles ctor.1 (final ctor.2) !! k) →
            ∃ i j,
              k = (i, j, host_num_) ∧ 0 ≤ j ≤ i ∧ i < mt_ ctor.1 ∧
              tileIsLocal ctor.1 i j = true) as Honly.
  { intros m n a lda nb comm r sz p q D s k ctor Hk.
    set (A := ctor.1) in *.
    set (s1 :=
           set_life_maps (<[fresh (dom (life_maps s)) := ∅]>)
             (set_tile_maps (<[fresh (dom (tile_maps s)) := ∅]>) s)).
    assert (tiles A s1 = ∅) as Hempty.
    { unfold tiles. subst A s1 ctor. simpl. apply lookup_total_insert_eq. }
    assert (lower_local_entries host_num_ A s1 (final ctor.2)) as Hlow.
    { subst ctor A. unfold Matrix_new. fold s1. cbv zeta. simpl snd.
      destruct (nb =? 0); [apply lower_local_entries_refl|].
      destruct (_ && _); [apply lower_local_entries_refl|].
      destruct a as [a|].
      - apply copyTo_lower_local.
      - apply random_lower_local. }
    destruct (Hlow k) as [E|(i & j & -> & Hj & Hi & Hl)].
    - rewrite E, Hempty, lookup_empty in Hk. by destruct Hk.
    - exists i, j. subst A ctor. simpl in *. by rewrite !Z.add_0_l. }
  split; [apply copyTo_lower_local|]. split; [apply random_lower_local|].
  split; [|split; [|split; [exact Honly|]]].
  - intros A. unfold getMaxHostTiles.
    apply (foldl_lower_triangle (fun c => tileIsLocal A c.1 c.2)).
  - intros A device. unfold getMaxDeviceTiles.
    apply (foldl_lower_triangle
             (fun c => tileIsLocal A c.1 c.2 && (tileDevice A c.1 c.2 =? device))).
  - intros m n a lda nb comm r sz p q D s Hlar Hnb Hp Hq ctor.
    set (A := ctor.1).
    pose proof (Matrix_new_runs m n a lda nb comm r sz p q D s
                  ltac:(lia) ltac:(lia) ltac:(lia)) as Hrun.
    cbv zeta in Hrun. fold ctor in Hrun. fold A in Hrun.
    set (s1 := set_life_maps (<[lives_ A := ∅]>)
                 (set_tile_maps (<[tiles_ A := ∅]>) s)) in Hrun.
    assert (∃ s',
              ctor.2 = Ok s' ∧
              ∀ i j, 0 ≤ j ≤ i → i < mt_ A → tileIsLocal A i j = true →
                     is_Some (tiles A s' !! (it_ A + i, jt_ A + j, host_num_)))
      as (s' & E & Hall).
    { rewrite Hrun. destruct a as [a|].
      - eexists. split; [reflexivity|]. intros i j Hj Hi Hl.
        by apply copyTo_enters.
      - destruct (random_filled A s1 Hlar) as (s' & E & Hnew & _).
        { apply (Matrix_new_block m n None lda nb comm r sz p q D s). lia. }
        exists s'. split; [done|]. intros i j Hj Hi Hl.
        destruct (Hnew i j Hj Hi Hl) as (t & Ht & _). by eexists. }
    exists s'. split; [done|]. intros k. split.
    + intros Hk. apply (Honly m n a lda nb comm r sz p q D s k).
      fold ctor. by rewrite E.
    + intros (i & j & -> & Hj & Hi & Hl).
      exact (Hall i j Hj Hi Hl).
Qed.

End Properties.

(** * Scenarios *)

(** C1, counterexample: in scenario S4 the calls copy_to_device(0, 0, 1) and
    move_to_host(0, 0, 1) both return, and the registry then holds two
    entries for tile (0, 0), the one of device 1 among them. *)
Lemma move_to_host_keeps_device_entry :
  let A := S4.1 in
  let s0 := final S4.2 in
  let s1 := final (tileCopyToDevice Double sc_host A 0 0 1 s0) in
  let s2 := final (tileMoveToHost Double sc_host A 0 0 1 s1) in
  returns S4.2 = true ∧
  tile_locations A 0 0 s0 = [sc_host] ∧
  returns (tileCopyToDevice Double sc_host A 0 0 1 s0) = true ∧
  returns (tileMoveToHost Double sc_host A 0 0 1 s1) = true ∧
  tile_found A 0 0 1 s2 = true ∧
  length (tile_locations A 0 0 s2) = 2%nat.
Proof. intros A s0 s1 s2. split_and!; vm_compute; reflexivity. Qed.

Lemma copy_to_device_then_move_to_host_witness :
  ∃ t s1,
    tiles S4.1 (final S4.2) !! (it_ S4.1 + 0, jt_ S4.1 + 0, sc_host) =
      Some (Some t) ∧
    0 ≤ 1 < Z.of_nat (length (comm_stream_ S4.1)) ∧
    tileCopyToDevice Double sc_host S4.1 0 0 1 (final S4.2) = Ok s1 ∧
    tileMoveToHost Double sc_host S4.1 0 0 1 s1 = Ok s1 ∧
    tiles S4.1 s1 !! (it_ S4.1 + 0, jt_ S4.1 + 0, sc_host) = Some (Some t) ∧
    is_Some (tiles S4.1 s1 !! (it_ S4.1 + 0, jt_ S4.1 + 0, 1)).
Proof.
  eexists.
  assert (0 ≤ 1 < Z.of_nat (length (comm_stream_ S4.1))) as Hd
    by (vm_compute; split; congruence).
  destruct (copy_to_device_then_move_to_host Double sc_host S4.1 0 0 1 _
              (final S4.2) ltac:(vm_compute; reflexivity) Hd)
    as (s1 & H1 & H2 & H3 & H4 & _).
  exists s1.
  exact (conj eq_refl (conj Hd (conj H1 (conj H2 (conj H3 H4))))).
Defined.

(** The ranks of scenario S2 after the broadcast of tile (0, 0) to the
    consumers [0..1] x [0..3]: the call returns everywhere, every rank has
    the tile at the host, the owner has no counter and the others have the
    life 2. *)
Lemma S2_after_bcast :
  let w :=
    tile_bcast_world Double sc_host sc_uninit Host (fun r => (S2 r).1) 0 0
      (0, 1, 0, 3) (fun r => final (S2 r).2) in
  (fun r => returns (w r)) <$> [0; 1; 2; 3] = [true; true; true; true] ∧
  (fun r => tile_locations (S2 r).1 0 0 (final (w r))) <$> [0; 1; 2; 3] =
    [[sc_host]; [sc_host]; [sc_host]; [sc_host]] ∧
  (fun r => lives (S2 r).1 (final (w r)) !! (0, 0)) <$> [0; 1; 2; 3] =
    [None; Some 2; Some 2; Some 2].
Proof. intros w. split_and!; vm_compute; reflexivity. Qed.

Lemma tileTick_reclaims_witness :
  let A := (S2 1).1 in
  let s :=
    final
      (tile_bcast_world Double sc_host sc_uninit Host (fun r => (S2 r).1) 0 0
         (0, 1, 0, 3) (fun r => final (S2 r).2) 1) in
  tileIsLocal A 0 0 = false ∧ 0 < 2 ∧
  lives A s !! (it_ A + 0, jt_ A + 0) = Some 2 ∧
  tiles A (ticks sc_host (Z.to_nat 2) A 0 0 s)
    !! (it_ A + 0, jt_ A + 0, sc_host) = None ∧
  lives A (ticks sc_host (Z.to_nat 2) A 0 0 s) !! (it_ A + 0, jt_ A + 0) = None.
Proof.
  intros A s.
  assert (tileIsLocal A 0 0 = false) as Hl by (vm_compute; reflexivity).
  assert (lives A s !! (it_ A + 0, jt_ A + 0) = Some 2) as Hv
    by (vm_compute; reflexivity).
  destruct (tileTick_reclaims sc_host A 0 0 2 s) as [_ H].
  destruct (H Hl eq_refl Hv) as (H1 & _ & H3 & _).
  exact (conj Hl (conj eq_refl (conj Hv (conj H1 H3)))).
Defined.

(** C4, counterexample: in scenario S2 rank 1 receives tile (0, 0) with the
    life 2; the third tick returns like the others, with the counter of
    the tile at -1 in the life table, and checkLife returns as well. *)
Lemma extra_tick_is_not_detected :
  let A := (S2 1).1 in
  let s :=
    final
      (tile_bcast_world Double sc_host sc_uninit Host (fun r => (S2 r).1) 0 0
         (0, 1, 0, 3) (fun r => final (S2 r).2) 1) in
  let s2 := ticks sc_host 2 A 0 0 s in
  let s3 := checkLife A (tileTick sc_host A 0 0 s2) in
  tileIsLocal A 0 0 = false ∧
  lives A s !! (0, 0) = Some 2 ∧
  lives A s2 !! (0, 0) = None ∧ tile_locations A 0 0 s2 = [] ∧
  lives A s3 !! (0, 0) = Some (-1) ∧ tile_locations A 0 0 s3 = [] ∧
  mpi_log s3 = mpi_log s.
Proof. intros A s s2 s3. split_and!; vm_compute; reflexivity. Qed.

Lemma tileTick_below_zero_stored_witness :
  let A := (S2 1).1 in
  let s :=
    final
      (tile_bcast_world Double sc_host sc_uninit Host (fun r => (S2 r).1) 0 0
         (0, 1, 0, 3) (fun r => final (S2 r).2) 1) in
  tileIsLocal A 0 0 = false ∧ 0 < 2 ∧
  lives A s !! (it_ A + 0, jt_ A + 0) = Some 2 ∧
  lives A (tileTick sc_host A 0 0 (ticks sc_host (Z.to_nat 2) A 0 0 s))
    !! (it_ A + 0, jt_ A + 0) = Some (-1).
Proof.
  intros A s.
  assert (tileIsLocal A 0 0 = false) as Hl by (vm_compute; reflexivity).
  assert (lives A s !! (it_ A + 0, jt_ A + 0) = Some 2) as Hv
    by (vm_compute; reflexivity).
  destruct (tileTick_below_zero_stored sc_host A 0 0 2 s Hl) as [_ H].
  destruct (H eq_refl Hv) as (H1 & _).
  exact (conj Hl (conj eq_refl (conj Hv H1))).
Defined.

Lemma submatrix_shares_registry_witness :
  let a := (S2 0).1 in
  1 ≤ 2 ∧ 2 < mt_ a ∧ 1 ≤ 2 ∧ 2 < nt_ a ∧
  ∃ v,
    Matrix_sub a 1 2 1 2 = Some v ∧
    (it_ v = it_ a + 1 ∧ jt_ v = jt_ a + 1 ∧
     mt_ v = 2 - 1 + 1 ∧ nt_ v = 2 - 1 + 1) ∧
    ∀ s, tile_at v 0 0 sc_host s = tile_at a (1 + 0) (1 + 0) sc_host s.
Proof.
  intros a.
  assert (1 ≤ 2) as H12 by lia.
  assert (2 < mt_ a) as Hm by (vm_compute; reflexivity).
  assert (2 < nt_ a) as Hn by (vm_compute; reflexivity).
  destruct (submatrix_shares_registry a 1 2 1 2 H12 Hm H12 Hn)
    as (v & Hv & Hext & _ & _ & _ & Hat & _).
  refine (conj H12 (conj Hm (conj H12 (conj Hn _)))).
  exists v. exact (conj Hv (conj Hext (fun s => Hat 0 0 sc_host s))).
Defined.

(** Rank 3 of scenario S2 owns no tile of rows 0 and 1 in columns 0 and 2,
    nor tile (0, 0). *)
Lemma tileSend_outside_set_witness :
  let A := (S2 3).1 in
  let s := final (S2 3).2 in
  tileIsLocal A 0 0 = false ∧
  (∀ r c, 0 ≤ r ≤ 1 → 0 ≤ c ≤ 0 → tileIsLocal A r c = false) ∧
  (∀ r c, 0 ≤ r ≤ 1 → 2 ≤ c ≤ 2 → tileIsLocal A r c = false) ∧
  tileSend_range Double sc_host sc_uninit Devices A 0 0 (0, 1, 0, 0) s = Ok s ∧
  tileSend_range2 Double sc_host sc_uninit Devices A 0 0 (0, 1, 0, 0)
    (0, 1, 2, 2) s = Ok s.
Proof.
  intros A s.
  assert (tileIsLocal A 0 0 = false) as Hl by (vm_compute; reflexivity).
  assert (∀ r c, 0 ≤ r ≤ 1 → 0 ≤ c ≤ 0 → tileIsLocal A r c = false) as H1.
  { intros r c Hr Hc. assert (c = 0) as -> by lia.
    assert (r = 0 ∨ r = 1) as [-> | ->] by lia; vm_compute; reflexivity. }
  assert (∀ r c, 0 ≤ r ≤ 1 → 2 ≤ c ≤ 2 → tileIsLocal A r c = false) as H2.
  { intros r c Hr Hc. assert (c = 2) as -> by lia.
    assert (r = 0 ∨ r = 1) as [-> | ->] by lia; vm_compute; reflexivity. }
  destruct (tileSend_outside_set Double sc_host sc_uninit Devices A 0 0
              0 1 0 0 0 1 2 2 s) as (Ha & Hb & _).
  exact (conj Hl (conj H1 (conj H2 (conj (Ha Hl H1) (Hb Hl H1 H2))))).
Defined.

Lemma construction_lower_triangle_witness :
  (is_Some (tiles (S2 1).1 (final (S2 1).2) !! (1, 0, sc_host)) ∧
   ∃ i j,
     (1, 0, sc_host) = (i, j, sc_host) ∧ 0 ≤ j ≤ i ∧ i < mt_ (S2 1).1 ∧
     tileIsLocal (S2 1).1 i j = true) ∧
  ∃ s',
    Tall.2 = Ok s' ∧
    (0 ≤ 2 ≤ 2 ∧ 2 < mt_ Tall.1 ∧ tileIsLocal Tall.1 2 2 = true) ∧
    is_Some (tiles Tall.1 s' !! (2, 2, sc_host)).
Proof.
  assert (is_Some (tiles (S2 1).1 (final (S2 1).2) !! (1, 0, sc_host))) as H.
  { eexists. vm_compute. reflexivity. }
  destruct (construction_lower_triangle Double sc_host sc_uninit (sc_larnv 8)
              (sc_add_at 8)) as (_ & _ & _ & _ & Hc & Hr).
  split.
  { split; [exact H|].
    exact (Hc 16 16 None 16 4 0%nat 1 4 2 2 0 empty_state (1, 0, sc_host) H). }
  destruct (Hr 6 3 None 6 2 0%nat 0 1 1 1 0 empty_state)
    as (s' & E & Hiff).
  - intros s0 s1 s2 s3 k. apply length_replicate.
  - lia.
  - lia.
  - lia.
  - assert (0 ≤ 2 ≤ 2 ∧ 2 < mt_ Tall.1 ∧ tileIsLocal Tall.1 2 2 = true)
      as Hcell by (vm_compute; split_and!; congruence).
    exists s'. split; [exact E|]. split; [exact Hcell|].
    apply Hiff. exists 2, 2. split; [reflexivity | exact Hcell].
Defined.

(** C7: with tiles of complex doubles, 16 bytes an element, the transport
    is given 8 bytes an element.  In scenario Z2 rank 1 owns tile (1, 0),
    one element: tileSend hands 8 of its 16 bytes to MPI_Send, the tile
    that tileRecv fills on rank 0 differs from it in the other 8, and so
    does the tile that the broadcast fills on rank 0. *)
Theorem transport_counts_doubles :
  let A := fun r => (Z2 r).1 in
  let w := fun r => final (Z2 r).2 in
  let b :=
    tile_bcast_world ComplexDouble sc_host sc_uninit Host A 1 0 (0, 0, 0, 0) w
  in
  let sent := replicate 16 x02 in
  let received := replicate 8 x02 ++ replicate 8 x00 in
  tiles (A 1) (w 1) !! (1, 0, sc_host) =
    Some (Some (mkTile 1 1 1 sent sc_host false)) ∧
  Z.of_nat (length sent) = sizeof ComplexDouble * (1 * 1) ∧
  mpi_log (final (tileSend sc_host (A 1) 1 0 0 (w 1))) =
    [MPI_Send (take 8 sent) 1 MPI_DOUBLE 0] ∧
  tiles (A 0)
    (final
       (tileRecv ComplexDouble sc_host sc_uninit (A 0) 1 0 1
          (set_p2p_in (fun _ => {[1 := [take 8 sent]]}) (w 0))))
    !! (1, 0, sc_host) =
    Some (Some (mkTile 1 1 1 received sc_host false)) ∧
  mpi_log (final (b 1)) =
    [MPI_Group_incl [0; 1]; MPI_Comm_create_group [0; 1]; MPI_Comm_rank;
     MPI_Group_translate_ranks 1; MPI_Bcast 1 MPI_DOUBLE 1; MPI_Group_free;
     MPI_Comm_free] ∧
  tiles (A 0) (final (b 0)) !! (1, 0, sc_host) =
    Some (Some (mkTile 1 1 1 received sc_host false)) ∧
  received ≠ sent.
Proof.
  intros A w b sent received.
  split_and!; try (vm_compute; reflexivity).
  vm_compute. congruence.
Qed.

(** C2: in scenario Z2 the broadcast of tile (1, 0), which rank 1 owns, to
    the consumer (0, 0), which rank 0 owns, returns on both ranks; rank 0
    then has the life 1 for the tile and a host entry for it, but the
    bytes of that entry are not those of the tile of rank 1. *)
Theorem bcast_of_complex_tile_differs :
  let A := fun r => (Z2 r).1 in
  let w := fun r => final (Z2 r).2 in
  let b :=
    tile_bcast_world ComplexDouble sc_host sc_uninit Host A 1 0 (0, 0, 0, 0) w
  in
  let owned := mkTile 1 1 1 (replicate 16 x02) sc_host false in
  let received :=
    mkTile 1 1 1 (replicate 8 x02 ++ replicate 8 x00) sc_host false in
  tileRank (A 0) 1 0 = 1 ∧ tileRank (A 0) 0 0 = 0 ∧
  returns (b 0) = true ∧ returns (b 1) = true ∧
  lives (A 0) (final (b 0)) !! (1, 0) = Some 1 ∧
  tiles (A 1) (final (b 1)) !! (1, 0, sc_host) = Some (Some owned) ∧
  tiles (A 0) (final (b 0)) !! (1, 0, sc_host) = Some (Some received) ∧
  data_ received ≠ data_ owned.
Proof.
  intros A w b owned received.
  split_and!; try (vm_compute; reflexivity).
  vm_compute. congruence.
Qed.

(** C8: in scenario Z2 gather() returns on both ranks; rank 1 has sent its
    tiles (1, 0) and (1, 1) and rank 0 holds host entries for the three
    tiles of the lower triangle, but the entry of (1, 0) does not have the
    bytes of the tile of rank 1. *)
Theorem gather_of_complex_tiles_differs :
  let A := fun r => (Z2 r).1 in
  let w := fun r => final (Z2 r).2 in
  let g := gather_world ComplexDouble sc_host sc_uninit A 2 w in
  let owned := mkTile 1 1 1 (replicate 16 x02) sc_host false in
  let received :=
    mkTile 1 1 1 (replicate 8 x02 ++ replicate 8 x00) sc_host false in
  returns (g 0) = true ∧ returns (g 1) = true ∧
  (fun c => tile_found (A 0) c.1 c.2 sc_host (final (g 0)))
    <$> lower_triangle 2 = [true; true; true] ∧
  (fun c => length c) <$> sent_to 0 (mpi_log (final (g 1))) = [8; 8]%nat ∧
  tiles (A 1) (final (g 1)) !! (1, 0, sc_host) = Some (Some owned) ∧
  tiles (A 0) (final (g 0)) !! (1, 0, sc_host) = Some (Some received) ∧
  data_ received ≠ data_ owned.
Proof.
  intros A w g owned received.
  split_and!; try (vm_compute; reflexivity).
  vm_compute. congruence.
Qed.

(** Scenario S2, doubles: after the broadcast of tile (0, 0) to the
    consumers [0..1] x [0..3], rank 1 holds the bytes of the tile of rank 0
    and the life 2, the number of the cells (1, 0) and (1, 2) it owns. *)
Lemma S2_bcast_receiver :
  ∃ t s',
    tiles (S2 0).1 (final (S2 0).2) !! (0, 0, sc_host) = Some (Some t) ∧
    tile_bcast_world Double sc_host sc_uninit Host (fun r => (S2 r).1) 0 0
      (0, 1, 0, 3) (fun r => final (S2 r).2) 1 = Ok s' ∧
    tiles (S2 1).1 s' !! (0, 0, sc_host) =
      Some (Some (mkTile (mb_ t) (nb_ t) (mb_ t) (data_ t) sc_host false)) ∧
    lives (S2 1).1 s' !! (0, 0) = Some 2.
Proof.
  eexists.
  edestruct (tile_bcast_world_receiver Double sc_host sc_uninit
              (fun r => (S2 r).1) 0 0 (0, 1, 0, 3) (fun r => final (S2 r).2) 1)
    as (s' & Hrun & Htile & Hlife);
    [reflexivity | reflexivity | reflexivity | reflexivity | done
    | by vm_compute; repeat constructor
    | vm_compute; reflexivity
    | vm_compute; reflexivity | vm_compute; reflexivity | by vm_compute
    | vm_compute; reflexivity | vm_compute; reflexivity |].
  exists s'. split_and!; [vm_compute; reflexivity | exact Hrun | exact Htile |].
  etrans; [exact Hlife|]. vm_compute. reflexivity.
Qed.

(** Scenario S5, doubles: after gather() rank 0 holds, for each of the six
    tiles of the lower triangle, a host entry with the bytes of the tile of
    its owner. *)
Lemma S5_gather_root :
  let A := fun r => (S5 r).1 in
  let w := fun r => final (S5 r).2 in
  ∃ s',
    gather_world Double sc_host sc_uninit A 4 w 0 = Ok s' ∧
    ∀ c, c ∈ lower_triangle 3 →
      ∃ t t',
        tiles (A (tileRank (A 0) c.1 c.2)) (w (tileRank (A 0) c.1 c.2))
          !! (c.1, c.2, sc_host) = Some (Some t) ∧
        tiles (A 0) s' !! (c.1, c.2, sc_host) = Some (Some t') ∧
        data_ t' = data_ t.
Proof.
  intros A w.
  assert (gather_cells (mt_ (A 0)) (nt_ (A 0)) =
          [(0, 0); (1, 0); (1, 1); (2, 0); (2, 1); (2, 2)]) as Hcells
    by (vm_compute; reflexivity).
  destruct (gather_world_root Double sc_host sc_uninit A 4 w)
    as (s' & Hrun & Htiles & _); try reflexivity.
  - intros r Hr. split; [reflexivity | by repeat split].
  - rewrite Hcells. intros c Hc.
    repeat (apply elem_of_cons in Hc as [->|Hc]);
      [by vm_compute.. | by apply elem_of_nil in Hc].
  - rewrite Hcells. intros c Hc.
    repeat (apply elem_of_cons in Hc as [->|Hc]);
      [apply whole_double_tile_true; vm_compute; reflexivity..
      | by apply elem_of_nil in Hc].
  - exists s'. split; [done|]. intros c Hc.
    assert (c ∈ gather_cells (mt_ (A 0)) (nt_ (A 0))) as Hc'.
    { rewrite Hcells. revert Hc. by vm_compute. }
    destruct (Htiles c Hc') as (t & t' & Ht & Ht' & Hd & _).
    exists t, t'. exact (conj Ht (conj Ht' Hd)).
Qed.

(** * Scenarios for the further properties *)

(** Scenario S4: tile (0, 0) is moved from the host to device 1. *)
Lemma tileMoveToDevice_moves_witness :
  ∃ t s',
    tiles S4.1 (final S4.2) !! (it_ S4.1 + 0, jt_ S4.1 + 0, sc_host) =
      Some (Some t) ∧
    tiles S4.1 (final S4.2) !! (it_ S4.1 + 0, jt_ S4.1 + 0, 1) = None ∧
    0 ≤ 1 < Z.of_nat (length (comm_stream_ S4.1)) ∧
    tileMoveToDevice Double sc_host S4.1 0 0 1 (final S4.2) = Ok s' ∧
    tiles S4.1 s' !! (it_ S4.1 + 0, jt_ S4.1 + 0, 1) =
      Some (Some (Tile_copyTo Double t 1)) ∧
    tiles S4.1 s' !! (it_ S4.1 + 0, jt_ S4.1 + 0, sc_host) = None.
Proof.
  eexists.
  assert (tiles S4.1 (final S4.2) !! (it_ S4.1 + 0, jt_ S4.1 + 0, 1) = None)
    as Hn by (vm_compute; reflexivity).
  assert (0 ≤ 1 < Z.of_nat (length (comm_stream_ S4.1))) as Hd
    by (vm_compute; split; congruence).
  destruct (tileMoveToDevice_moves Double sc_host S4.1 0 0 1 _ (final S4.2)
              ltac:(vm_compute; reflexivity) Hn Hd)
    as (s' & H1 & H2 & H3 & _).
  exists s'.
  exact (conj eq_refl (conj Hn (conj Hd (conj H1 (conj H2 H3))))).
Defined.

(** Scenario S4: tile (0, 0) is moved to device 1 and back. *)
Lemma move_to_device_and_back_witness :
  ∃ t s1 s2,
    tiles S4.1 (final S4.2) !! (it_ S4.1 + 0, jt_ S4.1 + 0, sc_host) =
      Some (Some t) ∧
    (stride_ t = mb_ t ∧ 0 ≤ mb_ t ∧ 0 ≤ nb_ t ∧
     Z.of_nat (length (data_ t)) = sizeof Double * (mb_ t * nb_ t)) ∧
    tileMoveToDevice Double sc_host S4.1 0 0 1 (final S4.2) = Ok s1 ∧
    tileMoveToHost Double sc_host S4.1 0 0 1 s1 = Ok s2 ∧
    tiles S4.1 s2 !! (it_ S4.1 + 0, jt_ S4.1 + 0, sc_host) =
      Some (Some (mkTile (mb_ t) (nb_ t) (mb_ t) (data_ t) sc_host false)) ∧
    tiles S4.1 s2 !! (it_ S4.1 + 0, jt_ S4.1 + 0, 1) = None.
Proof.
  assert (∃ t,
            tiles S4.1 (final S4.2) !! (it_ S4.1 + 0, jt_ S4.1 + 0, sc_host) =
              Some (Some t) ∧
            stride_ t = mb_ t ∧ 0 ≤ mb_ t ∧ 0 ≤ nb_ t ∧
            Z.of_nat (length (data_ t)) = sizeof Double * (mb_ t * nb_ t))
    as (t & Ht & Hs & Hmb & Hnb & Hlen).
  { eexists. split; [vm_compute; reflexivity|].
    vm_compute. split_and!; congruence. }
  assert (tiles S4.1 (final S4.2) !! (it_ S4.1 + 0, jt_ S4.1 + 0, 1) = None)
    as Hn by (vm_compute; reflexivity).
  assert (0 ≤ 1 < Z.of_nat (length (comm_stream_ S4.1))) as Hd
    by (vm_compute; split; congruence).
  destruct (move_to_device_and_back Double sc_host S4.1 0 0 1 t (final S4.2)
              Ht Hn Hd Hs Hmb Hnb Hlen)
    as (s1 & s2 & H1 & H2 & H3 & H4 & _).
  exists t, s1, s2.
  exact (conj Ht (conj (conj Hs (conj Hmb (conj Hnb Hlen)))
           (conj H1 (conj H2 (conj H3 H4))))).
Defined.

(** Scenario S4: the second copy of tile (0, 0) to device 1 changes nothing.
    *)
Lemma tile_motion_not_repeated_witness :
  tileCopyToDevice Double sc_host S4.1 0 0 1 (final S4.2) =
    Ok (final (tileCopyToDevice Double sc_host S4.1 0 0 1 (final S4.2))) ∧
  tileCopyToDevice Double sc_host S4.1 0 0 1
    (final (tileCopyToDevice Double sc_host S4.1 0 0 1 (final S4.2))) =
    Ok (final (tileCopyToDevice Double sc_host S4.1 0 0 1 (final S4.2))).
Proof.
  assert (tileCopyToDevice Double sc_host S4.1 0 0 1 (final S4.2) =
          Ok (final (tileCopyToDevice Double sc_host S4.1 0 0 1 (final S4.2))))
    as H by (vm_compute; reflexivity).
  destruct (tile_motion_not_repeated Double sc_host S4.1 0 0 1 (final S4.2)
              (final (tileCopyToDevice Double sc_host S4.1 0 0 1 (final S4.2))))
    as (Hc & _).
  exact (conj H (Hc H)).
Defined.

(** Scenario S4 has no tile (5, 5): it cannot be copied or moved to device
    1. *)
Lemma tile_motion_without_source_witness :
  tiles S4.1 (final S4.2) !! (it_ S4.1 + 5, jt_ S4.1 + 5, 1) = None ∧
  mjoin (tiles S4.1 (final S4.2) !! (it_ S4.1 + 5, jt_ S4.1 + 5, sc_host)) =
    None ∧
  returns (tileCopyToDevice Double sc_host S4.1 5 5 1 (final S4.2)) = false ∧
  returns (tileMoveToDevice Double sc_host S4.1 5 5 1 (final S4.2)) = false.
Proof.
  assert (tiles S4.1 (final S4.2) !! (it_ S4.1 + 5, jt_ S4.1 + 5, 1) = None)
    as H1 by (vm_compute; reflexivity).
  assert (mjoin (tiles S4.1 (final S4.2)
                   !! (it_ S4.1 + 5, jt_ S4.1 + 5, sc_host)) = None)
    as H2 by (vm_compute; reflexivity).
  destruct (tile_motion_without_source Double sc_host S4.1 5 5 1 (final S4.2)
              H1 H2) as (Ha & Hb & _).
  exact (conj H1 (conj H2 (conj Ha Hb))).
Defined.

(** Scenario S4 has the devices 0 and 1: tile (0, 0) can be copied to device
    1 and not to a device 2. *)
Lemma constructor_devices_have_streams_witness :
  ∃ t s',
    tiles S4.1 (final S4.2) !! (it_ S4.1 + 0, jt_ S4.1 + 0, sc_host) =
      Some (Some t) ∧
    tiles S4.1 (final S4.2) !! (it_ S4.1 + 0, jt_ S4.1 + 0, 1) = None ∧
    0 ≤ 1 < 2 ∧
    length (comm_stream_ S4.1) = Z.to_nat 2 ∧
    tileCopyToDevice Double sc_host S4.1 0 0 1 (final S4.2) = Ok s' ∧
    tiles S4.1 s' !! (it_ S4.1 + 0, jt_ S4.1 + 0, 1) =
      Some (Some (Tile_copyTo Double t 1)).
Proof.
  assert (∃ t,
            tiles S4.1 (final S4.2) !! (it_ S4.1 + 0, jt_ S4.1 + 0, sc_host) =
              Some (Some t)) as (t & Ht).
  { eexists. vm_compute. reflexivity. }
  assert (tiles S4.1 (final S4.2) !! (it_ S4.1 + 0, jt_ S4.1 + 0, 1) = None)
    as H1 by (vm_compute; reflexivity).
  assert (0 ≤ 1 < 2) as Hd by lia.
  destruct (constructor_devices_have_streams Double sc_host sc_uninit
              (sc_larnv 8) (sc_add_at 8) 4 4 None 4 2 0%nat 0 1 1 1 2
              empty_state 0 0 1 t (final S4.2))
    as ((_ & Hlen & _) & Hcopy).
  destruct (Hcopy Ht H1 Hd) as (s' & E & Hdev & _).
  exists t, s'.
  exact (conj Ht (conj H1 (conj Hd (conj Hlen (conj E Hdev))))).
Defined.

(** Scenario S2, a 2 x 2 grid without devices: the owner and the location of
    tile (3, 5). *)
Lemma default_distribution_total_witness :
  0 ≤ tileRank (S2 0).1 3 5 < 2 * 2 ∧
  (0 < 0 → 0 ≤ tileDevice (S2 0).1 3 5 < 0) ∧
  (0 ≤ 0 → tileDevice (S2 0).1 3 5 = sc_host).
Proof.
  exact (default_distribution_total Double sc_host sc_uninit (sc_larnv 8)
           (sc_add_at 8) 16 16 None 16 4 0%nat 0 4 2 2 0 empty_state 3 5
           ltac:(lia) ltac:(lia) ltac:(lia) ltac:(lia)).
Defined.

(** Scenario S2 on rank 1: tile (3, 4) and its neighbours one period away. *)
Lemma default_distribution_block_cyclic_witness :
  (tileIsLocal (S2 1).1 3 4 = true ↔
   Z.rem 3 2 = Z.rem 1 2 ∧ Z.rem 4 2 = Z.quot 1 2) ∧
  tileRank (S2 1).1 (3 + 2) 4 = tileRank (S2 1).1 3 4 ∧
  tileRank (S2 1).1 3 (4 + 2) = tileRank (S2 1).1 3 4.
Proof.
  exact (default_distribution_block_cyclic Double sc_host sc_uninit
           (sc_larnv 8) (sc_add_at 8) 16 16 None 16 4 0%nat 1 4 2 2 0
           empty_state 3 4 ltac:(lia) ltac:(lia) ltac:(lia) ltac:(lia)
           ltac:(lia)).
Defined.

(** Scenario S5: 6 x 6 elements in tiles of 2 x 2. *)
Lemma constructor_tile_counts_witness :
  it_ (S5 0).1 = 0 ∧ jt_ (S5 0).1 = 0 ∧
  0 ≤ mt_ (S5 0).1 ∧ 6 ≤ mt_ (S5 0).1 * 2 ∧
  (∀ k, 0 ≤ k → 6 ≤ k * 2 → mt_ (S5 0).1 ≤ k) ∧
  0 ≤ nt_ (S5 0).1 ∧ 6 ≤ nt_ (S5 0).1 * 2 ∧
  (∀ k, 0 ≤ k → 6 ≤ k * 2 → nt_ (S5 0).1 ≤ k).
Proof.
  exact (constructor_tile_counts Double sc_host sc_uninit (sc_larnv 8)
           (sc_add_at 8) 6 6 None 6 2 0%nat 0 4 2 2 0 empty_state
           ltac:(lia) ltac:(lia) ltac:(lia)).
Defined.

(** Scenario S4: the tiles of the devices 0 and 1 are all the local tiles. *)
Lemma device_tile_counts_add_up_witness :
  foldr (fun d acc => getMaxDeviceTiles S4.1 d + acc) 0 (seqZ 0 2) =
  getMaxHostTiles S4.1.
Proof.
  destruct (device_tile_counts_add_up S4.1 2) as (_ & _ & H).
  apply H. intros i j Hj Hi _.
  change (i < 2) in Hi.
  assert (i = 0 ∨ i = 1) as [-> | ->] by lia;
    [assert (j = 0) as -> by lia
    |assert (j = 0 ∨ j = 1) as [-> | ->] by lia];
    vm_compute; split; congruence.
Defined.

(** The handle of scenario S4 with an array of 4 x 4 doubles copied in: tile
    (1, 0). *)
Lemma copyTo_wraps_local_tiles_witness :
  tiles S4.1 (copyTo Double sc_host S4.1 (replicate 128 x05) 4 empty_state)
    !! (it_ S4.1 + 1, jt_ S4.1 + 0, sc_host) =
  Some
    (Some
       (mkTile (tileMb S4.1 1) (tileNb S4.1 0) 4
          (drop
             (Z.to_nat
                (sizeof Double * (4 * col_offset S4.1 0 + row_offset S4.1 1)))
             (replicate 128 x05))
          sc_host true)).
Proof.
  destruct (copyTo_wraps_local_tiles Double sc_host S4.1 (replicate 128 x05) 4
              empty_state) as (H & _).
  apply (H 1 0); [lia | vm_compute; reflexivity | vm_compute; reflexivity].
Defined.

(** The tall matrix filled at random: its tile (2, 2), one column wide, is
    entered like the others. *)
Lemma random_fills_local_tiles_witness :
  sizeof Double * (tileNb Tall.1 0 * tileNb Tall.1 0) ≤
    block_size_ (memory_ Tall.1) ∧
  ∃ s',
    random Double sc_host sc_uninit (sc_larnv 8) (sc_add_at 8) Tall.1
      empty_state = Ok s' ∧
    own_host_tile sc_host Tall.1 2 2 s' ∧
    Z.of_nat (allocs s') =
      Z.of_nat (allocs empty_state) + getMaxHostTiles Tall.1.
Proof.
  assert (sizeof Double * (tileNb Tall.1 0 * tileNb Tall.1 0) ≤
          block_size_ (memory_ Tall.1)) as Hfit by (vm_compute; congruence).
  split; [exact Hfit|].
  destruct (random_fills_local_tiles Double sc_host sc_uninit (sc_larnv 8)
              (sc_add_at 8) Tall.1 empty_state)
    as (s' & E & Htiles & Ha & _).
  - intros s0 s1 s2 s3 n. apply length_replicate.
  - exact Hfit.
  - exists s'. split; [exact E|]. split; [|exact Ha].
    apply Htiles; [lia | vm_compute; reflexivity | vm_compute; reflexivity].
Defined.

(** Scenario S2: rank 1 owns cells of the rows 0 and 1, so it gets a life
    for tile (0, 0). *)
Lemma broadcast_life_counts_local_cells_witness :
  tileIsLocal (S2 1).1 0 0 = false ∧
  1 ≤ tileSendFindLife (S2 1).1 0 0 (0, 1, 0, 3).
Proof.
  assert (tileIsLocal (S2 1).1 0 0 = false) as Hl by (vm_compute; reflexivity).
  destruct (broadcast_life_counts_local_cells (S2 1).1 0 0 (0, 1, 0, 3))
    as (_ & _ & H).
  split; [exact Hl|]. apply H; [exact Hl|].
  vm_compute. repeat constructor.
Defined.

(** Scenario S2: rank 0 owns tile (0, 0) and broadcasts it. *)
Lemma broadcast_on_owner_witness :
  ∃ s',
    tileSend_range Double sc_host sc_uninit Host (S2 0).1 0 0 (0, 1, 0, 3)
      (final (S2 0).2) = Ok s' ∧
    tile_maps s' = tile_maps (final (S2 0).2) ∧
    life_maps s' = life_maps (final (S2 0).2).
Proof.
  assert (∃ t,
            tiles (S2 0).1 (final (S2 0).2)
              !! (it_ (S2 0).1 + 0, jt_ (S2 0).1 + 0, sc_host) =
              Some (Some t) ∧
            0 ≤ mb_ t * nb_ t ∧
            8 * (mb_ t * nb_ t) ≤ Z.of_nat (length (data_ t)))
    as (t & Ht & Hc & Hlen).
  { eexists. split; [vm_compute; reflexivity|].
    vm_compute. split; congruence. }
  destruct (broadcast_on_owner Double sc_host sc_uninit (S2 0).1 0 0
              (0, 1, 0, 3) (2, 3, 0, 0) t (final (S2 0).2)
              ltac:(vm_compute; reflexivity) Ht Hc Hlen)
    as ((s' & E & Htm & Hlm & _) & _).
  exists s'. exact (conj E (conj Htm Hlm)).
Defined.

(** Scenario S2: rank 1 receives tile (0, 0) for the two cells it owns of
    the rows 0 and 1; the tile is there after one tick and gone after two.
    With the ranges (0, 0, 0, 0) and (1, 1, 0, 0) rank 1 owns a cell of the
    second range only: it is in the set of the two ranges and receives the
    tile with the life 1. *)
Lemma broadcast_tile_lives_as_counted_witness :
  (∃ s',
     tileSend_range Double sc_host sc_uninit Host (S2 1).1 0 0 (0, 1, 0, 3)
       (set_bcast_in [replicate 128 x07] (final (S2 1).2)) = Ok s' ∧
     tiles (S2 1).1 (ticks sc_host 1 (S2 1).1 0 0 s')
       !! (it_ (S2 1).1 + 0, jt_ (S2 1).1 + 0, sc_host) =
       Some
         (Some
            (mkTile (tileMb (S2 1).1 0) (tileNb (S2 1).1 0)
               (tileMb (S2 1).1 0) (replicate 128 x07) sc_host false)) ∧
     tiles (S2 1).1 (ticks sc_host 2 (S2 1).1 0 0 s')
       !! (it_ (S2 1).1 + 0, jt_ (S2 1).1 + 0, sc_host) = None) ∧
  (set_mem (mpi_rank_ (S2 1).1)
     (tileSendFindRanks (S2 1).1 0 0 (0, 0, 0, 0)
        (set_insert (tileRank (S2 1).1 0 0) [])) = false ∧
   ∃ s',
     tileSend_range2 Double sc_host sc_uninit Host (S2 1).1 0 0 (0, 0, 0, 0)
       (1, 1, 0, 0) (set_bcast_in [replicate 128 x07] (final (S2 1).2))
     = Ok s' ∧
     tiles (S2 1).1 (ticks sc_host 1 (S2 1).1 0 0 s')
       !! (it_ (S2 1).1 + 0, jt_ (S2 1).1 + 0, sc_host) = None).
Proof.
  split.
  - destruct (broadcast_tile_lives_as_counted Double sc_host sc_uninit
                (S2 1).1 0 0 (0, 1, 0, 3) (2, 3, 0, 0) (replicate 128 x07)
                (set_bcast_in [replicate 128 x07] (final (S2 1).2)))
      as (H & _).
    + reflexivity.
    + vm_compute. reflexivity.
    + vm_compute. congruence.
    + reflexivity.
    + vm_compute. reflexivity.
    + destruct H as (s' & E & Hstay & Hgone & _).
      { vm_compute. repeat constructor. }
      exists s'. split; [exact E|]. split.
      * apply (Hstay 1%nat). vm_compute. lia.
      * exact Hgone.
  - split; [vm_compute; reflexivity|].
    destruct (broadcast_tile_lives_as_counted Double sc_host sc_uninit
                (S2 1).1 0 0 (0, 0, 0, 0) (1, 1, 0, 0) (replicate 128 x07)
                (set_bcast_in [replicate 128 x07] (final (S2 1).2)))
      as (_ & H).
    + reflexivity.
    + vm_compute. reflexivity.
    + vm_compute. congruence.
    + reflexivity.
    + vm_compute. reflexivity.
    + destruct H as (s' & E & _ & Hgone & _).
      { vm_compute. repeat constructor. }
      exists s'. split; [exact E|]. exact Hgone.
Defined.

(** Scenario S4: the only rank sends tile (0, 0) to its devices. *)
Lemma broadcast_to_devices_witness :
  ∃ t s',
    tiles S4.1 (final S4.2) !! (it_ S4.1 + 0, jt_ S4.1 + 0, sc_host) =
      Some (Some t) ∧
    tileSend_range Double sc_host sc_uninit Devices S4.1 0 0 (0, 1, 0, 1)
      (final S4.2) = Ok s' ∧
    tiles S4.1 s' !! (it_ S4.1 + 0, jt_ S4.1 + 0, 1) =
      Some
        (default (Some (Tile_copyTo Double t 1))
           (tiles S4.1 (final S4.2) !! (it_ S4.1 + 0, jt_ S4.1 + 0, 1))).
Proof.
  assert (∃ t,
            tiles S4.1 (final S4.2) !! (it_ S4.1 + 0, jt_ S4.1 + 0, sc_host) =
              Some (Some t) ∧
            0 ≤ mb_ t * nb_ t ∧
            8 * (mb_ t * nb_ t) ≤ Z.of_nat (length (data_ t)))
    as (t & Ht & Hc & Hlen).
  { eexists. split; [vm_compute; reflexivity|].
    vm_compute. split; congruence. }
  destruct (broadcast_to_devices Double sc_host sc_uninit S4.1 0 0
              (0, 1, 0, 1) t (final S4.2) ltac:(vm_compute; reflexivity) Ht
              (or_intror (conj Hc Hlen)) ltac:(vm_compute; congruence))
    as (s' & E & Hdev & _).
  exists t, s'. split; [exact Ht|]. split; [exact E|].
  apply Hdev. vm_compute. split; congruence.
Defined.

(** Scenario S5: rank 1 sends its tile (1, 0) to rank 0. *)
Lemma point_to_point_delivers_tile_witness :
  ∃ t sb',
    tiles (S5 1).1 (final (S5 1).2)
      !! (it_ (S5 1).1 + 1, jt_ (S5 1).1 + 0, sc_host) = Some (Some t) ∧
    tileSend sc_host (S5 1).1 1 0 0 (final (S5 1).2) =
      Ok (log_call (MPI_Send (data_ t) (mb_ t * nb_ t) MPI_DOUBLE 0)
            (final (S5 1).2)) ∧
    tileRecv Double sc_host sc_uninit (S5 0).1 1 0 1
      (set_p2p_in (fun _ => {[1 := [data_ t]]}) (final (S5 0).2)) = Ok sb' ∧
    tiles (S5 0).1 sb' !! (it_ (S5 0).1 + 1, jt_ (S5 0).1 + 0, sc_host) =
      Some (Some (mkTile (mb_ t) (nb_ t) (mb_ t) (data_ t) sc_host false)).
Proof.
  assert (∃ t,
            tiles (S5 1).1 (final (S5 1).2)
              !! (it_ (S5 1).1 + 1, jt_ (S5 1).1 + 0, sc_host) =
              Some (Some t) ∧
            mb_ t = tileMb (S5 0).1 1 ∧ nb_ t = tileNb (S5 0).1 0 ∧
            0 ≤ mb_ t * nb_ t ∧
            Z.of_nat (length (data_ t)) = 8 * (mb_ t * nb_ t))
    as (t & Ht & Hmb & Hnb & Hc & Hlen).
  { eexists. split; [vm_compute; reflexivity|].
    vm_compute. split_and!; congruence. }
  destruct (point_to_point_delivers_tile Double sc_host sc_uninit (S5 1).1
              (S5 0).1 1 0 0 1 t [] (final (S5 1).2)
              (set_p2p_in (fun _ => {[1 := [data_ t]]}) (final (S5 0).2))
              eq_refl Ht Hmb Hnb Hc Hlen (lookup_singleton_eq _ _))
    as (Hsend & sb' & Hrecv & Htiles & _).
  exists t, sb'. split; [exact Ht|]. split; [exact Hsend|].
  split; [exact Hrecv|]. rewrite Htiles. apply lookup_insert_eq.
Defined.

(** Scenario S2: rank 1 does not hold tile (0, 0). *)
Lemma tileSend_of_missing_tile_witness :
  ∃ s1,
    tiles (S2 1).1 (final (S2 1).2)
      !! (it_ (S2 1).1 + 0, jt_ (S2 1).1 + 0, sc_host) = None ∧
    tileSend sc_host (S2 1).1 0 0 0 (final (S2 1).2) = Fault NullDeref s1 ∧
    tile_found (S2 1).1 0 0 sc_host s1 = true ∧
    tileMoveToHost Double sc_host (S2 1).1 0 0 0 s1 = Ok s1.
Proof.
  assert (tiles (S2 1).1 (final (S2 1).2)
            !! (it_ (S2 1).1 + 0, jt_ (S2 1).1 + 0, sc_host) = None) as Hn
    by (vm_compute; reflexivity).
  destruct (tileSend_of_missing_tile Double sc_host (S2 1).1 0 0 0 0
              (final (S2 1).2) Hn)
    as (s1 & E & _ & _ & _ & Hf & Hm & _).
  exists s1. exact (conj Hn (conj E (conj Hf Hm))).
Defined.

(** Scenario S5: gather() on rank 1, which owns tile (1, 0) of the lower
    triangle. *)
Lemma gather_sends_local_tiles_witness :
  ∃ new,
    gather Double sc_host sc_uninit (S5 1).1 (final (S5 1).2) =
      Ok (log_calls new (final (S5 1).2)) ∧
    sent_to 0 new =
      (fun c => default [] (tile_payload sc_host (S5 1).1 c.1 c.2 (final (S5 1).2)))
      <$> List.filter (fun c => tileIsLocal (S5 1).1 c.1 c.2)
            (gather_cells (mt_ (S5 1).1) (nt_ (S5 1).1)).
Proof.
  assert (gather_cells (mt_ (S5 1).1) (nt_ (S5 1).1) =
          [(0, 0); (1, 0); (1, 1); (2, 0); (2, 1); (2, 2)]) as Hcells
    by (vm_compute; reflexivity).
  destruct (gather_sends_local_tiles Double sc_host sc_uninit (S5 1).1
              (final (S5 1).2)) as (new & E & _ & Hsent).
  - vm_compute. congruence.
  - rewrite Hcells. intros c Hc Hl.
    repeat (apply elem_of_cons in Hc as [->|Hc]);
      [ vm_compute in Hl; discriminate Hl
      | eexists; split; [vm_compute; reflexivity | vm_compute; split; congruence]
      | vm_compute in Hl; discriminate Hl
      | vm_compute in Hl; discriminate Hl
      | vm_compute in Hl; discriminate Hl
      | vm_compute in Hl; discriminate Hl
      | by apply elem_of_nil in Hc ].
  - exists new. exact (conj E Hsent).
Defined.

(** Scenario S5: gather() on rank 0 when the other ranks have sent; the tile
    (1, 0) of rank 1. *)
Lemma gather_collects_on_root_witness :
  ∃ s',
    gather_world Double sc_host sc_uninit (fun r => (S5 r).1) 4
      (fun r => final (S5 r).2) 0 = Ok s' ∧
    ∃ t t',
      tiles (S5 1).1 (final (S5 1).2) !! (1, 0, sc_host) = Some (Some t) ∧
      tiles (S5 0).1 s' !! (1, 0, sc_host) = Some (Some t') ∧
      data_ t' = data_ t.
Proof.
  assert (gather_cells (mt_ (S5 0).1) (nt_ (S5 0).1) =
          [(0, 0); (1, 0); (1, 1); (2, 0); (2, 1); (2, 2)]) as Hcells
    by (vm_compute; reflexivity).
  destruct (gather_collects_on_root Double sc_host sc_uninit
              (fun r => (S5 r).1) 4 (fun r => final (S5 r).2))
    as (s' & Hrun & Htiles & _); try reflexivity.
  - intros r Hr. split; [reflexivity | by repeat split].
  - rewrite Hcells. intros c Hc.
    repeat (apply elem_of_cons in Hc as [->|Hc]);
      [by vm_compute.. | by apply elem_of_nil in Hc].
  - rewrite Hcells. intros c Hc.
    repeat (apply elem_of_cons in Hc as [->|Hc]);
      [apply whole_double_tile_true; vm_compute; reflexivity..
      | by apply elem_of_nil in Hc].
  - exists s'. split; [exact Hrun|].
    assert ((1, 0) ∈ gather_cells (mt_ (S5 0).1) (nt_ (S5 0).1)) as Hc.
    { rewrite Hcells. apply list_elem_of_further, list_elem_of_here. }
    destruct (Htiles (1, 0) Hc) as (t & t' & Ht & Ht' & Hd & _).
    exists t, t'. exact (conj Ht (conj Ht' Hd)).
Defined.

(** Scenario S2: the broadcast of tile (0, 0) seen from rank 1. *)
Lemma broadcast_delivers_owner_tile_witness :
  ∃ t s',
    tiles (S2 0).1 (final (S2 0).2) !! (0, 0, sc_host) = Some (Some t) ∧
    tile_bcast_world Double sc_host sc_uninit Host (fun r => (S2 r).1) 0 0
      (0, 1, 0, 3) (fun r => final (S2 r).2) 1 = Ok s' ∧
    tiles (S2 1).1 s' !! (0, 0, sc_host) =
      Some (Some (mkTile (mb_ t) (nb_ t) (mb_ t) (data_ t) sc_host false)).
Proof.
  eexists.
  edestruct (broadcast_delivers_owner_tile Double sc_host sc_uninit
               (fun r => (S2 r).1) 0 0 (0, 1, 0, 3) (fun r => final (S2 r).2) 1)
    as (s' & Hrun & Htile & _);
    [reflexivity | reflexivity | reflexivity | reflexivity | done
    | by vm_compute; repeat constructor
    | vm_compute; reflexivity
    | vm_compute; reflexivity | vm_compute; reflexivity | by vm_compute
    | vm_compute; reflexivity | vm_compute; reflexivity |].
  exists s'. split_and!; [vm_compute; reflexivity | exact Hrun | exact Htile].
Defined.

(** Scenario S2: the view of the tiles 1..2 x 1..2 of rank 0. *)
Lemma view_operations_are_the_parents_witness :
  ∃ v,
    Matrix_sub (S2 0).1 1 2 1 2 = Some v ∧
    tileRank v 0 1 = tileRank (S2 0).1 (1 + 0) (1 + 1) ∧
    tileErase v 0 1 sc_host (final (S2 0).2) =
      tileErase (S2 0).1 (1 + 0) (1 + 1) sc_host (final (S2 0).2) ∧
    tileTick sc_host v 0 1 (final (S2 0).2) =
      tileTick sc_host (S2 0).1 (1 + 0) (1 + 1) (final (S2 0).2).
Proof.
  destruct (Matrix_sub (S2 0).1 1 2 1 2) as [v|] eqn:Hv;
    [|exfalso; vm_compute in Hv; discriminate Hv].
  destruct (view_operations_are_the_parents Double sc_host sc_uninit (S2 0).1
              1 2 1 2 v 0 1 sc_host (final (S2 0).2) Hv)
    as ((Hr & _) & (_ & _ & _ & He & Ht) & _).
  exists v. exact (conj eq_refl (conj Hr (conj He Ht))).
Defined.

(** Scenario S2: rank 1 does not hold tile (0, 0), so copyFromFull does not
    return there. *)
Lemma read_back_needs_resident_tiles_witness :
  0 ≤ 0 ≤ 0 ∧ 0 < mt_ (S2 1).1 ∧
  mjoin (tiles (S2 1).1 (final (S2 1).2)
           !! (it_ (S2 1).1 + 0, jt_ (S2 1).1 + 0, sc_host)) = None ∧
  returns (copyFromFull Double sc_host (S2 1).1 [] 16 (final (S2 1).2)) = false.
Proof.
  assert (0 ≤ 0 ≤ 0) as H0 by lia.
  assert (0 < mt_ (S2 1).1) as Hm by (vm_compute; reflexivity).
  assert (mjoin (tiles (S2 1).1 (final (S2 1).2)
                   !! (it_ (S2 1).1 + 0, jt_ (S2 1).1 + 0, sc_host)) = None)
    as Hn by (vm_compute; reflexivity).
  destruct (read_back_needs_resident_tiles Double sc_host (S2 1).1 [] 16 0 0
              (final (S2 1).2) H0 Hm Hn) as (H & _).
  exact (conj H0 (conj Hm (conj Hn H))).
Defined.

(** Scenario S2: a view of a view, and bounds beyond the four rows of tiles.
    *)
Lemma submatrix_bounds_and_nesting_witness :
  ∃ v u,
    Matrix_sub (S2 0).1 1 3 1 3 = Some v ∧
    Matrix_sub v 1 2 0 1 = Some u ∧
    Matrix_sub (S2 0).1 (1 + 1) (1 + 2) (1 + 0) (1 + 1) = Some u ∧
    ¬ is_Some (Matrix_sub (S2 0).1 1 4 1 3).
Proof.
  destruct (Matrix_sub (S2 0).1 1 3 1 3) as [v|] eqn:Hv;
    [|exfalso; vm_compute in Hv; discriminate Hv].
  destruct (Matrix_sub v 1 2 0 1) as [u|] eqn:Hu.
  2:{ exfalso. unfold Matrix_sub in Hv. vm_compute in Hv.
      injection Hv as <-. vm_compute in Hu. discriminate Hu. }
  destruct (submatrix_bounds_and_nesting (S2 0).1 1 3 1 3) as (_ & Hnest).
  destruct (submatrix_bounds_and_nesting (S2 0).1 1 4 1 3) as (Hbounds & _).
  exists v, u. split; [reflexivity|]. split; [exact Hu|].
  split; [exact (Hnest v 1 2 0 1 u Hv Hu)|].
  intros H. apply Hbounds in H as (_ & _ & H & _).
  vm_compute in H. discriminate H.
Defined.

(** Scenario S2: what rank 0 prints, and rank 1 printing nothing. *)
Lemma printLife_prints_and_enters_counters_witness :
  (printLife sc_host (S2 0).1 (final (S2 0).2)).1 =
    (fun i =>
       (fun j =>
          if bool_decide
               (tiles (S2 0).1 (final (S2 0).2) !! (i, j, sc_host) = None)
          then None
          else
            Some
              (default 0
                 (lives (S2 0).1 (final (S2 0).2)
                    !! (it_ (S2 0).1 + i, jt_ (S2 0).1 + j))))
       <$> seqZ 0 (nt_ (S2 0).1)) <$> seqZ 0 (mt_ (S2 0).1) ∧
  printLife sc_host (S2 1).1 (final (S2 1).2) = ([], final (S2 1).2).
Proof.
  destruct (printLife_prints_and_enters_counters sc_host (S2 0).1
              (final (S2 0).2)) as (_ & H0 & _).
  destruct (printLife_prints_and_enters_counters sc_host (S2 1).1
              (final (S2 1).2)) as (H1 & _).
  split; [apply H0; reflexivity | apply H1; vm_compute; congruence].
Defined.

(** Scenario S4 has one rank. *)
Lemma single_rank_matrix_witness :
  0 ≤ mt_ S4.1 ∧
  2 * getMaxHostTiles S4.1 = mt_ S4.1 * (mt_ S4.1 + 1) ∧
  gather Double sc_host sc_uninit S4.1 (final S4.2) = Ok (final S4.2).
Proof.
  assert (0 ≤ mt_ S4.1) as Hm by (vm_compute; congruence).
  destruct (single_rank_matrix Double sc_host sc_uninit (sc_larnv 8)
              (sc_add_at 8) 4 4 None 4 2 0%nat 1 2 empty_state)
    as (_ & Hcount & Hgather).
  exact (conj Hm (conj (Hcount Hm) (Hgather (final S4.2)))).
Defined.

(** A second matrix, 6 x 3, built in the state of scenario S4 leaves the
    registry of the first alone. *)
Lemma constructor_makes_own_maps_witness :
  tiles_ S4.1 ∈ dom (tile_maps (final S4.2)) ∧
  ∃ s',
    (Matrix_new Double sc_host sc_uninit (sc_larnv 8) (sc_add_at 8) 6 3 None 6
       2 0%nat 0 1 1 1 2 (final S4.2)).2 = Ok s' ∧
    tiles S4.1 s' = tiles S4.1 (final S4.2).
Proof.
  assert (tiles_ S4.1 ∈ dom (tile_maps (final S4.2))) as Hd.
  { apply elem_of_dom. eexists. vm_compute. reflexivity. }
  destruct (constructor_makes_own_maps Double sc_host sc_uninit (sc_larnv 8)
              (sc_add_at 8) 6 3 None 6 2 0%nat 0 1 1 1 2 (final S4.2))
    as (s' & E & _ & _ & H & _).
  - intros s0 s1 s2 s3 k. apply length_replicate.
  - lia.
  - lia.
  - lia.
  - split; [exact Hd|]. exists s'. exact (conj E (H S4.1 Hd)).
Defined.

(** Rank 1 of scenario S2, a matrix of 16 x 16 doubles built without an
    array. *)
Lemma constructor_fills_square_matrix_witness :
  ∃ s',
    (S2 1).2 = Ok s' ∧
    Z.of_nat (allocs s') =
      Z.of_nat (allocs empty_state) + getMaxHostTiles (S2 1).1.
Proof.
  destruct (constructor_fills_square_matrix Double sc_host sc_uninit
              (sc_larnv 8) (sc_add_at 8) 16 16 4 0%nat 1 4 2 2 0 empty_state)
    as (s' & E & _ & Ha).
  - intros s0 s1 s2 s3 k. apply length_replicate.
  - lia.
  - lia.
  - lia.
  - lia.
  - exists s'. exact (conj E Ha).
Defined.
